(** * litellm/proxy/_types.py: validation, coercion and defaulting of the
    proxy's identity records

    A shallow embedding of the pydantic models of [litellm/proxy/_types.py]
    and of the pre-construction validators the module attaches to them.

    - Python values are the inductive [pyval]; a Python [str] is the list of
      its code points ([pystr]), a [float] is a binary64 ([PrimFloat.float]),
      a [dict] is an insertion-ordered association list.
    - The keyword arguments of a constructor, and the [values] dictionary a
      [root_validator(pre=True)] works on, are a [gmap string pyval]: the
      validators only use [values.get], [values.update] and [values[k] = v].
    - Exceptions are values of [pyexc]; a constructor returns [Ok record] or
      [Err e]. *)

From Stdlib Require Import ZArith NArith List String Ascii Floats Lia.
From Stdlib Require DecimalN DecimalPos DecimalFacts.
From stdpp Require Import gmap strings list.

Set Warnings "-register-all".

(** ** Results and exceptions *)

Inductive result (E A : Type) : Type :=
| Ok (a : A)
| Err (e : E).
Arguments Ok {E A} a.
Arguments Err {E A} e.

Definition bind {E A B} (x : result E A) (k : A -> result E B) : result E B :=
  match x with
  | Ok a => k a
  | Err e => Err e
  end.

Declare Scope result_scope.
Delimit Scope result_scope with result.
Notation "'do' x <- e ; k" := (bind e (fun x => k))
  (at level 10, x name, e at level 100, k at level 200) : result_scope.
Local Open Scope result_scope.

Definition is_ok {E A} (x : result E A) : bool :=
  match x with Ok _ => true | Err _ => false end.

(** ** Python values *)

(** A Python [str]: the sequence of its Unicode code points. *)
Definition pystr : Type := list N.

(** An ASCII literal of the source as a Python [str]. *)
Definition lit (s : string) : pystr :=
  map N_of_ascii (list_ascii_of_string s).

Fixpoint pystr_eqb (a b : pystr) : bool :=
  match a, b with
  | [], [] => true
  | x :: a', y :: b' => N.eqb x y && pystr_eqb a' b'
  | _, _ => false
  end.

(** [s.startswith(p)] *)
Fixpoint startswith (p s : pystr) : bool :=
  match p, s with
  | [], _ => true
  | x :: p', y :: s' => N.eqb x y && startswith p' s'
  | _ :: _, [] => false
  end.

Inductive pyval : Type :=
| PNone
| PBool (b : bool)
| PInt (z : Z)
| PFloat (f : float)
| PStr (s : pystr)
| PList (l : list pyval)
| PDict (d : list (pystr * pyval)).

(** The exceptions the module's own code raises. [UnicodeEncodeError] is a
    subclass of [ValueError] in Python. *)
Inductive pyexc : Type :=
| ValueError (msg : string)
| UnicodeEncodeError
| AttributeError.

(** [x is None] *)
Definition is_none (v : pyval) : bool :=
  match v with PNone => true | _ => false end.

(** [values.get(k)]: [None] when the key is absent. *)
Definition py_get (values : gmap string pyval) (k : string) : pyval :=
  default PNone (values !! k).

(** [values.update({k: v})] and [values[k] = v]. *)
Definition py_set (values : gmap string pyval) (k : string) (v : pyval)
  : gmap string pyval := <[k := v]> values.

(** Keyword arguments written as a list of pairs. *)
Definition kw (l : list (string * pyval)) : gmap string pyval := list_to_map l.

(** ** Binary64 and decimal text *)

Module Float64.

Local Open Scope Z_scope.

(** The binary64 nearest to [m * 10 ^ e10] (ties to even), for [m >= 0]:
    what Python's [float] makes of a decimal literal. *)
Definition of_decimal (neg : bool) (m : Z) (e10 : Z) : float :=
  match m with
  | Zpos p =>
      if 400 <? e10 then (if neg then neg_infinity else infinity)
      else if e10 + Z.log2 m / 3 + 1 <? -400 then (if neg then neg_zero else zero)
      else if 0 <=? e10
           then SF2Prim (binary_normalize prec emax
                           (if neg then - (m * 10 ^ e10) else m * 10 ^ e10) 0 false)
           else SF2Prim (SFdiv prec emax (S754_finite neg p 0)
                           (S754_finite false (Z.to_pos (10 ^ (- e10))) 0))
  | _ => if neg then neg_zero else zero
  end.

(** [m * 2 ^ e < 10 ^ k] *)
Definition lt_pow10 (m : positive) (e k : Z) : bool :=
  Zpos m * 2 ^ Z.max e 0 * 10 ^ Z.max (- k) 0
  <? 10 ^ Z.max k 0 * 2 ^ Z.max (- e) 0.

(** The [k] with [10 ^ (k - 1) <= m * 2 ^ e < 10 ^ k]. *)
Definition decimal_exponent (m : positive) (e : Z) : Z :=
  let k0 := (Z.log2 (Zpos m) + e) * 30103 / 100000 - 1 in
  default (k0 + 5)
    (List.find (lt_pow10 m e) [k0; k0 + 1; k0 + 2; k0 + 3; k0 + 4]).

(** The [n]-digit decimals next to [m * 2 ^ e] that read back as it, the
    nearer one first. *)
Definition candidate (m : positive) (e k : Z) (n : Z) : option Z :=
  let num := Zpos m * 2 ^ Z.max e 0 * 10 ^ Z.max (n - k) 0 in
  let den := 2 ^ Z.max (- e) 0 * 10 ^ Z.max (k - n) 0 in
  let lo := num / den in
  let r := num mod den in
  let x := SF2Prim (S754_finite false m e) in
  let reads d := PrimFloat.eqb (of_decimal false d (k - n)) x in
  let hi_first := (den <? 2 * r) || ((den =? 2 * r) && Z.odd lo) in
  let order := if hi_first then [lo + 1; lo] else [lo; lo + 1] in
  List.find reads order.

Fixpoint shortest (fuel : nat) (m : positive) (e k : Z) (n : Z) : Z * Z :=
  match candidate m e k n with
  | Some d => (d, n)
  | None =>
      match fuel with
      | O => (Zpos m * 2 ^ Z.max e 0 * 10 ^ Z.max (n - k) 0
              / (2 ^ Z.max (- e) 0 * 10 ^ Z.max (k - n) 0), n)
      | S fuel' => shortest fuel' m e k (n + 1)
      end
  end.

Fixpoint chars_of_uint (u : Decimal.uint) : pystr :=
  match u with
  | Decimal.Nil => []
  | Decimal.D0 u' => 48%N :: chars_of_uint u'
  | Decimal.D1 u' => 49%N :: chars_of_uint u'
  | Decimal.D2 u' => 50%N :: chars_of_uint u'
  | Decimal.D3 u' => 51%N :: chars_of_uint u'
  | Decimal.D4 u' => 52%N :: chars_of_uint u'
  | Decimal.D5 u' => 53%N :: chars_of_uint u'
  | Decimal.D6 u' => 54%N :: chars_of_uint u'
  | Decimal.D7 u' => 55%N :: chars_of_uint u'
  | Decimal.D8 u' => 56%N :: chars_of_uint u'
  | Decimal.D9 u' => 57%N :: chars_of_uint u'
  end.

(** The decimal digits of a natural number. *)
Definition digit_chars (z : Z) : pystr :=
  chars_of_uint (N.to_uint (Z.to_N z)).

Fixpoint strip_zeros (rev_digits : pystr) : pystr :=
  match rev_digits with
  | 48%N :: r => strip_zeros r
  | _ => rev_digits
  end.

(** The shortest digits that read back as [m * 2 ^ e], and the position of
    the decimal point: the value is [0.d1 d2 ... dn * 10 ^ decpt]. *)
Definition shortest_digits (m : positive) (e : Z) : pystr * Z :=
  let k := decimal_exponent m e in
  let '(d, n) := shortest 16 m e k 1 in
  let ds := digit_chars d in
  (rev (strip_zeros (rev ds)), k + (Z.of_nat (length ds) - n)).

(** [float.__repr__] of a finite non-zero magnitude. *)
Definition format_short (ds : pystr) (decpt : Z) : pystr :=
  let n := Z.of_nat (length ds) in
  if (decpt <=? -4) || (16 <? decpt) then
    let ex := decpt - 1 in
    let mant := match ds with
                | [d] => [d]
                | d :: rest => d :: 46%N :: rest
                | [] => []
                end in
    let exs := digit_chars (Z.abs ex) in
    mant ++ [101%N; if ex <? 0 then 45%N else 43%N]
         ++ (if Z.abs ex <? 10 then 48%N :: exs else exs)
  else if decpt <=? 0 then
    [48%N; 46%N] ++ repeat 48%N (Z.to_nat (- decpt)) ++ ds
  else if n <=? decpt then
    ds ++ repeat 48%N (Z.to_nat (decpt - n)) ++ [46%N; 48%N]
  else
    firstn (Z.to_nat decpt) ds ++ [46%N] ++ skipn (Z.to_nat decpt) ds.

Definition repr (f : float) : pystr :=
  match Prim2SF f with
  | S754_nan => lit "nan"
  | S754_infinity s => if s then lit "-inf" else lit "inf"
  | S754_zero s => if s then lit "-0.0" else lit "0.0"
  | S754_finite s m e =>
      let '(ds, decpt) := shortest_digits m e in
      (if s then [45%N] else []) ++ format_short ds decpt
  end.

End Float64.


(** ** JSON text: [json.dumps] and [json.loads] with their defaults *)

Module Json.

Local Open Scope N_scope.

(** *** Encoding *)

Definition hex_digit (d : N) : N := if d <? 10 then 48 + d else 87 + d.

(** [format(n, "04x")] for [n < 65536]. *)
Definition hex4 (n : N) : pystr :=
  [hex_digit (n / 4096 mod 16); hex_digit (n / 256 mod 16);
   hex_digit (n / 16 mod 16); hex_digit (n mod 16)].

(** [ESCAPE_ASCII]: the backslash, the quote and everything outside the
    printable ASCII range are escaped; a character beyond the basic plane
    becomes a surrogate pair. *)
Definition escape_char (c : N) : pystr :=
  if c =? 34 then [92; 34]
  else if c =? 92 then [92; 92]
  else if c =? 10 then [92; 110]
  else if c =? 13 then [92; 114]
  else if c =? 9 then [92; 116]
  else if c =? 8 then [92; 98]
  else if c =? 12 then [92; 102]
  else if (32 <=? c) && (c <=? 126) then [c]
  else if c <? 65536 then [92; 117] ++ hex4 c
  else
    let v := c - 65536 in
    [92; 117] ++ hex4 (55296 + v / 1024 mod 1024)
    ++ [92; 117] ++ hex4 (56320 + v mod 1024).

Definition encode_str (s : pystr) : pystr :=
  [34] ++ flat_map escape_char s ++ [34].

(** [int.__repr__] *)
Definition int_repr (z : Z) : pystr :=
  match z with
  | Zneg p => 45 :: Float64.digit_chars (Zpos p)
  | _ => Float64.digit_chars z
  end.

(** [floatstr]: non-finite floats get their JavaScript names. *)
Definition float_str (f : float) : pystr :=
  match Prim2SF f with
  | S754_nan => lit "NaN"
  | S754_infinity s => if s then lit "-Infinity" else lit "Infinity"
  | _ => Float64.repr f
  end.

Fixpoint join (sep : pystr) (parts : list pystr) : pystr :=
  match parts with
  | [] => []
  | [p] => p
  | p :: rest => p ++ sep ++ join sep rest
  end.

Fixpoint json_dumps (v : pyval) : pystr :=
  match v with
  | PNone => lit "null"
  | PBool true => lit "true"
  | PBool false => lit "false"
  | PInt z => int_repr z
  | PFloat f => float_str f
  | PStr s => encode_str s
  | PList l => [91] ++ join [44; 32] (map json_dumps l) ++ [93]
  | PDict d =>
      [123]
      ++ join [44; 32]
           (map (fun kv : pystr * pyval =>
                   encode_str (fst kv) ++ [58; 32] ++ json_dumps (snd kv)) d)
      ++ [125]
  end.

(** *** Decoding *)

Definition is_ws (c : N) : bool :=
  (c =? 32) || (c =? 9) || (c =? 10) || (c =? 13).

Fixpoint skip_ws (s : pystr) : pystr :=
  match s with
  | c :: r => if is_ws c then skip_ws r else s
  | [] => []
  end.

Definition is_digit (c : N) : bool := (48 <=? c) && (c <=? 57).

Fixpoint take_digits (s : pystr) : pystr * pystr :=
  match s with
  | c :: r =>
      if is_digit c
      then let '(ds, r') := take_digits r in (c :: ds, r')
      else ([], s)
  | [] => ([], [])
  end.

(** The number a run of decimal digits denotes. *)
Fixpoint uint_of_digits (ds : pystr) : Decimal.uint :=
  match ds with
  | [] => Decimal.Nil
  | c :: r =>
      let u := uint_of_digits r in
      match c - 48 with
      | 0 => Decimal.D0 u
      | 1 => Decimal.D1 u
      | 2 => Decimal.D2 u
      | 3 => Decimal.D3 u
      | 4 => Decimal.D4 u
      | 5 => Decimal.D5 u
      | 6 => Decimal.D6 u
      | 7 => Decimal.D7 u
      | 8 => Decimal.D8 u
      | _ => Decimal.D9 u
      end
  end.

Definition nat_of_digits (ds : pystr) : Z := Z.of_N (N.of_uint (uint_of_digits ds)).

(** [NUMBER_RE]: an optional minus sign and an integer part (a lone zero,
    or a non-zero digit and any digits), then an optional fraction (a dot
    and one or more digits), then an optional exponent ([e] or [E], an
    optional sign, one or more digits).  A group that does not match is
    left out and the number ends before it. *)
Definition match_int_part (s : pystr) : option (pystr * pystr) :=
  match s with
  | c :: r =>
      if c =? 48 then Some ([48], r)
      else if is_digit c
           then let '(ds, r') := take_digits r in Some (c :: ds, r')
           else None
  | [] => None
  end.

Definition match_frac (s : pystr) : option (pystr * pystr) :=
  match s with
  | c :: r =>
      if c =? 46
      then match take_digits r with
           | ([], _) => None
           | (ds, r') => Some (ds, r')
           end
      else None
  | [] => None
  end.

Definition match_exp (s : pystr) : option (Z * pystr) :=
  match s with
  | c :: r =>
      if (c =? 101) || (c =? 69) then
        let '(neg, r1) :=
          match r with
          | c' :: r' => if c' =? 45 then (true, r')
                        else if c' =? 43 then (false, r')
                        else (false, r)
          | [] => (false, r)
          end in
        match take_digits r1 with
        | ([], _) => None
        | (ds, r') =>
            Some (if neg then (- nat_of_digits ds)%Z else nat_of_digits ds, r')
        end
      else None
  | [] => None
  end.

(** The number that starts at [s1], after the sign: an [int] when it has
    neither fraction nor exponent, else a [float]. *)
Definition number_after_sign (neg : bool) (s1 : pystr)
  : option (pyval * pystr) :=
  match match_int_part s1 with
  | None => None
  | Some (ip, s2) =>
      let '(frac, s3) :=
        match match_frac s2 with
        | Some (f, r) => (Some f, r)
        | None => (None, s2)
        end in
      let '(ex, s4) :=
        match match_exp s3 with
        | Some (e, r) => (Some e, r)
        | None => (None, s3)
        end in
      match frac, ex with
      | None, None =>
          Some (PInt (if neg then (- nat_of_digits ip)%Z else nat_of_digits ip), s4)
      | _, _ =>
          let fr := default [] frac in
          Some (PFloat (Float64.of_decimal neg (nat_of_digits (ip ++ fr))
                          (default 0%Z ex - Z.of_nat (length fr))), s4)
      end
  end.

Definition match_number (s : pystr) : option (pyval * pystr) :=
  match s with
  | c :: r =>
      if c =? 45 then number_after_sign true r else number_after_sign false s
  | [] => None
  end.

Definition hex_value (c : N) : option N :=
  if is_digit c then Some (c - 48)
  else if (97 <=? c) && (c <=? 102) then Some (c - 87)
  else if (65 <=? c) && (c <=? 70) then Some (c - 55)
  else None.

(** [_decode_uXXXX]: four hexadecimal digits. *)
Definition decode_hex4 (s : pystr) : option (N * pystr) :=
  match s with
  | a :: b :: c :: d :: r =>
      match hex_value a, hex_value b, hex_value c, hex_value d with
      | Some x, Some y, Some z, Some w =>
          Some (((x * 16 + y) * 16 + z) * 16 + w, r)
      | _, _, _, _ => None
      end
  | _ => None
  end.

(** What follows a backslash inside a string. *)
Definition unescape (s : pystr) : option (N * pystr) :=
  match s with
  | [] => None
  | e :: r =>
      if e =? 117 then
        match decode_hex4 r with
        | None => None
        | Some (uni, r1) =>
            if (55296 <=? uni) && (uni <=? 56319) then
              match r1 with
              | 92 :: 117 :: r2 =>
                  match decode_hex4 r2 with
                  | Some (uni2, r3) =>
                      if (56320 <=? uni2) && (uni2 <=? 57343)
                      then Some (65536 + ((uni - 55296) * 1024 + (uni2 - 56320)), r3)
                      else Some (uni, r1)
                  | None => if 6 <? N.of_nat (length r1) then None else Some (uni, r1)
                  end
              | _ => Some (uni, r1)
              end
            else Some (uni, r1)
        end
      else if e =? 34 then Some (34, r)
      else if e =? 92 then Some (92, r)
      else if e =? 47 then Some (47, r)
      else if e =? 98 then Some (8, r)
      else if e =? 102 then Some (12, r)
      else if e =? 110 then Some (10, r)
      else if e =? 114 then Some (13, r)
      else if e =? 116 then Some (9, r)
      else None
  end.

(** [scanstring] in strict mode, from just after the opening quote. *)
Fixpoint scanstring (fuel : nat) (s : pystr) (acc : pystr)
  : option (pystr * pystr) :=
  match fuel with
  | O => None
  | S fuel' =>
      match s with
      | [] => None
      | c :: r =>
          if c =? 34 then Some (rev acc, r)
          else if c =? 92 then
            match unescape r with
            | Some (ch, r') => scanstring fuel' r' (ch :: acc)
            | None => None
            end
          else if c <? 32 then None
          else scanstring fuel' r (c :: acc)
      end
  end.

(** [dict(pairs)]: a repeated key keeps its first place and its last value. *)
Fixpoint dict_set (d : list (pystr * pyval)) (k : pystr) (v : pyval)
  : list (pystr * pyval) :=
  match d with
  | [] => [(k, v)]
  | (k', v') :: d' =>
      if pystr_eqb k' k then (k', v) :: d' else (k', v') :: dict_set d' k v
  end.

Definition dict_of_pairs (pairs : list (pystr * pyval)) : list (pystr * pyval) :=
  fold_left (fun d kv => dict_set d (fst kv) (snd kv)) pairs [].

Definition scan_string (s : pystr) : option (pystr * pystr) :=
  scanstring (length s) s [].

(** [scan_once], [JSONArray] and [JSONObject]; the loops of the latter two
    are [array_items] and [object_items], which receive the values read so
    far, last first. *)
Fixpoint scan_once (fuel : nat) (s : pystr) {struct fuel}
  : option (pyval * pystr) :=
  match fuel with
  | O => None
  | S fuel' =>
      match s with
      | [] => None
      | c :: r =>
          if c =? 34 then
            match scan_string r with
            | Some (str, r') => Some (PStr str, r')
            | None => None
            end
          else if c =? 123 then
            match skip_ws r with
            | c' :: r' =>
                if c' =? 125 then Some (PDict [], r')
                else if c' =? 34 then object_items fuel' [] r'
                else None
            | [] => None
            end
          else if c =? 91 then
            match skip_ws r with
            | c' :: r' =>
                if c' =? 93 then Some (PList [], r')
                else array_items fuel' [] (c' :: r')
            | [] => None
            end
          else if startswith (lit "null") s then Some (PNone, skipn 4 s)
          else if startswith (lit "true") s then Some (PBool true, skipn 4 s)
          else if startswith (lit "false") s then Some (PBool false, skipn 5 s)
          else
            match match_number s with
            | Some x => Some x
            | None =>
                if startswith (lit "NaN") s then Some (PFloat nan, skipn 3 s)
                else if startswith (lit "Infinity") s
                     then Some (PFloat infinity, skipn 8 s)
                else if startswith (lit "-Infinity") s
                     then Some (PFloat neg_infinity, skipn 9 s)
                else None
            end
      end
  end
with array_items (fuel : nat) (acc : list pyval) (s : pystr) {struct fuel}
  : option (pyval * pystr) :=
  match fuel with
  | O => None
  | S fuel' =>
      match scan_once fuel' s with
      | None => None
      | Some (v, r) =>
          match skip_ws r with
          | c :: r' =>
              if c =? 93 then Some (PList (rev (v :: acc)), r')
              else if c =? 44 then array_items fuel' (v :: acc) (skip_ws r')
              else None
          | [] => None
          end
      end
  end
with object_items (fuel : nat) (acc : list (pystr * pyval)) (s : pystr)
  {struct fuel} : option (pyval * pystr) :=
  match fuel with
  | O => None
  | S fuel' =>
      match scan_string s with
      | None => None
      | Some (key, r) =>
          match skip_ws r with
          | c :: r1 =>
              if c =? 58 then
                match scan_once fuel' (skip_ws r1) with
                | None => None
                | Some (v, r2) =>
                    match skip_ws r2 with
                    | c' :: r3 =>
                        if c' =? 125
                        then Some (PDict (dict_of_pairs (rev ((key, v) :: acc))), r3)
                        else if c' =? 44 then
                          match skip_ws r3 with
                          | c'' :: r4 =>
                              if c'' =? 34
                              then object_items fuel' ((key, v) :: acc) r4
                              else None
                          | [] => None
                          end
                        else None
                    | [] => None
                    end
                end
              else None
          | [] => None
          end
      end
  end.

(** [json.loads(s)] for a [str]: [None] stands for [JSONDecodeError]. *)
Definition json_loads (s : pystr) : option pyval :=
  if startswith [65279] s then None
  else
    match scan_once (S (length s)) (skip_ws s) with
    | Some (v, rest) =>
        match skip_ws rest with
        | [] => Some v
        | _ :: _ => None
        end
    | None => None
    end.

(** *** The values that survive the round trip *)

(** What may follow a value in the text [json_dumps] writes: nothing, a
    comma, or a closing bracket or brace. *)
Definition ends_value (rest : pystr) : Prop :=
  match rest with
  | [] => True
  | c :: _ => c = 44 \/ c = 93 \/ c = 125
  end.

(** A Unicode scalar value: a code point that is not a surrogate. *)
Definition valid_char (c : N) : bool :=
  (c <? 1114112) && negb ((55296 <=? c) && (c <=? 57343)).

Definition valid_str (s : pystr) : bool := forallb valid_char s.

(** A float that [json.loads] reads back from the text [json.dumps] writes
    for it: what [float.__repr__] promises of every finite float. *)
Definition float_round_trips (f : float) : Prop :=
  match_number (float_str f) = Some (PFloat f, []).

(** The values JSON can represent: strings of Unicode scalar values,
    finite floats, and mappings with string keys that are all different. *)
Fixpoint json_value (v : pyval) : Prop :=
  match v with
  | PNone | PBool _ | PInt _ => True
  | PFloat f => float_round_trips f
  | PStr s => valid_str s = true
  | PList l =>
      (fix all (l : list pyval) : Prop :=
         match l with
         | [] => True
         | x :: l' => json_value x /\ all l'
         end) l
  | PDict d =>
      NoDup (map fst d) /\
      (fix all (d : list (pystr * pyval)) : Prop :=
         match d with
         | [] => True
         | kv :: d' => (valid_str (fst kv) = true /\ json_value (snd kv)) /\ all d'
         end) d
  end.

(** The fuel [scan_once] needs for a value. *)
Definition items_weight (ws : list nat) : nat :=
  fold_right (fun w acc => S w + acc)%nat 0%nat ws.

Fixpoint weight (v : pyval) : nat :=
  match v with
  | PList l =>
      S ((fix sum (l : list pyval) : nat :=
            match l with
            | [] => 0
            | x :: l' => S (weight x) + sum l'
            end) l)%nat
  | PDict d =>
      S ((fix sum (d : list (pystr * pyval)) : nat :=
            match d with
            | [] => 0
            | kv :: d' => S (weight (snd kv)) + sum d'
            end) d)%nat
  | _ => 1%nat
  end.

Section pyval_induction.

Variable P : pyval -> Prop.
Hypothesis HNone : P PNone.
Hypothesis HBool : forall b, P (PBool b).
Hypothesis HInt : forall z, P (PInt z).
Hypothesis HFloat : forall f, P (PFloat f).
Hypothesis HStr : forall s, P (PStr s).
Hypothesis HList : forall l, Forall P l -> P (PList l).
Hypothesis HDict : forall d, Forall (fun kv => P (snd kv)) d -> P (PDict d).

Fixpoint pyval_ind_nested (v : pyval) : P v :=
  match v with
  | PNone => HNone
  | PBool b => HBool b
  | PInt z => HInt z
  | PFloat f => HFloat f
  | PStr s => HStr s
  | PList l =>
      HList l
        ((fix go (l : list pyval) : Forall P l :=
            match l with
            | [] => List.Forall_nil P
            | x :: l' => @List.Forall_cons _ P x l' (pyval_ind_nested x) (go l')
            end) l)
  | PDict d =>
      HDict d
        ((fix go (d : list (pystr * pyval)) : Forall (fun kv => P (snd kv)) d :=
            match d with
            | [] => List.Forall_nil _
            | kv :: d' =>
                @List.Forall_cons _ (fun kv => P (snd kv)) kv d'
                  (match kv as p return P (snd p) with
                   | (_, x) => pyval_ind_nested x
                   end) (go d')
            end) d)
  end.

End pyval_induction.

(** What the round trip asks of one value. *)
Definition reads_back (v : pyval) : Prop :=
  json_value v ->
  forall fuel rest, (weight v <= fuel)%nat -> ends_value rest ->
  scan_once fuel (json_dumps v ++ rest) = Some (v, rest).

(** The text of one member of an object. *)
Definition member_text (kv : pystr * pyval) : pystr :=
  encode_str (fst kv) ++ [58; 32] ++ json_dumps (snd kv).

End Json.

(** ** SHA-256 ([hashlib.sha256]) over a list of bytes *)

Module Sha256.

Local Open Scope Z_scope.

Definition mask32 : Z := 4294967295.
Definition add32 (x y : Z) : Z := Z.land (x + y) mask32.
Definition rotr (n x : Z) : Z :=
  Z.lor (Z.shiftr x n) (Z.land (Z.shiftl x (32 - n)) mask32).
Definition ch (x y z : Z) : Z :=
  Z.lxor (Z.land x y) (Z.land (Z.lxor x mask32) z).
Definition maj (x y z : Z) : Z :=
  Z.lxor (Z.lxor (Z.land x y) (Z.land x z)) (Z.land y z).
Definition big_sigma0 (x : Z) : Z :=
  Z.lxor (Z.lxor (rotr 2 x) (rotr 13 x)) (rotr 22 x).
Definition big_sigma1 (x : Z) : Z :=
  Z.lxor (Z.lxor (rotr 6 x) (rotr 11 x)) (rotr 25 x).
Definition small_sigma0 (x : Z) : Z :=
  Z.lxor (Z.lxor (rotr 7 x) (rotr 18 x)) (Z.shiftr x 3).
Definition small_sigma1 (x : Z) : Z :=
  Z.lxor (Z.lxor (rotr 17 x) (rotr 19 x)) (Z.shiftr x 10).

(** The first sixty-four primes. *)
Definition primes : list Z :=
  [2; 3; 5; 7; 11; 13; 17; 19; 23; 29; 31; 37; 41; 43; 47; 53;
   59; 61; 67; 71; 73; 79; 83; 89; 97; 101; 103; 107; 109; 113; 127; 131;
   137; 139; 149; 151; 157; 163; 167; 173; 179; 181; 191; 193; 197; 199;
   211; 223; 227; 229; 233; 239; 241; 251; 257; 263; 269; 271; 277; 281;
   283; 293; 307; 311].

(** Integer cube root, one bit at a time from bit [i] down. *)
Fixpoint cbrt_bits (i : nat) (n r : Z) : Z :=
  let r' := r + 2 ^ Z.of_nat i in
  let r := if r' * r' * r' <=? n then r' else r in
  match i with
  | O => r
  | S i' => cbrt_bits i' n r
  end.

(** The first 32 bits of the fractional part of the square root, resp. the
    cube root, of [p]: the initial hash value and the round constants. *)
Definition frac_sqrt (p : Z) : Z := Z.land (Z.sqrt (p * 2 ^ 64)) mask32.
Definition frac_cbrt (p : Z) : Z :=
  Z.land (cbrt_bits 40 (p * 2 ^ 96) 0) mask32.

Definition H0 : list Z := Eval vm_compute in map frac_sqrt (firstn 8 primes).
Definition K : list Z := Eval vm_compute in map frac_cbrt primes.

Definition be_bytes (n : nat) (x : Z) : list Z :=
  map (fun i => Z.land (Z.shiftr x (8 * Z.of_nat i)) 255) (rev (seq 0 n)).

(** Padding: a 1 bit, zeros up to 56 modulo 64, the bit length on 8 bytes. *)
Definition pad (msg : list Z) : list Z :=
  let len := Z.of_nat (length msg) in
  msg ++ [128] ++ repeat 0 (Z.to_nat ((55 - len) mod 64)) ++ be_bytes 8 (8 * len).

Definition be_word (bs : list Z) : Z :=
  fold_left (fun acc b => acc * 256 + b) bs 0.

Fixpoint words (n : nat) (bs : list Z) : list Z :=
  match n with
  | O => []
  | S n' => be_word (firstn 4 bs) :: words n' (skipn 4 bs)
  end.

(** The message schedule, most recent word first. *)
Fixpoint extend (n : nat) (w : list Z) : list Z :=
  match n with
  | O => w
  | S n' =>
      let x := add32 (add32 (small_sigma1 (nth 1 w 0)) (nth 6 w 0))
                     (add32 (small_sigma0 (nth 14 w 0)) (nth 15 w 0)) in
      extend n' (x :: w)
  end.

Definition schedule (block : list Z) : list Z :=
  rev (extend 48 (rev (words 16 block))).

Definition round (s : list Z) (kw : Z * Z) : list Z :=
  match s with
  | [a; b; c; d; e; f; g; h] =>
      let t1 := add32 (add32 (add32 h (big_sigma1 e))
                             (add32 (ch e f g) (fst kw))) (snd kw) in
      let t2 := add32 (big_sigma0 a) (maj a b c) in
      [add32 t1 t2; a; b; c; add32 d t1; e; f; g]
  | _ => s
  end.

Definition compress (h : list Z) (block : list Z) : list Z :=
  let s := fold_left round (combine K (schedule block)) h in
  map (fun p => add32 (fst p) (snd p)) (combine h s).

Fixpoint blocks (n : nat) (h : list Z) (bs : list Z) : list Z :=
  match n with
  | O => h
  | S n' => blocks n' (compress h (firstn 64 bs)) (skipn 64 bs)
  end.

Definition digest (msg : list Z) : list Z :=
  let p := pad msg in
  flat_map (be_bytes 4) (blocks (length p / 64) H0 p).

Definition hex_byte (b : Z) : pystr :=
  [Json.hex_digit (Z.to_N (Z.shiftr b 4)); Json.hex_digit (Z.to_N (Z.land b 15))].

Definition hexdigest (msg : list Z) : pystr := flat_map hex_byte (digest msg).

End Sha256.

(** [str.encode()]: UTF-8; a surrogate code point cannot be encoded. *)
Definition utf8_char (c : N) : option (list Z) :=
  let z := Z.of_N c in
  if (c <? 128)%N then Some [z]
  else if (c <? 2048)%N then
    Some [192 + z / 64; 128 + z mod 64]%Z
  else if ((55296 <=? c) && (c <=? 57343))%N then None
  else if (c <? 65536)%N then
    Some [224 + z / 4096; 128 + z / 64 mod 64; 128 + z mod 64]%Z
  else if (c <? 1114112)%N then
    Some [240 + z / 262144; 128 + z / 4096 mod 64;
          128 + z / 64 mod 64; 128 + z mod 64]%Z
  else None.

Fixpoint encode (s : pystr) : option (list Z) :=
  match s with
  | [] => Some []
  | c :: s' =>
      match utf8_char c, encode s' with
      | Some bs, Some rest => Some (bs ++ rest)
      | _, _ => None
      end
  end.

(** [hash_token]: the SHA-256 hex digest of the token. *)
Definition hash_token (token : pystr) : result pyexc pystr :=
  match encode token with
  | Some bytes => Ok (Sha256.hexdigest bytes)
  | None => Err UnicodeEncodeError
  end.

(** ** Field annotations and their validation

    The annotations the module uses.  Validation of a supplied value against
    its annotation is pydantic's, not this module's; it is modelled as a
    conformance check that keeps a conforming value as it is, converting only
    an [int] given for a [float].  The model accepts a subset of what
    pydantic accepts: it has no [datetime] values and no nested model
    instances, and it does not follow pydantic's lax conversions (a numeric
    string for an [int], and the like). *)

Inductive ty : Type :=
| TAny
| TStr
| TInt
| TFloat
| TBool
| TDatetime
| TModel (name : string)
| TLiteral (choices : list string)
| TList (elt : ty)
| TDict (key val : ty)
| TOptional (t : ty).

(** [float(z)]: the nearest binary64, ties to even. *)
Definition float_of_Z (z : Z) : float :=
  SF2Prim (binary_normalize prec emax z 0 false).

Fixpoint all_some {A} (l : list (option A)) : option (list A) :=
  match l with
  | [] => Some []
  | Some x :: l' => option_map (cons x) (all_some l')
  | None :: _ => None
  end.

Fixpoint validate_ty (t : ty) (v : pyval) {struct t} : option pyval :=
  match t with
  | TAny => Some v
  | TStr => match v with PStr _ => Some v | _ => None end
  | TInt => match v with PInt _ => Some v | _ => None end
  | TFloat =>
      match v with
      | PFloat _ => Some v
      | PInt z =>
          let f := float_of_Z z in
          if PrimFloat.is_infinity f then None else Some (PFloat f)
      | _ => None
      end
  | TBool => match v with PBool _ => Some v | _ => None end
  | TDatetime => None
  | TModel _ => None
  | TLiteral choices =>
      match v with
      | PStr s => if existsb (fun c => pystr_eqb (lit c) s) choices
                  then Some v else None
      | _ => None
      end
  | TList elt =>
      match v with
      | PList l => option_map PList (all_some (map (validate_ty elt) l))
      | _ => None
      end
  | TDict key val =>
      match v with
      | PDict d =>
          option_map PDict
            (all_some
               (map (fun kv : pystr * pyval =>
                       match validate_ty key (PStr (fst kv)),
                             validate_ty val (snd kv) with
                       | Some (PStr k'), Some v' => Some (k', v')
                       | _, _ => None
                       end) d))
      | _ => None
      end
  | TOptional t' =>
      match v with
      | PNone => Some PNone
      | _ => validate_ty t' v
      end
  end.

(** ** Models

    A pydantic model: its fields in declaration order (a field with no
    default is required), its [root_validator(pre=True)] functions in the
    order they run, and what [Config.extra] says of undeclared keys. *)

Record field : Type := Field {
  f_name : string;
  f_type : ty;
  f_default : option pyval
}.

Inductive extra_mode : Type := ExtraIgnore | ExtraAllow.

Definition root_validator : Type :=
  gmap string pyval -> result pyexc (gmap string pyval).

Record model : Type := Model {
  m_fields : list field;
  m_validators : list root_validator;
  m_extra : extra_mode
}.

(** How a constructor fails: pydantic turns a [ValueError] raised by a
    validator, a missing required field and a value that fails its
    annotation into a [ValidationError]; any other exception propagates. *)
Inductive validation_cause : Type :=
| RuleViolated (e : pyexc)
| MissingField (name : string)
| InvalidField (name : string).

Inductive construct_error : Type :=
| ValidationError (cause : validation_cause)
| Raised (e : pyexc).

Definition wrap_exception (e : pyexc) : construct_error :=
  match e with
  | ValueError _ | UnicodeEncodeError => ValidationError (RuleViolated e)
  | AttributeError => Raised e
  end.

Fixpoint run_validators (vs : list root_validator) (values : gmap string pyval)
  : result construct_error (gmap string pyval) :=
  match vs with
  | [] => Ok values
  | v :: vs' =>
      match v values with
      | Ok values' => run_validators vs' values'
      | Err e => Err (wrap_exception e)
      end
  end.

Definition field_value (values : gmap string pyval) (fd : field)
  : result construct_error pyval :=
  match values !! f_name fd with
  | Some v =>
      match validate_ty (f_type fd) v with
      | Some v' => Ok v'
      | None => Err (ValidationError (InvalidField (f_name fd)))
      end
  | None =>
      match f_default fd with
      | Some d => Ok d
      | None => Err (ValidationError (MissingField (f_name fd)))
      end
  end.

Fixpoint collect_fields (values : gmap string pyval) (fds : list field)
  : result construct_error (list (string * pyval)) :=
  match fds with
  | [] => Ok []
  | fd :: fds' =>
      do v <- field_value values fd;
      do rest <- collect_fields values fds';
      Ok ((f_name fd, v) :: rest)
  end.

Definition field_names (m : model) : list string := map f_name (m_fields m).

Definition is_field (m : model) (k : string) : bool :=
  existsb (String.eqb k) (field_names m).

(** The undeclared keys of [values]. *)
Definition extras (m : model) (values : gmap string pyval)
  : gmap string pyval :=
  filter (fun kv : string * pyval => is_field m (fst kv) = false) values.

(** Calling the class on keyword arguments. *)
Definition construct (m : model) (kwargs : gmap string pyval)
  : result construct_error (gmap string pyval) :=
  do values <- run_validators (m_validators m) kwargs;
  do fs <- collect_fields values (m_fields m);
  match m_extra m with
  | ExtraIgnore => Ok (list_to_map fs)
  | ExtraAllow => Ok (list_to_map fs ∪ extras m values)
  end.

(** Every supplied value of a declared field passes its annotation. *)
Definition conforming (m : model) (values : gmap string pyval) : bool :=
  forallb (fun fd =>
             match values !! f_name fd with
             | Some v => match validate_ty (f_type fd) v with
                         | Some _ => true
                         | None => false
                         end
             | None => true
             end) (m_fields m).

(** A subclass's fields: the parent's, each replaced in place by the
    subclass's declaration of the same name, then the new ones. *)
Definition find_field (k : string) (fds : list field) : option field :=
  List.find (fun fd => String.eqb k (f_name fd)) fds.

Definition inherit (parent own : list field) : list field :=
  map (fun p => default p (find_field (f_name p) own)) parent
  ++ List.filter (fun o => match find_field (f_name o) parent with
                      | Some _ => false
                      | None => true
                      end) own.

(** Shorthands for the declarations below. *)
Definition req (n : string) (t : ty) : field := Field n t None.
Definition opt (n : string) (t : ty) : field :=
  Field n (TOptional t) (Some PNone).
Definition dflt (n : string) (t : ty) (d : pyval) : field :=
  Field n t (Some d).

(** ** [NewEndUserRequest] *)

Module NewEndUserRequest.

Definition fields : list field :=
  [ req "user_id" TStr;
    opt "alias" TStr;
    dflt "blocked" TBool (PBool false);
    opt "max_budget" TFloat;
    opt "budget_id" TStr;
    opt "allowed_model_region" (TLiteral ["eu"]);
    opt "default_model" TStr ].

Definition check_user_info : root_validator := fun values =>
  if negb (is_none (py_get values "max_budget"))
     && negb (is_none (py_get values "budget_id"))
  then Err (ValueError "Set either 'max_budget' or 'budget_id', not both.")
  else Ok values.

Definition cls : model := Model fields [check_user_info] ExtraIgnore.

End NewEndUserRequest.

(** ** The other models

    Each class of the module is a Rocq module of the same name holding its
    [fields], its validators under their own names, and the model [cls].
    A field declared without a default (also one annotated [Optional]) is
    required, as pydantic 2 reads the declaration. *)

Definition optd (n : string) (t : ty) (d : pyval) : field :=
  Field n (TOptional t) (Some d).

Definition plain_list : ty := TList TAny.
Definition plain_dict : ty := TDict TAny TAny.

(** The rule shared by [UpdateUserRequest], [Member] and
    [TeamMemberDeleteRequest], which each declare it as [check_user_info]. *)
Definition user_id_or_email : root_validator := fun values =>
  if is_none (py_get values "user_id") && is_none (py_get values "user_email")
  then Err (ValueError "Either user id or user email must be provided")
  else Ok values.

(** The loop shared by the two [set_model_info] validators that decode
    fields persisted as JSON text. *)
Fixpoint decode_dict_fields (dict_fields : list string)
  (values : gmap string pyval) : result pyexc (gmap string pyval) :=
  match dict_fields with
  | [] => Ok values
  | field :: rest =>
      match py_get values field with
      | PStr value =>
          match Json.json_loads value with
          | Some decoded => decode_dict_fields rest (py_set values field decoded)
          | None =>
              Err (ValueError ("Field " +:+ field +:+ " should be a valid dictionary"))
          end
      | _ => decode_dict_fields rest values
      end
  end.

Module LiteLLM_JWTAuth.

Definition fields : list field :=
  [ dflt "admin_jwt_scope" TStr (PStr (lit "litellm_proxy_admin"));
    dflt "admin_allowed_routes"
      (TList (TLiteral ["openai_routes"; "info_routes"; "management_routes";
                        "spend_tracking_routes"; "global_spend_tracking_routes"]))
      (PList [PStr (lit "management_routes"); PStr (lit "spend_tracking_routes");
              PStr (lit "global_spend_tracking_routes"); PStr (lit "info_routes")]);
    opt "team_id_jwt_field" TStr;
    dflt "team_allowed_routes"
      (TList (TLiteral ["openai_routes"; "info_routes"; "management_routes"]))
      (PList [PStr (lit "openai_routes"); PStr (lit "info_routes")]);
    opt "team_id_default" TStr;
    opt "org_id_jwt_field" TStr;
    opt "user_id_jwt_field" TStr;
    dflt "user_id_upsert" TBool (PBool false);
    opt "end_user_id_jwt_field" TStr;
    dflt "public_key_ttl" TFloat (PInt 600) ].

Definition cls : model := Model fields [] ExtraIgnore.

(** [self.__annotations__.keys()]: the names the class itself annotates. *)
Definition allowed_keys : gset string := list_to_set (map f_name fields).

Definition join_keys (ks : list string) : string :=
  fold_right (fun k acc => match acc with
                           | EmptyString => k
                           | _ => k +:+ ", " +:+ acc
                           end) EmptyString ks.

(** [__init__]: keyword arguments outside the annotated names are refused
    before pydantic sees them.  The message lists the names in the
    iteration order of a Python set, which the language leaves open; here
    it is the order of [elements]. *)
Definition init (kwargs : gmap string pyval)
  : result construct_error (gmap string pyval) :=
  let invalid_keys := dom kwargs ∖ allowed_keys in
  if bool_decide (invalid_keys = ∅) then construct cls kwargs
  else Err (Raised (ValueError
         ("Invalid arguments provided: " +:+ join_keys (elements invalid_keys)
          +:+ ". Allowed arguments are: " +:+ join_keys (map f_name fields)
          +:+ ".")))%string.

End LiteLLM_JWTAuth.

Module ProxyChatCompletionRequest.

Definition fields : list field :=
  [ req "model" TStr;
    req "messages" (TList (TDict TStr TStr));
    opt "temperature" TFloat;
    opt "top_p" TFloat;
    opt "n" TInt;
    opt "stream" TBool;
    opt "stop" (TList TStr);
    opt "max_tokens" TInt;
    opt "presence_penalty" TFloat;
    opt "frequency_penalty" TFloat;
    opt "logit_bias" (TDict TStr TFloat);
    opt "user" TStr;
    opt "response_format" (TDict TStr TStr);
    opt "seed" TInt;
    opt "tools" (TList TStr);
    opt "tool_choice" TStr;
    opt "functions" (TList TStr);
    opt "function_call" TStr;
    opt "caching" TBool;
    opt "api_base" TStr;
    opt "api_version" TStr;
    opt "api_key" TStr;
    opt "num_retries" TInt;
    opt "context_window_fallback_dict" (TDict TStr TStr);
    opt "fallbacks" (TList TStr);
    optd "metadata" (TDict TStr TStr) (PDict []);
    opt "deployment_id" TStr;
    opt "request_timeout" TInt ].

Definition cls : model := Model fields [] ExtraAllow.

End ProxyChatCompletionRequest.

Module GenerateRequestBase.

Definition fields : list field :=
  [ optd "models" plain_list (PList []);
    optd "spend" TFloat (PInt 0);
    opt "max_budget" TFloat;
    opt "user_id" TStr;
    opt "team_id" TStr;
    opt "max_parallel_requests" TInt;
    optd "metadata" plain_dict (PDict []);
    opt "tpm_limit" TInt;
    opt "rpm_limit" TInt;
    opt "budget_duration" TStr;
    optd "allowed_cache_controls" plain_list (PList []);
    opt "soft_budget" TFloat ].

End GenerateRequestBase.

Module GenerateKeyRequest.

Definition fields : list field :=
  inherit GenerateRequestBase.fields
    [ opt "key_alias" TStr;
      opt "duration" TStr;
      optd "aliases" plain_dict (PDict []);
      optd "config" plain_dict (PDict []);
      optd "permissions" plain_dict (PDict []);
      optd "model_max_budget" plain_dict (PDict []) ].

Definition cls : model := Model fields [] ExtraIgnore.

End GenerateKeyRequest.

Module GenerateKeyResponse.

Definition fields : list field :=
  inherit GenerateKeyRequest.fields
    [ req "key" TStr;
      opt "key_name" TStr;
      req "expires" (TOptional TDatetime);
      opt "user_id" TStr;
      opt "token_id" TStr ].

Definition dict_fields : list string :=
  ["metadata"; "aliases"; "config"; "permissions"; "model_max_budget"].

Definition set_model_info : root_validator := fun values =>
  let values :=
    if negb (is_none (py_get values "token"))
    then py_set values "key" (py_get values "token")
    else values in
  decode_dict_fields dict_fields values.

Definition cls : model := Model fields [set_model_info] ExtraIgnore.

End GenerateKeyResponse.

Module UpdateUserRequest.

Definition fields : list field :=
  inherit GenerateRequestBase.fields
    [ opt "user_id" TStr;
      opt "user_email" TStr;
      opt "spend" TFloat;
      opt "metadata" plain_dict;
      opt "user_role" TStr;
      opt "max_budget" TFloat ].

Definition check_user_info : root_validator := user_id_or_email.

Definition cls : model := Model fields [check_user_info] ExtraIgnore.

End UpdateUserRequest.

Module Member.

Definition fields : list field :=
  [ req "role" (TLiteral ["admin"; "user"]);
    opt "user_id" TStr;
    opt "user_email" TStr ].

Definition check_user_info : root_validator := user_id_or_email.

Definition cls : model := Model fields [check_user_info] ExtraIgnore.

End Member.

Module TeamBase.

Definition fields : list field :=
  [ opt "team_alias" TStr;
    opt "team_id" TStr;
    opt "organization_id" TStr;
    dflt "admins" plain_list (PList []);
    dflt "members" plain_list (PList []);
    dflt "members_with_roles" (TList (TModel "Member")) (PList []);
    opt "metadata" plain_dict;
    opt "tpm_limit" TInt;
    opt "rpm_limit" TInt;
    opt "max_budget" TFloat;
    dflt "models" plain_list (PList []);
    dflt "blocked" TBool (PBool false) ].

End TeamBase.

Module TeamMemberDeleteRequest.

Definition fields : list field :=
  [ req "team_id" TStr;
    opt "user_id" TStr;
    opt "user_email" TStr ].

Definition check_user_info : root_validator := user_id_or_email.

Definition cls : model := Model fields [check_user_info] ExtraIgnore.

End TeamMemberDeleteRequest.

Module LiteLLM_TeamTable.

Definition fields : list field :=
  inherit TeamBase.fields
    [ opt "spend" TFloat;
      opt "max_parallel_requests" TInt;
      opt "budget_duration" TStr;
      opt "budget_reset_at" TDatetime;
      opt "model_id" TInt ].

Definition dict_fields : list string :=
  ["metadata"; "aliases"; "config"; "permissions"; "model_max_budget";
   "model_aliases"].

Definition set_model_info : root_validator :=
  decode_dict_fields dict_fields.

Definition cls : model := Model fields [set_model_info] ExtraIgnore.

End LiteLLM_TeamTable.

Module LiteLLM_VerificationToken.

Definition fields : list field :=
  [ opt "token" TStr;
    opt "key_name" TStr;
    opt "key_alias" TStr;
    dflt "spend" TFloat (PFloat 0);
    opt "max_budget" TFloat;
    opt "expires" TStr;
    dflt "models" plain_list (PList []);
    dflt "aliases" plain_dict (PDict []);
    dflt "config" plain_dict (PDict []);
    opt "user_id" TStr;
    opt "team_id" TStr;
    opt "max_parallel_requests" TInt;
    dflt "metadata" plain_dict (PDict []);
    opt "tpm_limit" TInt;
    opt "rpm_limit" TInt;
    opt "budget_duration" TStr;
    opt "budget_reset_at" TDatetime;
    optd "allowed_cache_controls" plain_list (PList []);
    dflt "permissions" plain_dict (PDict []);
    dflt "model_spend" plain_dict (PDict []);
    dflt "model_max_budget" plain_dict (PDict []);
    dflt "soft_budget_cooldown" TBool (PBool false);
    opt "litellm_budget_table" plain_dict;
    opt "org_id" TStr;
    opt "user_id_rate_limits" plain_dict;
    opt "team_id_rate_limits" plain_dict ].

Definition cls : model := Model fields [] ExtraIgnore.

End LiteLLM_VerificationToken.

Module LiteLLM_VerificationTokenView.

Definition fields : list field :=
  inherit LiteLLM_VerificationToken.fields
    [ opt "team_spend" TFloat;
      opt "team_alias" TStr;
      opt "team_tpm_limit" TInt;
      opt "team_rpm_limit" TInt;
      opt "team_max_budget" TFloat;
      dflt "team_models" plain_list (PList []);
      dflt "team_blocked" TBool (PBool false);
      opt "soft_budget" TFloat;
      opt "team_model_aliases" plain_dict ].

Definition cls : model := Model fields [] ExtraIgnore.

End LiteLLM_VerificationTokenView.

Module UserAPIKeyAuth.

Definition fields : list field :=
  inherit LiteLLM_VerificationTokenView.fields
    [ opt "api_key" TStr;
      opt "user_role" (TLiteral ["proxy_admin"; "app_owner"; "app_user"]);
      opt "allowed_model_region" (TLiteral ["eu"]) ].

(** [hash_token] is applied to whatever [api_key] holds: a value that is
    not a [str] has no [encode] method. *)
Definition check_api_key : root_validator := fun values =>
  match py_get values "api_key" with
  | PNone => Ok values
  | PStr api_key =>
      do hashed <- hash_token api_key;
      let values := py_set values "token" (PStr hashed) in
      if startswith (lit "sk-") api_key
      then do hashed' <- hash_token api_key;
           Ok (py_set values "api_key" (PStr hashed'))
      else Ok values
  | _ => Err AttributeError
  end.

Definition cls : model := Model fields [check_api_key] ExtraIgnore.

End UserAPIKeyAuth.

Module LiteLLM_UserTable.

Definition fields : list field :=
  [ req "user_id" TStr;
    req "max_budget" (TOptional TFloat);
    dflt "spend" TFloat (PFloat 0);
    optd "model_max_budget" plain_dict (PDict []);
    optd "model_spend" plain_dict (PDict []);
    req "user_email" (TOptional TStr);
    dflt "models" plain_list (PList []);
    opt "tpm_limit" TInt;
    opt "rpm_limit" TInt ].

Definition set_model_info : root_validator := fun values =>
  let values :=
    if is_none (py_get values "spend")
    then py_set values "spend" (PFloat 0) else values in
  let values :=
    if is_none (py_get values "models")
    then py_set values "models" (PList []) else values in
  Ok values.

Definition cls : model := Model fields [set_model_info] ExtraIgnore.

End LiteLLM_UserTable.

Module LiteLLM_EndUserTable.

Definition fields : list field :=
  [ req "user_id" TStr;
    req "blocked" TBool;
    opt "alias" TStr;
    dflt "spend" TFloat (PFloat 0);
    opt "allowed_model_region" (TLiteral ["eu"]);
    opt "default_model" TStr;
    opt "litellm_budget_table" (TModel "LiteLLM_BudgetTable") ].

Definition set_model_info : root_validator := fun values =>
  if is_none (py_get values "spend")
  then Ok (py_set values "spend" (PFloat 0))
  else Ok values.

Definition cls : model := Model fields [set_model_info] ExtraIgnore.

End LiteLLM_EndUserTable.


(** ** Route groups ([LiteLLMRoutes]) *)

Module LiteLLMRoutes.

Definition openai_routes : list string :=
  [ "/openai/deployments/{model}/chat/completions";
    "/chat/completions";
    "/v1/chat/completions";
    "/openai/deployments/{model}/completions";
    "/completions";
    "/v1/completions";
    "/openai/deployments/{model}/embeddings";
    "/embeddings";
    "/v1/embeddings";
    "/images/generations";
    "/v1/images/generations";
    "/audio/transcriptions";
    "/v1/audio/transcriptions";
    "/moderations";
    "/v1/moderations";
    "/models";
    "/v1/models" ].

Definition info_routes : list string :=
  [ "/key/info"; "/team/info"; "/team/list"; "/user/info"; "/model/info";
    "/v2/model/info"; "/v2/key/info" ].

Definition master_key_only_routes : list string :=
  [ "/global/spend/reset" ].

Definition sso_only_routes : list string :=
  [ "/key/generate"; "/key/update"; "/key/delete"; "/global/spend/logs";
    "/global/predict/spend/logs" ].

Definition management_routes : list string :=
  [ "/key/generate"; "/key/update"; "/key/delete"; "/key/info";
    "/user/new"; "/user/update"; "/user/delete"; "/user/info";
    "/team/new"; "/team/update"; "/team/delete"; "/team/list"; "/team/info";
    "/team/block"; "/team/unblock";
    "/model/new"; "/model/update"; "/model/delete"; "/model/info" ].

Definition spend_tracking_routes : list string :=
  [ "/spend/keys"; "/spend/users"; "/spend/tags"; "/spend/calculate";
    "/spend/logs" ].

Definition global_spend_tracking_routes : list string :=
  [ "/global/spend/logs"; "/global/spend"; "/global/spend/keys";
    "/global/spend/teams"; "/global/spend/end_users"; "/global/spend/models";
    "/global/predict/spend/logs" ].

Definition public_routes : list string :=
  [ "/routes"; "/"; "/health/liveliness"; "/health/readiness"; "/test";
    "/config/yaml"; "/metrics" ].

(** The member of the enumeration a name of an allow-list stands for. *)
Definition by_name (name : pystr) : list string :=
  if pystr_eqb name (lit "openai_routes") then openai_routes
  else if pystr_eqb name (lit "info_routes") then info_routes
  else if pystr_eqb name (lit "management_routes") then management_routes
  else if pystr_eqb name (lit "spend_tracking_routes") then spend_tracking_routes
  else if pystr_eqb name (lit "global_spend_tracking_routes")
       then global_spend_tracking_routes
  else if pystr_eqb name (lit "master_key_only_routes") then master_key_only_routes
  else if pystr_eqb name (lit "sso_only_routes") then sso_only_routes
  else if pystr_eqb name (lit "public_routes") then public_routes
  else [].

End LiteLLMRoutes.

(** ** Route admission *)

Module RoutePermission.

(** Modelled from the spec: the segments of a path, the text between its
    slashes (section 4.4 matches templates segment by segment). *)
Fixpoint segments_from (cur : string) (s : string) : list string :=
  match s with
  | EmptyString => [cur]
  | String c s' =>
      if Ascii.eqb c "/"%char
      then cur :: segments_from EmptyString s'
      else segments_from (cur +:+ String c EmptyString) s'
  end.

(** Modelled from the spec: a path as its list of segments. *)
Definition segments (path : string) : list string :=
  segments_from EmptyString path.

(** Modelled from the spec: the last character of a segment, to recognise
    a placeholder. *)
Definition last_char (s : string) : option ascii :=
  match rev (list_ascii_of_string s) with
  | c :: _ => Some c
  | [] => None
  end.

(** Modelled from the spec: a template segment written in braces, such as
    the one for a model. *)
Definition is_placeholder (seg : string) : bool :=
  match seg with
  | String c _ =>
      Ascii.eqb c "{"%char
      && match last_char seg with
         | Some d => Ascii.eqb d "}"%char
         | None => false
         end
  | EmptyString => false
  end.

(** Modelled from the spec: a placeholder matches any single segment, any
    other template segment only itself. *)
Fixpoint segments_match (template path : list string) : bool :=
  match template, path with
  | [], [] => true
  | t :: ts, p :: ps =>
      (is_placeholder t || String.eqb t p) && segments_match ts ps
  | _, _ => false
  end.

(** Modelled from the spec: the module declares the route groups and the
    allow-lists, and leaves the check that uses them to [auth_checks.py],
    which is not part of the sources.  Section 4.4 of the specification: a
    path matches a group if it equals one of the group's templates, a
    placeholder standing for any single segment. *)
Definition in_group (group : list string) (path : string) : bool :=
  existsb (fun template => segments_match (segments template) (segments path))
          group.

(** Modelled from the spec: what section 4.4 reads off a verified
    credential. *)
Record principal : Type := Principal {
  is_master_key : bool;
  from_sso : bool;
  admin_scope : bool;
  team_id : option pystr;
  org_id : option pystr;
  user_id : option pystr;
  end_user_id : option pystr
}.

(** Modelled from the spec: the three roles of section 4.4. *)
Inductive role : Type := proxy_admin | team_scoped | authenticated.

(** Modelled from the spec: why a request is denied.  The specification
    names [route_not_permitted]; the other two reasons stand for its
    master-key and SSO requirements. *)
Inductive deny_reason : Type :=
| master_key_required
| sso_login_required
| route_not_permitted.

(** Modelled from the spec: the outcome of [authorize_route]. *)
Inductive decision : Type :=
| Allowed
| Denied (reason : deny_reason).

(** Modelled from the spec: [proxy_admin] if the admin scope is present,
    else team-scoped if a team-id claim is present, else a plain
    authenticated caller. *)
Definition resolve_role (p : principal) : role :=
  if admin_scope p then proxy_admin
  else match team_id p with
       | Some _ => team_scoped
       | None => authenticated
       end.

(** The names an allow-list field of a [LiteLLM_JWTAuth] record holds. *)
Definition allow_list (profile : gmap string pyval) (field : string)
  : list pystr :=
  match profile !! field with
  | Some (PList names) =>
      flat_map (fun v => match v with PStr n => [n] | _ => [] end) names
  | _ => []
  end.

(** Modelled from the spec: the route groups allowed for a role.  The
    specification names no list for a plain authenticated caller; it is the
    parameter [default_routes]. *)
Definition allowed_groups (profile : gmap string pyval)
  (default_routes : list pystr) (r : role) : list pystr :=
  match r with
  | proxy_admin => allow_list profile "admin_allowed_routes"
  | team_scoped => allow_list profile "team_allowed_routes"
  | authenticated => default_routes
  end.

(** Modelled from the spec: [authorize_route] of section 4.4.  Public
    routes are always allowed; master-key-only routes need the master key
    itself; SSO-only routes need a credential of the SSO login flow, which
    is checked before the role's groups; any other path must fall in a
    group allowed for the caller's role. *)
Definition authorize_route (profile : gmap string pyval)
  (default_routes : list pystr) (p : principal) (requested_path : string)
  : decision :=
  if in_group LiteLLMRoutes.public_routes requested_path then Allowed
  else if in_group LiteLLMRoutes.master_key_only_routes requested_path then
    if is_master_key p then Allowed else Denied master_key_required
  else if in_group LiteLLMRoutes.sso_only_routes requested_path
          && negb (from_sso p)
  then Denied sso_login_required
  else if existsb (fun g => in_group (LiteLLMRoutes.by_name g) requested_path)
            (allowed_groups profile default_routes (resolve_role p))
  then Allowed
  else Denied route_not_permitted.

End RoutePermission.

(** ** Rate-limit scoping *)

Module RateLimits.

(** Modelled from the spec: the three limits a scope (key, user or team)
    may set. *)
Record scope_limits : Type := ScopeLimits {
  rpm_limit : option Z;
  tpm_limit : option Z;
  max_parallel_requests : option Z
}.

(** Modelled from the spec: [EffectiveLimits] of section 4.3; [None]
    stands for no limit. *)
Record EffectiveLimits : Type := Limits {
  rpm : option Z;
  tpm : option Z;
  max_parallel : option Z
}.

Definition int_field (r : gmap string pyval) (k : string) : option Z :=
  match r !! k with
  | Some (PInt z) => Some z
  | _ => None
  end.

(** The limits a key, user or team record carries under the field names
    the module gives them; [LiteLLM_UserTable] has no
    [max_parallel_requests]. *)
Definition limits_of (r : gmap string pyval) : scope_limits :=
  ScopeLimits (int_field r "rpm_limit") (int_field r "tpm_limit")
              (int_field r "max_parallel_requests").

(** The team's limits as [LiteLLM_VerificationTokenView] joins them to a
    key. *)
Definition team_limits_of_view (r : gmap string pyval) : scope_limits :=
  ScopeLimits (int_field r "team_rpm_limit") (int_field r "team_tpm_limit") None.

(** Modelled from the spec: the most specific value that is set. *)
Fixpoint first_set (candidates : list (option Z)) : option Z :=
  match candidates with
  | [] => None
  | Some v :: _ => Some v
  | None :: rest => first_set rest
  end.

(** Modelled from the spec: [resolve_limits] of section 4.3; the module
    declares the limit fields, the function that combines them is not in
    the sources.  Each limit is resolved on its own: the key's value if
    set, else the user's, else the team's, else no limit. *)
Definition resolve_limits (key user team : scope_limits) : EffectiveLimits :=
  Limits (first_set [rpm_limit key; rpm_limit user; rpm_limit team])
         (first_set [tpm_limit key; tpm_limit user; tpm_limit team])
         (first_set [max_parallel_requests key; max_parallel_requests user;
                     max_parallel_requests team]).

End RateLimits.


(** ** Reading a constructor's result *)

(** The field [k] of the record a constructor returned, if it returned
    one. *)
Definition field_of (x : result construct_error (gmap string pyval))
  (k : string) : option pyval :=
  match x with
  | Ok r => r !! k
  | Err _ => None
  end.

Definition record_of (x : result construct_error (gmap string pyval))
  : gmap string pyval :=
  match x with
  | Ok r => r
  | Err _ => ∅
  end.

(** JSON text written with single quotes standing for the double quotes. *)
Definition json_text (s : string) : pystr :=
  map (fun c => if N.eqb c 39 then 34%N else c) (lit s).

(** The records section 4.1 of the specification normalizes from stored
    text, with the fields each one's [set_model_info] decodes. *)
Inductive text_record : Type := KeyRecord | TeamRecord.

Definition text_record_model (rk : text_record) : model :=
  match rk with
  | KeyRecord => GenerateKeyResponse.cls
  | TeamRecord => LiteLLM_TeamTable.cls
  end.

Definition text_fields (rk : text_record) : list string :=
  match rk with
  | KeyRecord => GenerateKeyResponse.dict_fields
  | TeamRecord => LiteLLM_TeamTable.dict_fields
  end.

Definition malformed_field (f : string) : construct_error :=
  ValidationError (RuleViolated
    (ValueError ("Field " +:+ f +:+ " should be a valid dictionary"))).

(** The three models that demand a user id or a user email. *)
Definition user_identified_models : list model :=
  [Member.cls; UpdateUserRequest.cls; TeamMemberDeleteRequest.cls].

(** The four identity records. *)
Inductive identity_record : Type := Key | User | EndUser | Team.

Definition record_model (i : identity_record) : model :=
  match i with
  | Key => LiteLLM_VerificationToken.cls
  | User => LiteLLM_UserTable.cls
  | EndUser => LiteLLM_EndUserTable.cls
  | Team => LiteLLM_TeamTable.cls
  end.

(** What each record holds for [spend] and for each of its list and
    mapping fields when the field is not supplied. *)
Definition value_when_omitted (i : identity_record) : list (string * pyval) :=
  match i with
  | Key =>
      [ ("spend", PFloat 0); ("models", PList []); ("aliases", PDict []);
        ("config", PDict []); ("metadata", PDict []);
        ("allowed_cache_controls", PList []); ("permissions", PDict []);
        ("model_spend", PDict []); ("model_max_budget", PDict []);
        ("litellm_budget_table", PNone); ("user_id_rate_limits", PNone);
        ("team_id_rate_limits", PNone) ]
  | User =>
      [ ("spend", PFloat 0); ("model_max_budget", PDict []);
        ("model_spend", PDict []); ("models", PList []) ]
  | EndUser => [ ("spend", PFloat 0) ]
  | Team =>
      [ ("spend", PNone); ("metadata", PNone); ("admins", PList []);
        ("members", PList []); ("members_with_roles", PList []);
        ("models", PList []) ]
  end.

(** What the validator of a key or team record runs on: the keyword
    arguments, with [key] set from [token] for a key record. *)
Definition decoder_input (rk : text_record) (kwargs : gmap string pyval)
  : gmap string pyval :=
  match rk with
  | KeyRecord =>
      if negb (is_none (py_get kwargs "token"))
      then py_set kwargs "key" (py_get kwargs "token") else kwargs
  | TeamRecord => kwargs
  end.

(** A metadata mapping with nested values of every JSON kind. *)
Definition sample_metadata : list (pystr * pyval) :=
  [ (lit "team", PStr (lit "core"));
    (lit "note", PStr [99; 34; 92; 10; 233; 8364; 128512]%N);
    (lit "tags", PList [PStr (lit "a/b"); PInt (-3); PList []]);
    (lit "ratio", PFloat 0.5%float);
    (lit "tenth", PFloat 0x1.999999999999ap-4%float);
    (lit "limits", PDict [(lit "on", PBool true); (lit "cap", PNone)]) ].

(** ** Truth values *)

(** [bool(v)], which [not v] negates: [None], [False], zero, and the empty
    string, list and mapping are false; a NaN is true. *)
Definition truthy (v : pyval) : bool :=
  match v with
  | PNone => false
  | PBool b => b
  | PInt z => negb (Z.eqb z 0)
  | PFloat f => negb (PrimFloat.eqb f PrimFloat.zero)
  | PStr s => match s with [] => false | _ :: _ => true end
  | PList l => match l with [] => false | _ :: _ => true end
  | PDict d => match d with [] => false | _ :: _ => true end
  end.

(** [k not in values or not values[k]] *)
Definition missing_or_empty (values : gmap string pyval) (k : string) : bool :=
  match values !! k with
  | None => true
  | Some v => negb (truthy v)
  end.

(** [if values.get(k) is None: values.update({k: d})] *)
Definition fill_missing (values : gmap string pyval) (k : string) (d : pyval)
  : gmap string pyval :=
  if is_none (py_get values k) then py_set values k d else values.

Module LiteLLMPromptInjectionParams.

Definition fields : list field :=
  [ dflt "heuristics_check" TBool (PBool false);
    dflt "vector_db_check" TBool (PBool false);
    dflt "llm_api_check" TBool (PBool false);
    opt "llm_api_name" TStr;
    opt "llm_api_system_prompt" TStr;
    opt "llm_api_fail_call_string" TStr ].

(** The rule only looks further when [llm_api_check] is the object [True]
    itself. *)
Definition check_llm_api_params : root_validator := fun values =>
  match py_get values "llm_api_check" with
  | PBool true =>
      if missing_or_empty values "llm_api_name" then
        Err (ValueError
          "If llm_api_check is set to True, llm_api_name must be provided")
      else if missing_or_empty values "llm_api_system_prompt" then
        Err (ValueError
          "If llm_api_check is set to True, llm_api_system_prompt must be provided")
      else if missing_or_empty values "llm_api_fail_call_string" then
        Err (ValueError
          "If llm_api_check is set to True, llm_api_fail_call_string must be provided")
      else Ok values
  | _ => Ok values
  end.

Definition cls : model := Model fields [check_llm_api_params] ExtraIgnore.

End LiteLLMPromptInjectionParams.

Module ModelInfo.

Definition fields : list field :=
  [ req "id" (TOptional TStr);
    req "mode" (TOptional (TLiteral ["embedding"; "chat"; "completion"]));
    optd "input_cost_per_token" TFloat (PFloat 0);
    optd "output_cost_per_token" TFloat (PFloat 0);
    optd "max_tokens" TInt (PInt 2048);
    req "base_model"
      (TOptional (TLiteral ["gpt-4-1106-preview"; "gpt-4-32k"; "gpt-4";
                            "gpt-3.5-turbo-16k"; "gpt-3.5-turbo";
                            "text-embedding-ada-002"])) ].

(** [set_model_info]; [fresh_id] is the text [str(uuid.uuid4())] gives when
    the validator asks for one. *)
Definition set_model_info (fresh_id : pystr) : root_validator := fun values =>
  let values := fill_missing values "id" (PStr fresh_id) in
  let values := fill_missing values "mode" PNone in
  let values := fill_missing values "input_cost_per_token" PNone in
  let values := fill_missing values "output_cost_per_token" PNone in
  let values := fill_missing values "max_tokens" PNone in
  let values := fill_missing values "base_model" PNone in
  Ok values.

Definition cls (fresh_id : pystr) : model :=
  Model fields [set_model_info fresh_id] ExtraAllow.

End ModelInfo.

Module UpdateKeyRequest.

Definition fields : list field :=
  inherit GenerateKeyRequest.fields
    [ req "key" TStr;
      opt "duration" TStr;
      opt "spend" TFloat;
      opt "metadata" plain_dict ].

Definition cls : model := Model fields [] ExtraIgnore.

End UpdateKeyRequest.

Module NewUserRequest.

Definition fields : list field :=
  inherit GenerateKeyRequest.fields
    [ opt "max_budget" TFloat;
      opt "user_email" TStr;
      opt "user_role" TStr;
      opt "teams" plain_list;
      opt "organization_id" TStr;
      dflt "auto_create_key" TBool (PBool true) ].

Definition cls : model := Model fields [] ExtraIgnore.

End NewUserRequest.

(** [NewUserResponse] inherits the validator of [GenerateKeyResponse]. *)
Module NewUserResponse.

Definition fields : list field :=
  inherit GenerateKeyResponse.fields [ opt "max_budget" TFloat ].

Definition cls : model :=
  Model fields [GenerateKeyResponse.set_model_info] ExtraIgnore.

End NewUserResponse.
(** ** Shapes of text *)

(** One of the characters [0-9a-f]. *)
Definition is_lower_hex (c : N) : bool :=
  ((48 <=? c) && (c <=? 57) || (97 <=? c) && (c <=? 102))%N.

(** A surrogate code point, which UTF-8 does not encode. *)
Definition is_surrogate (c : N) : bool := ((55296 <=? c) && (c <=? 57343))%N.
(** ** Reading a failure *)

(** What a constructor returns when a validator raised [ValueError(msg)]. *)
Definition rule_error (msg : string)
  : result construct_error (gmap string pyval) :=
  Err (ValidationError (RuleViolated (ValueError msg))).
(** ** The records decoded from stored text *)

(** The two classes that run [GenerateKeyResponse.set_model_info]. *)
Definition key_response_models : list model :=
  [GenerateKeyResponse.cls; NewUserResponse.cls].

(** The field [f] of [kwargs] is a string that [json.loads] refuses. *)
Definition undecodable (kwargs : gmap string pyval) (f : string) : Prop :=
  exists s, kwargs !! f = Some (PStr s) /\ Json.json_loads s = None.
(** ** The update requests *)

Inductive update_request : Type := UpdateKey | UpdateUser.

Definition update_model (u : update_request) : model :=
  match u with
  | UpdateKey => UpdateKeyRequest.cls
  | UpdateUser => UpdateUserRequest.cls
  end.

(** What an update request holds for each field that can be left out. *)
Definition update_when_omitted (u : update_request) : list (string * pyval) :=
  match u with
  | UpdateKey =>
      [ ("models", PList []); ("allowed_cache_controls", PList []);
        ("aliases", PDict []); ("config", PDict []); ("permissions", PDict []);
        ("model_max_budget", PDict []);
        ("spend", PNone); ("metadata", PNone); ("max_budget", PNone);
        ("user_id", PNone); ("team_id", PNone);
        ("max_parallel_requests", PNone); ("tpm_limit", PNone);
        ("rpm_limit", PNone); ("budget_duration", PNone);
        ("soft_budget", PNone); ("key_alias", PNone); ("duration", PNone) ]
  | UpdateUser =>
      [ ("models", PList []); ("allowed_cache_controls", PList []);
        ("spend", PNone); ("metadata", PNone); ("max_budget", PNone);
        ("user_id", PNone); ("user_email", PNone); ("user_role", PNone);
        ("team_id", PNone); ("max_parallel_requests", PNone);
        ("tpm_limit", PNone); ("rpm_limit", PNone);
        ("budget_duration", PNone); ("soft_budget", PNone) ]
  end.
(** ** The JWT-auth profile *)

(** The names each allow-list of [LiteLLM_JWTAuth] is annotated with. *)
Definition jwt_route_choices : list (string * list string) :=
  [ ("admin_allowed_routes",
     ["openai_routes"; "info_routes"; "management_routes";
      "spend_tracking_routes"; "global_spend_tracking_routes"]);
    ("team_allowed_routes",
     ["openai_routes"; "info_routes"; "management_routes"]) ].

(** What a profile holds for each field that is left out. *)
Definition jwt_when_omitted : list (string * pyval) :=
  [ ("admin_jwt_scope", PStr (lit "litellm_proxy_admin"));
    ("admin_allowed_routes",
     PList [PStr (lit "management_routes"); PStr (lit "spend_tracking_routes");
            PStr (lit "global_spend_tracking_routes"); PStr (lit "info_routes")]);
    ("team_id_jwt_field", PNone);
    ("team_allowed_routes",
     PList [PStr (lit "openai_routes"); PStr (lit "info_routes")]);
    ("team_id_default", PNone);
    ("org_id_jwt_field", PNone);
    ("user_id_jwt_field", PNone);
    ("user_id_upsert", PBool false);
    ("end_user_id_jwt_field", PNone);
    ("public_key_ttl", PInt 600) ].

(** * Properties *)

Lemma field_of_ok x (r : gmap string pyval) k v :
  x = Ok r -> r !! k = Some v -> field_of x k = Some v.
Proof. intros -> H. exact H. Qed.

Lemma is_ok_record_of (x : result construct_error (gmap string pyval)) :
  is_ok x = true -> x = Ok (record_of x).
Proof. destruct x; [reflexivity|discriminate]. Qed.

(** ** The constructor *)

Lemma run_validators_single v values :
  run_validators [v] values =
  match v values with Ok values' => Ok values' | Err e => Err (wrap_exception e) end.
Proof. simpl. destruct (v values); reflexivity. Qed.

Lemma collect_fields_ok values fds :
  (forall fd, In fd fds -> exists v, field_value values fd = Ok v) ->
  exists fs, collect_fields values fds = Ok fs.
Proof.
  induction fds as [|fd fds IH]; intros H; simpl.
  - eexists; reflexivity.
  - destruct (H fd (or_introl eq_refl)) as [v Hv]. rewrite Hv. simpl.
    destruct IH as [fs Hfs].
    + intros fd' Hin. apply H. right. exact Hin.
    + rewrite Hfs. simpl. eexists; reflexivity.
Qed.

Lemma collect_fields_lookup values fds fs :
  collect_fields values fds = Ok fs ->
  NoDup (map f_name fds) ->
  forall fd, In fd fds ->
  exists v, field_value values fd = Ok v /\
            (list_to_map fs : gmap string pyval) !! f_name fd = Some v.
Proof.
  revert fs. induction fds as [|fd0 fds IH]; intros fs Hc Hnd fd Hin.
  - destruct Hin.
  - simpl in Hc. destruct (field_value values fd0) as [v0|e] eqn:Hv0; [|discriminate].
    simpl in Hc.
    destruct (collect_fields values fds) as [rest|e] eqn:Hrest; [|discriminate].
    simpl in Hc. injection Hc as <-.
    apply NoDup_cons in Hnd as [Hnotin Hnd].
    destruct Hin as [->|Hin].
    + exists v0. split; [exact Hv0|]. simpl. apply lookup_insert_eq.
    + destruct (IH rest eq_refl Hnd fd Hin) as [v [Hv Hl]].
      exists v. split; [exact Hv|]. simpl.
      rewrite lookup_insert_ne; [exact Hl|].
      intros Heq. apply Hnotin. rewrite Heq.
      apply list_elem_of_In, in_map, Hin.
Qed.

Lemma collect_fields_names values fds fs :
  collect_fields values fds = Ok fs -> map fst fs = map f_name fds.
Proof.
  revert fs. induction fds as [|fd0 fds IH]; intros fs Hc; simpl in Hc.
  - injection Hc as <-. reflexivity.
  - destruct (field_value values fd0) as [v0|e]; [|discriminate]. simpl in Hc.
    destruct (collect_fields values fds) as [rest|e]; [|discriminate].
    simpl in Hc. injection Hc as <-. simpl. f_equal. apply IH. reflexivity.
Qed.

Lemma field_value_conforming m values fd :
  conforming m values = true ->
  In fd (m_fields m) ->
  (f_default fd = None -> is_Some (values !! f_name fd)) ->
  exists v, field_value values fd = Ok v.
Proof.
  intros Hc Hin Hreq. unfold conforming in Hc.
  rewrite forallb_forall in Hc. specialize (Hc fd Hin).
  unfold field_value. destruct (values !! f_name fd) as [v|] eqn:Hl.
  - destruct (validate_ty (f_type fd) v) as [v'|]; [eauto|discriminate].
  - destruct (f_default fd) as [d|]; [eauto|].
    destruct (Hreq eq_refl) as [x Hx]. discriminate.
Qed.

(** A constructor succeeds once its validators pass, the required fields
    are there and the supplied values conform. *)
Lemma construct_succeeds m kwargs values :
  run_validators (m_validators m) kwargs = Ok values ->
  conforming m values = true ->
  (forall fd, In fd (m_fields m) -> f_default fd = None ->
              is_Some (values !! f_name fd)) ->
  exists r, construct m kwargs = Ok r.
Proof.
  intros Hv Hc Hreq. unfold construct. rewrite Hv. simpl.
  destruct (collect_fields_ok values (m_fields m)) as [fs Hfs].
  - intros fd Hin. apply (field_value_conforming m); auto.
  - rewrite Hfs. simpl. destruct (m_extra m); eexists; reflexivity.
Qed.

(** What a constructed record holds under a declared field's name. *)
Lemma construct_field m kwargs values r fd :
  run_validators (m_validators m) kwargs = Ok values ->
  construct m kwargs = Ok r ->
  NoDup (field_names m) ->
  In fd (m_fields m) ->
  exists v, field_value values fd = Ok v /\ r !! f_name fd = Some v.
Proof.
  intros Hv Hc Hnd Hin. unfold construct in Hc. rewrite Hv in Hc. simpl in Hc.
  destruct (collect_fields values (m_fields m)) as [fs|e] eqn:Hfs; [|discriminate].
  simpl in Hc.
  destruct (collect_fields_lookup _ _ _ Hfs Hnd fd Hin) as [v [Hfv Hl]].
  exists v. split; [exact Hfv|].
  destruct (m_extra m); injection Hc as <-.
  - exact Hl.
  - apply lookup_union_Some_l. exact Hl.
Qed.

Lemma py_get_is_none_absent (values : gmap string pyval) (k : string) :
  values !! k = None -> py_get values k = PNone.
Proof. intros H. unfold py_get. rewrite H. reflexivity. Qed.

Ltac solve_nodup :=
  apply (bool_decide_unpack _); vm_compute; reflexivity.

(** A value that passed an [Optional[float]] or [Optional[str]] annotation
    is [None] exactly when the supplied one was. *)
Lemma validate_optional_none t v v' :
  t = TFloat \/ t = TStr ->
  validate_ty (TOptional t) v = Some v' -> is_none v' = is_none v.
Proof.
  intros [-> | ->] H; destruct v; simpl in H; try discriminate;
    try (injection H as <-; reflexivity).
  destruct (PrimFloat.is_infinity (float_of_Z z)); [discriminate|].
  injection H as <-. reflexivity.
Qed.

Lemma field_value_optional_none values n t v' :
  t = TFloat \/ t = TStr ->
  field_value values (opt n t) = Ok v' ->
  is_none v' = is_none (py_get values n).
Proof.
  intros Ht H. unfold field_value, py_get, opt in *.
  cbn [f_name f_type f_default] in H.
  destruct (values !! n) as [v|]; cbn [default].
  - destruct (validate_ty (TOptional t) v) as [w|] eqn:Hw; [|discriminate].
    injection H as <-. apply (validate_optional_none t); assumption.
  - injection H as <-. reflexivity.
Qed.

Section NewEndUserRequest_facts.
Import NewEndUserRequest.

Lemma NewEndUserRequest_validators kwargs :
  run_validators (m_validators cls) kwargs =
  if negb (is_none (py_get kwargs "max_budget"))
     && negb (is_none (py_get kwargs "budget_id"))
  then Err (ValidationError (RuleViolated
         (ValueError "Set either 'max_budget' or 'budget_id', not both.")))
  else Ok kwargs.
Proof.
  simpl. unfold check_user_info.
  destruct (negb (is_none (py_get kwargs "max_budget"))
            && negb (is_none (py_get kwargs "budget_id"))); reflexivity.
Qed.

Lemma NewEndUserRequest_required (kwargs : gmap string pyval) (u : pystr) :
  kwargs !! "user_id" = Some (PStr u) ->
  forall fd, In fd (m_fields cls) -> f_default fd = None ->
             is_Some (kwargs !! f_name fd).
Proof.
  intros Hu fd Hin Hd. simpl in Hin.
  repeat (destruct Hin as [<- | Hin]; [first [discriminate | simpl; eauto]|]).
  destruct Hin.
Qed.

(** Construction succeeds whenever the two budget fields are not both set,
    and the record keeps each of them set or unset as it was given. *)
Lemma NewEndUserRequest_accepts (kwargs : gmap string pyval) (u : pystr) :
  kwargs !! "user_id" = Some (PStr u) ->
  conforming cls kwargs = true ->
  negb (is_none (py_get kwargs "max_budget"))
  && negb (is_none (py_get kwargs "budget_id")) = false ->
  exists r, construct cls kwargs = Ok r /\
            r !! "user_id" = Some (PStr u) /\
            is_none (py_get r "max_budget") = is_none (py_get kwargs "max_budget") /\
            is_none (py_get r "budget_id") = is_none (py_get kwargs "budget_id").
Proof.
  intros Hu Hc Hx.
  pose proof (NewEndUserRequest_validators kwargs) as Hv. rewrite Hx in Hv.
  destruct (construct_succeeds cls kwargs kwargs Hv Hc
              (NewEndUserRequest_required kwargs u Hu)) as [r Hr].
  exists r. split; [exact Hr|].
  assert (Hnd : NoDup (field_names cls)) by solve_nodup.
  repeat split.
  - destruct (construct_field cls kwargs kwargs r (req "user_id" TStr) Hv Hr Hnd)
      as [v [Hfv Hl]]; [simpl; auto|].
    unfold field_value in Hfv. simpl in Hfv. rewrite Hu in Hfv. simpl in Hfv.
    injection Hfv as <-. exact Hl.
  - destruct (construct_field cls kwargs kwargs r (opt "max_budget" TFloat) Hv Hr Hnd)
      as [v [Hfv Hl]]; [simpl; auto|].
    simpl in Hl. unfold py_get at 1. rewrite Hl. simpl.
    apply (field_value_optional_none _ _ TFloat); auto.
  - destruct (construct_field cls kwargs kwargs r (opt "budget_id" TStr) Hv Hr Hnd)
      as [v [Hfv Hl]]; [simpl; auto 10|].
    simpl in Hl. unfold py_get at 1. rewrite Hl. simpl.
    apply (field_value_optional_none _ _ TStr); auto.
Qed.

End NewEndUserRequest_facts.

(** C1. Constructing a [NewEndUserRequest] that carries its [user_id]:
    with both [max_budget] and [budget_id] set the constructor fails with
    the ValidationError of [check_user_info]; with exactly one of them set,
    and every supplied value conforming to its annotation, it returns a
    record, which has that same one set. *)
Theorem NewEndUserRequest_budget_exclusive (kwargs : gmap string pyval) (u : pystr) :
  kwargs !! "user_id" = Some (PStr u) ->
  (is_none (py_get kwargs "max_budget") = false ->
   is_none (py_get kwargs "budget_id") = false ->
   construct NewEndUserRequest.cls kwargs =
   Err (ValidationError (RuleViolated
          (ValueError "Set either 'max_budget' or 'budget_id', not both."))))
  /\
  (conforming NewEndUserRequest.cls kwargs = true ->
   is_none (py_get kwargs "max_budget") = negb (is_none (py_get kwargs "budget_id")) ->
   exists r, construct NewEndUserRequest.cls kwargs = Ok r /\
             r !! "user_id" = Some (PStr u) /\
             is_none (py_get r "max_budget") = is_none (py_get kwargs "max_budget") /\
             is_none (py_get r "budget_id") = is_none (py_get kwargs "budget_id")).
Proof.
  intros Hu. split.
  - intros Hm Hb. unfold construct.
    rewrite NewEndUserRequest_validators, Hm, Hb. reflexivity.
  - intros Hc Hx. apply NewEndUserRequest_accepts; [exact Hu | exact Hc |].
    rewrite Hx. destruct (is_none (py_get kwargs "budget_id")); reflexivity.
Qed.

Lemma NewEndUserRequest_budget_exclusive_witness :
  construct NewEndUserRequest.cls
    (kw [("user_id", PStr (lit "u1")); ("max_budget", PFloat 10);
         ("budget_id", PStr (lit "b1"))]) =
  Err (ValidationError (RuleViolated
         (ValueError "Set either 'max_budget' or 'budget_id', not both.")))
  /\
  exists r, construct NewEndUserRequest.cls
              (kw [("user_id", PStr (lit "u1")); ("budget_id", PStr (lit "b1"))]) = Ok r /\
            r !! "user_id" = Some (PStr (lit "u1")) /\
            is_none (py_get r "max_budget") = true /\
            is_none (py_get r "budget_id") = false.
Proof.
  split.
  - apply (proj1 (NewEndUserRequest_budget_exclusive
                    (kw [("user_id", PStr (lit "u1")); ("max_budget", PFloat 10);
                         ("budget_id", PStr (lit "b1"))]) (lit "u1") eq_refl));
      reflexivity.
  - apply (proj2 (NewEndUserRequest_budget_exclusive
                    (kw [("user_id", PStr (lit "u1")); ("budget_id", PStr (lit "b1"))])
                    (lit "u1") eq_refl)); reflexivity.
Defined.

(** C10. A [NewEndUserRequest] with a [user_id] and neither [max_budget]
    nor [budget_id] set is accepted: the constructor returns a record in
    which both are [None]. *)
Theorem NewEndUserRequest_no_budget_accepted (kwargs : gmap string pyval) (u : pystr) :
  kwargs !! "user_id" = Some (PStr u) ->
  conforming NewEndUserRequest.cls kwargs = true ->
  py_get kwargs "max_budget" = PNone ->
  py_get kwargs "budget_id" = PNone ->
  exists r, construct NewEndUserRequest.cls kwargs = Ok r /\
            r !! "user_id" = Some (PStr u) /\
            r !! "max_budget" = Some PNone /\
            r !! "budget_id" = Some PNone.
Proof.
  intros Hu Hc Hm Hb.
  destruct (NewEndUserRequest_accepts kwargs u Hu Hc) as [r [Hr [Hru [Hrm Hrb]]]].
  - rewrite Hm. reflexivity.
  - exists r. split; [exact Hr|]. split; [exact Hru|].
    rewrite Hm in Hrm. rewrite Hb in Hrb.
    assert (Hnd : NoDup (field_names NewEndUserRequest.cls)) by solve_nodup.
    assert (Hv : run_validators (m_validators NewEndUserRequest.cls) kwargs = Ok kwargs)
      by (rewrite NewEndUserRequest_validators, Hm; reflexivity).
    split.
    + destruct (construct_field _ kwargs kwargs r (opt "max_budget" TFloat) Hv Hr Hnd)
        as [v [_ Hl]]; [simpl; auto|].
      simpl in Hl. unfold py_get in Hrm. rewrite Hl in Hrm. simpl in Hrm.
      rewrite Hl. destruct v; try discriminate. reflexivity.
    + destruct (construct_field _ kwargs kwargs r (opt "budget_id" TStr) Hv Hr Hnd)
        as [v [_ Hl]]; [simpl; auto 10|].
      simpl in Hl. unfold py_get in Hrb. rewrite Hl in Hrb. simpl in Hrb.
      rewrite Hl. destruct v; try discriminate. reflexivity.
Qed.

Lemma NewEndUserRequest_no_budget_accepted_witness :
  exists r, construct NewEndUserRequest.cls (kw [("user_id", PStr (lit "u1"))]) = Ok r /\
            r !! "user_id" = Some (PStr (lit "u1")) /\
            r !! "max_budget" = Some PNone /\
            r !! "budget_id" = Some PNone.
Proof.
  apply (NewEndUserRequest_no_budget_accepted
           (kw [("user_id", PStr (lit "u1"))]) (lit "u1")); reflexivity.
Defined.

(** ** Rules on the user's identity *)

Lemma collect_fields_no_rule values fds e :
  collect_fields values fds <> Err (ValidationError (RuleViolated e)).
Proof.
  induction fds as [|fd fds IH]; simpl; [discriminate|].
  unfold field_value.
  destruct (values !! f_name fd) as [v|].
  - destruct (validate_ty (f_type fd) v); simpl; [|discriminate].
    destruct (collect_fields values fds) as [fs|e'] eqn:Hc; simpl; [discriminate|].
    intros H. apply IH. injection H as ->. reflexivity.
  - destruct (f_default fd); simpl; [|discriminate].
    destruct (collect_fields values fds) as [fs|e'] eqn:Hc; simpl; [discriminate|].
    intros H. apply IH. injection H as ->. reflexivity.
Qed.

(** A constructor whose only validator is [v] reports a violated rule
    exactly when [v] raises it. *)
Lemma construct_rule_violated m v kwargs msg :
  m_validators m = [v] ->
  construct m kwargs = Err (ValidationError (RuleViolated (ValueError msg)))
  <-> v kwargs = Err (ValueError msg).
Proof.
  intros Hv. unfold construct. rewrite Hv, run_validators_single.
  destruct (v kwargs) as [values|e] eqn:Hvk; simpl.
  - split; [|discriminate].
    destruct (collect_fields values (m_fields m)) as [fs|e] eqn:Hc; simpl.
    + destruct (m_extra m); discriminate.
    + intros H. exfalso. injection H as ->.
      exact (collect_fields_no_rule _ _ _ Hc).
  - split.
    + destruct e; simpl; intros H; try discriminate. injection H as ->. reflexivity.
    + intros H. injection H as ->. reflexivity.
Qed.

Lemma user_id_or_email_raises values msg :
  user_id_or_email values = Err (ValueError msg) <->
  msg = "Either user id or user email must be provided" /\
  py_get values "user_id" = PNone /\ py_get values "user_email" = PNone.
Proof.
  unfold user_id_or_email.
  destruct (py_get values "user_id") eqn:Hi, (py_get values "user_email") eqn:He;
    simpl; split;
    try (intros H; discriminate H);
    try (intros (_ & H1 & H2); discriminate).
  - intros H. injection H as <-. auto.
  - intros (-> & _ & _). reflexivity.
Qed.

(** C6. For a [Member], an [UpdateUserRequest] and a
    [TeamMemberDeleteRequest] alike: construction fails with the
    ValidationError "Either user id or user email must be provided" if and
    only if neither [user_id] nor [user_email] is supplied ([None] counts as
    not supplied). *)
Theorem user_id_or_email_required (m : model) (kwargs : gmap string pyval) :
  In m user_identified_models ->
  construct m kwargs =
  Err (ValidationError (RuleViolated
         (ValueError "Either user id or user email must be provided")))
  <->
  py_get kwargs "user_id" = PNone /\ py_get kwargs "user_email" = PNone.
Proof.
  intros Hm.
  assert (Hv : m_validators m = [user_id_or_email]).
  { simpl in Hm. destruct Hm as [<-|[<-|[<-|[]]]]; reflexivity. }
  rewrite (construct_rule_violated m user_id_or_email kwargs _ Hv).
  rewrite user_id_or_email_raises. tauto.
Qed.

Lemma user_id_or_email_required_witness :
  construct Member.cls (kw [("role", PStr (lit "admin"))]) =
  Err (ValidationError (RuleViolated
         (ValueError "Either user id or user email must be provided")))
  /\ py_get (kw [("team_id", PStr (lit "t1")); ("user_id", PNone)]) "user_email" = PNone.
Proof.
  split.
  - apply (proj2 (user_id_or_email_required Member.cls
                    (kw [("role", PStr (lit "admin"))])
                    (or_introl eq_refl))).
    split; reflexivity.
  - apply (proj1 (user_id_or_email_required TeamMemberDeleteRequest.cls
                    (kw [("team_id", PStr (lit "t1")); ("user_id", PNone)])
                    (or_intror (or_intror (or_introl eq_refl))))).
    reflexivity.
Defined.

(** ** Undeclared keyword arguments *)

Lemma field_value_insert_other (values : gmap string pyval) k v fd :
  f_name fd <> k ->
  field_value (<[k := v]> values) fd = field_value values fd.
Proof.
  intros Hne. unfold field_value. rewrite lookup_insert_ne; [reflexivity|].
  intros Heq. apply Hne. symmetry. exact Heq.
Qed.

Lemma collect_fields_insert_other (values : gmap string pyval) k v fds :
  ~ In k (map f_name fds) ->
  collect_fields (<[k := v]> values) fds = collect_fields values fds.
Proof.
  induction fds as [|fd fds IH]; intros Hk; simpl; [reflexivity|].
  rewrite field_value_insert_other, IH; [reflexivity| |].
  - intros Hin. apply Hk. right. exact Hin.
  - intros Heq. apply Hk. left. exact Heq.
Qed.

Lemma is_field_false m k : is_field m k = false -> ~ In k (field_names m).
Proof.
  unfold is_field. intros H Hin.
  assert (existsb (String.eqb k) (field_names m) = true) as Ht.
  { apply existsb_exists. exists k. split; [exact Hin|]. apply String.eqb_refl. }
  congruence.
Qed.

Lemma extras_insert m (values : gmap string pyval) k v :
  is_field m k = false ->
  extras m (<[k := v]> values) = <[k := v]> (extras m values).
Proof.
  intros Hk. unfold extras.
  apply (map_filter_insert_True
           (fun kv : string * pyval => is_field m (fst kv) = false)).
  exact Hk.
Qed.

(** A model with [extra = "allow"] and no validator keeps an undeclared
    keyword argument as it is, next to the declared fields. *)
Lemma extra_allowed_passthrough m (kwargs : gmap string pyval) k v r :
  m_validators m = [] -> m_extra m = ExtraAllow ->
  is_field m k = false ->
  construct m kwargs = Ok r ->
  construct m (<[k := v]> kwargs) = Ok (<[k := v]> r).
Proof.
  intros Hv He Hk Hc. unfold construct in *. rewrite Hv in *. simpl in *.
  rewrite collect_fields_insert_other by (apply is_field_false, Hk).
  destruct (collect_fields kwargs (m_fields m)) as [fs|e] eqn:Hfs; [|discriminate].
  simpl in *. rewrite He in *. injection Hc as <-. f_equal.
  rewrite extras_insert by exact Hk.
  apply map_eq. intros i.
  destruct (decide (i = k)) as [->|Hne].
  - rewrite lookup_insert_eq. apply lookup_union_Some_raw. right. split.
    + apply not_elem_of_list_to_map. intros Hin.
      change (k ∈ map fst fs) in Hin.
      rewrite (collect_fields_names _ _ _ Hfs) in Hin.
      apply list_elem_of_In in Hin.
      exact (is_field_false m k Hk Hin).
    + apply lookup_insert_eq.
  - rewrite lookup_insert_ne by congruence.
    rewrite !lookup_union. rewrite lookup_insert_ne by congruence. reflexivity.
Qed.

Lemma LiteLLM_JWTAuth_unknown_key (kwargs : gmap string pyval) k :
  is_Some (kwargs !! k) -> ~ In k (map f_name LiteLLM_JWTAuth.fields) ->
  exists msg, LiteLLM_JWTAuth.init kwargs = Err (Raised (ValueError msg)).
Proof.
  intros Hk Hnot. unfold LiteLLM_JWTAuth.init.
  rewrite bool_decide_eq_false_2; [eexists; reflexivity|].
  intros Hempty.
  assert (k ∈ dom kwargs ∖ LiteLLM_JWTAuth.allowed_keys) as Hin.
  { apply elem_of_difference. split.
    - apply elem_of_dom. exact Hk.
    - unfold LiteLLM_JWTAuth.allowed_keys. rewrite elem_of_list_to_set.
      intros Hin. apply Hnot. apply list_elem_of_In. exact Hin. }
  rewrite Hempty in Hin. exact (not_elem_of_empty k Hin).
Qed.

(** C7. Given the same undeclared keyword argument [k], the JWT-auth
    profile refuses it whatever else is passed, while
    [ProxyChatCompletionRequest], whose [Config] allows extra fields,
    accepts it: if the request is accepted without [k] it is accepted with
    it, and the record carries [k] unchanged. *)
Theorem closed_jwt_schema_open_request_schema
  (kwargs : gmap string pyval) (k : string) (v : pyval) :
  kwargs !! k = Some v ->
  (~ In k (map f_name LiteLLM_JWTAuth.fields) ->
   exists msg, LiteLLM_JWTAuth.init kwargs = Err (Raised (ValueError msg)))
  /\
  (is_field ProxyChatCompletionRequest.cls k = false ->
   forall r, construct ProxyChatCompletionRequest.cls (delete k kwargs) = Ok r ->
             construct ProxyChatCompletionRequest.cls kwargs = Ok (<[k := v]> r)).
Proof.
  intros Hk. split.
  - intros Hnot. apply (LiteLLM_JWTAuth_unknown_key kwargs k); [eauto|exact Hnot].
  - intros Hf r Hr.
    rewrite <- (insert_delete_id kwargs k v Hk) at 1.
    apply extra_allowed_passthrough; auto.
Qed.

Lemma closed_jwt_schema_open_request_schema_witness :
  (exists msg,
     LiteLLM_JWTAuth.init
       (kw [("team_id_jwt_field", PStr (lit "client_id")); ("audience", PStr (lit "x"))])
     = Err (Raised (ValueError msg)))
  /\
  field_of (construct ProxyChatCompletionRequest.cls
              (kw [("model", PStr (lit "gpt-4")); ("messages", PList []);
                   ("top_k", PInt 5)])) "top_k" = Some (PInt 5).
Proof.
  split.
  - apply (proj1 (closed_jwt_schema_open_request_schema
                    (kw [("team_id_jwt_field", PStr (lit "client_id"));
                         ("audience", PStr (lit "x"))])
                    "audience" (PStr (lit "x")) eq_refl)).
    vm_compute. intuition discriminate.
  - eapply field_of_ok.
    + apply (proj2 (closed_jwt_schema_open_request_schema
                      (kw [("model", PStr (lit "gpt-4")); ("messages", PList []);
                           ("top_k", PInt 5)])
                      "top_k" (PInt 5) eq_refl)); [reflexivity|].
      apply is_ok_record_of. vm_compute. reflexivity.
    + apply lookup_insert_eq.
Defined.

(** ** Decoding of fields persisted as text *)

Lemma py_get_PStr (values : gmap string pyval) k s :
  py_get values k = PStr s <-> values !! k = Some (PStr s).
Proof.
  unfold py_get. destruct (values !! k) as [v|]; simpl; split; intros H;
    try discriminate; congruence.
Qed.

(** The loop only touches the listed fields that hold a string. *)
Lemma decode_dict_fields_frame fs (values values' : gmap string pyval) k :
  decode_dict_fields fs values = Ok values' ->
  ~ In k fs \/ (forall s, values !! k <> Some (PStr s)) ->
  values' !! k = values !! k.
Proof.
  revert values. induction fs as [|f fs IH]; intros values Hd Hk; simpl in Hd.
  - injection Hd as <-. reflexivity.
  - assert (Hstep : forall w, py_get values f = PStr w -> k <> f).
    { intros w Hw ->. apply py_get_PStr in Hw. destruct Hk as [Hk|Hk].
      - apply Hk. left. reflexivity.
      - exact (Hk w Hw). }
    assert (Hrest : ~ In k fs \/ (forall s, values !! k <> Some (PStr s))).
    { destruct Hk as [Hk|Hk]; [left|right; exact Hk].
      intros Hin. apply Hk. right. exact Hin. }
    destruct (py_get values f) as [| | | |w| |] eqn:Hf;
      try (apply IH; assumption).
    destruct (Json.json_loads w) as [decoded|]; [|discriminate].
    assert (k <> f) as Hne by (apply (Hstep w); reflexivity).
    rewrite (IH _ Hd).
    + unfold py_set. apply lookup_insert_ne. congruence.
    + destruct Hrest as [Hr|Hr]; [left; exact Hr|right].
      intros s. unfold py_set. rewrite lookup_insert_ne by congruence. apply Hr.
Qed.

(** ** Defaults of omitted fields *)

Lemma find_field_In k fds fd :
  find_field k fds = Some fd -> In fd fds /\ f_name fd = k.
Proof.
  unfold find_field. intros H. apply find_some in H as [Hin Heq].
  split; [exact Hin|]. apply String.eqb_eq in Heq. congruence.
Qed.

(** A declared field that the validated [values] do not hold gets its
    declared default. *)
Lemma construct_omitted m (kwargs values r : gmap string pyval) f fd d :
  run_validators (m_validators m) kwargs = Ok values ->
  construct m kwargs = Ok r ->
  NoDup (field_names m) ->
  find_field f (m_fields m) = Some fd ->
  f_default fd = Some d ->
  values !! f = None ->
  r !! f = Some d.
Proof.
  intros Hv Hr Hnd Hfd Hd Hl.
  apply find_field_In in Hfd as [Hin <-].
  destruct (construct_field m kwargs values r fd Hv Hr Hnd Hin) as [v [Hfv Hrl]].
  unfold field_value in Hfv. rewrite Hl, Hd in Hfv. injection Hfv as <-.
  exact Hrl.
Qed.

(** A declared field that the validated [values] hold gets the value as
    its annotation validates it. *)
Lemma construct_supplied m (kwargs values r : gmap string pyval) f fd v v' :
  run_validators (m_validators m) kwargs = Ok values ->
  construct m kwargs = Ok r ->
  NoDup (field_names m) ->
  find_field f (m_fields m) = Some fd ->
  values !! f = Some v ->
  validate_ty (f_type fd) v = Some v' ->
  r !! f = Some v'.
Proof.
  intros Hv Hr Hnd Hfd Hl Hval.
  apply find_field_In in Hfd as [Hin <-].
  destruct (construct_field m kwargs values r fd Hv Hr Hnd Hin) as [w [Hfv Hrl]].
  unfold field_value in Hfv. rewrite Hl, Hval in Hfv. injection Hfv as <-.
  exact Hrl.
Qed.

Lemma construct_validated m (kwargs r : gmap string pyval) :
  construct m kwargs = Ok r ->
  exists values, run_validators (m_validators m) kwargs = Ok values.
Proof.
  unfold construct. destruct (run_validators (m_validators m) kwargs) as [values|e].
  - eauto.
  - discriminate.
Qed.

Ltac omitted_by_default Hv Hr :=
  eapply construct_omitted;
  [ exact Hv | exact Hr | solve_nodup | reflexivity | reflexivity | ].

(** C9 as the code has it. For a key, a user and an end-user record an
    omitted [spend] is 0.0, and an omitted list or mapping field is the
    empty container, except the key's [litellm_budget_table],
    [user_id_rate_limits] and [team_id_rate_limits], which are [None]; a
    team record has empty lists for its omitted list fields and [None] for
    an omitted [spend] or [metadata]. *)
Theorem identity_record_defaults
  (i : identity_record) (kwargs r : gmap string pyval) (f : string) (d : pyval) :
  construct (record_model i) kwargs = Ok r ->
  In (f, d) (value_when_omitted i) ->
  kwargs !! f = None ->
  r !! f = Some d.
Proof.
  intros Hr Hin Hf.
  destruct (construct_validated _ _ _ Hr) as [values Hv].
  destruct i; simpl in Hin.
  - (* key: no validator *)
    assert (values = kwargs) as ->.
    { change (@Ok construct_error _ kwargs = Ok values) in Hv. congruence. }
    repeat (destruct Hin as [[= <- <-] | Hin];
            [omitted_by_default Hv Hr; exact Hf|]).
    destruct Hin.
  - (* user: the validator fills in spend and models *)
    assert (Hvalues :
              values = (let v1 := if is_none (py_get kwargs "spend")
                                  then py_set kwargs "spend" (PFloat 0) else kwargs in
                        if is_none (py_get v1 "models")
                        then py_set v1 "models" (PList []) else v1)).
    { pose proof Hv as Hv'.
      change (run_validators [LiteLLM_UserTable.set_model_info] kwargs = Ok values) in Hv'.
      rewrite run_validators_single in Hv'.
      unfold LiteLLM_UserTable.set_model_info in Hv'.
      cbv beta zeta match in Hv'. cbv zeta. congruence. }
    assert (Hlook : forall k,
              kwargs !! k = None ->
              values !! k = if String.eqb k "spend" then Some (PFloat 0)
                            else if String.eqb k "models" then Some (PList [])
                            else None).
    { intros k Hk. rewrite Hvalues. cbv zeta.
      assert (py_get kwargs k = PNone) as Hg by (unfold py_get; rewrite Hk; reflexivity).
      destruct (String.eqb_spec k "spend") as [->|Hks].
      - rewrite Hg. cbn [is_none].
        destruct (is_none (py_get (py_set kwargs "spend" (PFloat 0)) "models"));
          unfold py_set; rewrite ?lookup_insert_ne by discriminate;
          apply lookup_insert_eq.
      - destruct (String.eqb_spec k "models") as [->|Hkm].
        + assert (forall v1 : gmap string pyval,
                     v1 !! "models" = None ->
                     (if is_none (py_get v1 "models")
                      then py_set v1 "models" (PList []) else v1) !! "models"
                     = Some (PList [])) as Hm.
          { intros v1 H1. unfold py_get. rewrite H1. simpl. apply lookup_insert_eq. }
          apply Hm. destruct (is_none (py_get kwargs "spend")); [|exact Hk].
          unfold py_set. rewrite lookup_insert_ne by discriminate. exact Hk.
        + destruct (is_none (py_get kwargs "spend"));
            destruct (is_none (py_get _ "models"));
            unfold py_set; rewrite ?lookup_insert_ne by congruence; exact Hk. }
    destruct Hin as [[= <- <-] | Hin].
    { eapply construct_supplied with (v := PFloat 0);
        [exact Hv | exact Hr | solve_nodup | reflexivity | | reflexivity].
      rewrite (Hlook _ Hf). reflexivity. }
    destruct Hin as [[= <- <-] | Hin].
    { omitted_by_default Hv Hr. rewrite (Hlook _ Hf). reflexivity. }
    destruct Hin as [[= <- <-] | Hin].
    { omitted_by_default Hv Hr. rewrite (Hlook _ Hf). reflexivity. }
    destruct Hin as [[= <- <-] | []].
    eapply construct_supplied with (v := PList []);
      [exact Hv | exact Hr | solve_nodup | reflexivity | | reflexivity].
    rewrite (Hlook _ Hf). reflexivity.
  - (* end-user: the validator fills in spend *)
    destruct Hin as [[= <- <-] | []].
    eapply construct_supplied with (v := PFloat 0);
      [exact Hv | exact Hr | solve_nodup | reflexivity | | reflexivity].
    pose proof Hv as Hv'.
    change (run_validators [LiteLLM_EndUserTable.set_model_info] kwargs = Ok values) in Hv'.
    rewrite run_validators_single in Hv'.
    unfold LiteLLM_EndUserTable.set_model_info, py_get in Hv'.
    rewrite Hf in Hv'. simpl in Hv'. injection Hv' as <-. apply lookup_insert_eq.
  - (* team: the validator leaves what is not a string alone *)
    assert (Hd : decode_dict_fields LiteLLM_TeamTable.dict_fields kwargs = Ok values).
    { pose proof Hv as Hv'.
      change (run_validators [LiteLLM_TeamTable.set_model_info] kwargs = Ok values) in Hv'.
      rewrite run_validators_single in Hv'.
      unfold LiteLLM_TeamTable.set_model_info in Hv'.
      destruct (decode_dict_fields LiteLLM_TeamTable.dict_fields kwargs);
        [congruence|discriminate]. }
    assert (Hfv : values !! f = None).
    { rewrite (decode_dict_fields_frame _ _ _ f Hd); [exact Hf|].
      right. intros s. rewrite Hf. discriminate. }
    repeat (destruct Hin as [[= <- <-] | Hin];
            [omitted_by_default Hv Hr; exact Hfv|]).
    destruct Hin.
Qed.

Lemma identity_record_defaults_witness :
  field_of (construct LiteLLM_VerificationToken.cls ∅) "spend" = Some (PFloat 0)
  /\ field_of (construct LiteLLM_UserTable.cls
                 (kw [("user_id", PStr (lit "u1")); ("max_budget", PNone);
                      ("user_email", PNone)])) "model_spend" = Some (PDict [])
  /\ field_of (construct LiteLLM_EndUserTable.cls
                 (kw [("user_id", PStr (lit "e1")); ("blocked", PBool false)]))
       "spend" = Some (PFloat 0)
  /\ field_of (construct LiteLLM_TeamTable.cls ∅) "members" = Some (PList []).
Proof.
  split; [|split; [|split]].
  - eapply field_of_ok; [apply is_ok_record_of; vm_compute; reflexivity|].
    apply (identity_record_defaults Key ∅ _ "spend" (PFloat 0));
      [apply is_ok_record_of; vm_compute; reflexivity | simpl; auto | reflexivity].
  - eapply field_of_ok; [apply is_ok_record_of; vm_compute; reflexivity|].
    apply (identity_record_defaults User
             (kw [("user_id", PStr (lit "u1")); ("max_budget", PNone);
                  ("user_email", PNone)]) _ "model_spend" (PDict []));
      [apply is_ok_record_of; vm_compute; reflexivity | simpl; auto | reflexivity].
  - eapply field_of_ok; [apply is_ok_record_of; vm_compute; reflexivity|].
    apply (identity_record_defaults EndUser
             (kw [("user_id", PStr (lit "e1")); ("blocked", PBool false)]) _
             "spend" (PFloat 0));
      [apply is_ok_record_of; vm_compute; reflexivity | simpl; auto | reflexivity].
  - eapply field_of_ok; [apply is_ok_record_of; vm_compute; reflexivity|].
    apply (identity_record_defaults Team ∅ _ "members" (PList []));
      [apply is_ok_record_of; vm_compute; reflexivity | simpl; auto | reflexivity].
Defined.

(** C9 as stated fails on the team record, whose [spend] and [metadata]
    are [None] when omitted, and on the key record's
    [litellm_budget_table]. *)
Lemma team_spend_defaults_to_none :
  field_of (construct LiteLLM_TeamTable.cls ∅) "spend" = Some PNone
  /\ field_of (construct LiteLLM_TeamTable.cls ∅) "metadata" = Some PNone
  /\ field_of (construct LiteLLM_VerificationToken.cls ∅) "litellm_budget_table"
     = Some PNone.
Proof. split; [|split]; vm_compute; reflexivity. Qed.

(** ** Hashing of the API key *)

Example sha256_abc :
  hash_token (lit "abc") =
  Ok (lit "ba7816bf8f01cfea414140de5dae2223b00361a396177a9cb410ff61f20015ad").
Proof. vm_compute. reflexivity. Qed.

Example sha256_two_blocks :
  hash_token (lit "abcdbcdecdefdefgefghfghighijhijkijkljklmklmnlmnomnopnopq") =
  Ok (lit "248d6a61d20638b8e5c026930c3e6039a33ce45964ff2167f6ecedd419db06c1").
Proof. vm_compute. reflexivity. Qed.

(** A string of four characters that take one, two, three and four bytes. *)
Example sha256_non_ascii :
  hash_token [104; 233; 8364; 128512]%N =
  Ok (lit "39d15ee696a6f5bd03a5220ddcac864c6f6c2833b3ae973bfa10e202056fd284").
Proof. vm_compute. reflexivity. Qed.

Example sha256_constants :
  nth 0 Sha256.K 0%Z = 0x428a2f98%Z /\ nth 63 Sha256.K 0%Z = 0xc67178f2%Z /\
  nth 0 Sha256.H0 0%Z = 0x6a09e667%Z /\ nth 7 Sha256.H0 0%Z = 0x5be0cd19%Z.
Proof. vm_compute. auto. Qed.

Lemma round_length s kw : length (Sha256.round s kw) = length s.
Proof.
  unfold Sha256.round.
  destruct s as [|a [|b [|c [|d [|e [|f [|g [|h [|i s]]]]]]]]]; reflexivity.
Qed.

Lemma rounds_length l s : length (fold_left Sha256.round l s) = length s.
Proof.
  revert s. induction l as [|kw l IH]; intros s; simpl; [reflexivity|].
  rewrite IH. apply round_length.
Qed.

Lemma compress_length h block : length (Sha256.compress h block) = length h.
Proof.
  unfold Sha256.compress. rewrite length_map, length_combine, rounds_length.
  apply Nat.min_id.
Qed.

Lemma blocks_length n h bs : length (Sha256.blocks n h bs) = length h.
Proof.
  revert h bs. induction n as [|n IH]; intros h bs; simpl; [reflexivity|].
  rewrite IH. apply compress_length.
Qed.

Lemma hex_digit_of_nibble (b : Z) :
  (0 <= b < 256)%Z ->
  Json.hex_digit (Z.to_N (Z.shiftr b 4)) <> 115%N.
Proof.
  intros Hb. unfold Json.hex_digit.
  assert (0 <= Z.shiftr b 4 < 16)%Z as Hs.
  { rewrite Z.shiftr_div_pow2 by lia. change (2 ^ 4)%Z with 16%Z.
    split; [apply Z.div_pos; lia | apply Z.div_lt_upper_bound; lia]. }
  destruct (Z.to_N (Z.shiftr b 4) <? 10)%N eqn:Hlt.
  - apply N.ltb_lt in Hlt. lia.
  - apply N.ltb_ge in Hlt. lia.
Qed.

(** A digest starts with a hexadecimal digit, so never with an [s]. *)
Lemma hexdigest_head bytes :
  exists c rest, Sha256.hexdigest bytes = c :: rest /\ c <> 115%N.
Proof.
  unfold Sha256.hexdigest, Sha256.digest.
  set (p := Sha256.pad bytes).
  pose proof (blocks_length (length p / 64) Sha256.H0 p) as Hlen.
  destruct (Sha256.blocks (length p / 64) Sha256.H0 p) as [|x xs];
    [discriminate Hlen|].
  cbn [flat_map]. unfold Sha256.be_bytes at 1. cbn [seq rev app map flat_map].
  unfold Sha256.hex_byte at 1. cbn [app].
  eexists; eexists. split; [reflexivity|].
  apply hex_digit_of_nibble.
  change 255%Z with (Z.ones 8). rewrite Z.land_ones by lia.
  apply Z.mod_pos_bound. reflexivity.
Qed.

Lemma hash_differs_from_sk_key k h :
  startswith (lit "sk-") k = true -> hash_token k = Ok h -> h <> k.
Proof.
  intros Hsk Hh Heq. subst h. unfold hash_token in Hh.
  destruct (encode k) as [bytes|]; [|discriminate].
  injection Hh as Hh.
  destruct (hexdigest_head bytes) as (c & rest & Hd & Hc).
  rewrite Hd in Hh. destruct k as [|c' k']; [discriminate|].
  injection Hh as <- _.
  change (lit "sk-") with [115; 107; 45]%N in Hsk. cbn [startswith] in Hsk.
  apply andb_prop in Hsk as [Hs _]. apply N.eqb_eq in Hs. congruence.
Qed.

Lemma conforming_insert m (values : gmap string pyval) k v :
  conforming m values = true ->
  (forall fd, In fd (m_fields m) -> f_name fd = k ->
              validate_ty (f_type fd) v <> None) ->
  conforming m (<[k := v]> values) = true.
Proof.
  unfold conforming. rewrite !forallb_forall. intros Hc Hv fd Hin.
  destruct (decide (f_name fd = k)) as [Heq|Hne].
  - rewrite Heq, lookup_insert_eq.
    specialize (Hv fd Hin Heq).
    destruct (validate_ty (f_type fd) v); [reflexivity|congruence].
  - rewrite lookup_insert_ne by congruence. apply Hc. exact Hin.
Qed.

Lemma conforming_insert_str m (values : gmap string pyval) k s :
  conforming m values = true ->
  find_field k (m_fields m) = Some (opt k TStr) ->
  NoDup (field_names m) ->
  conforming m (<[k := PStr s]> values) = true.
Proof.
  intros Hc Hf Hnd. apply conforming_insert; [exact Hc|].
  intros fd Hin Hname.
  apply find_field_In in Hf as [Hin' _].
  assert (fd = opt k TStr) as ->; [|discriminate].
  clear Hc. unfold field_names in Hnd.
  induction (m_fields m) as [|fd0 fds IH]; [destruct Hin|].
  simpl in Hnd. apply NoDup_cons in Hnd as [Hnotin Hnd].
  destruct Hin as [->|Hin], Hin' as [Heq|Hin'].
  - exact Heq.
  - exfalso. apply Hnotin. rewrite Hname.
    apply list_elem_of_In. change k with (f_name (opt k TStr)).
    apply in_map. exact Hin'.
  - exfalso. apply Hnotin. rewrite Heq. simpl. rewrite <- Hname.
    apply list_elem_of_In, in_map. exact Hin.
  - apply IH; assumption.
Qed.

Section UserAPIKeyAuth_facts.
Import UserAPIKeyAuth.

(** What [check_api_key] returns for a string key that can be encoded. *)
Lemma check_api_key_str (kwargs : gmap string pyval) k h :
  py_get kwargs "api_key" = PStr k -> hash_token k = Ok h ->
  check_api_key kwargs =
  Ok (if startswith (lit "sk-") k
      then py_set (py_set kwargs "token" (PStr h)) "api_key" (PStr h)
      else py_set kwargs "token" (PStr h)).
Proof.
  intros Hk Hh. unfold check_api_key. rewrite Hk, Hh. cbn [bind].
  destruct (startswith (lit "sk-") k); reflexivity.
Qed.

Lemma UserAPIKeyAuth_no_required :
  forall fd, In fd (m_fields cls) -> f_default fd <> None.
Proof.
  assert (forallb (fun fd => match f_default fd with
                             | Some _ => true
                             | None => false
                             end) (m_fields cls) = true) as H
    by (vm_compute; reflexivity).
  rewrite forallb_forall in H. intros fd Hin Hd.
  specialize (H fd Hin). rewrite Hd in H. discriminate.
Qed.

End UserAPIKeyAuth_facts.

(** C4 as the code has it. A [UserAPIKeyAuth] built from a string
    [api_key] (and conforming values) has the SHA-256 hex digest of the key
    as its [token]; its [api_key] field holds that digest too when the key
    starts with [sk-], and the key itself otherwise.  The digest of a key
    that starts with [sk-] differs from the key. *)
Theorem api_key_hashed_into_token
  (kwargs : gmap string pyval) (k h : pystr) :
  py_get kwargs "api_key" = PStr k ->
  hash_token k = Ok h ->
  conforming UserAPIKeyAuth.cls kwargs = true ->
  exists r, construct UserAPIKeyAuth.cls kwargs = Ok r /\
            r !! "token" = Some (PStr h) /\
            r !! "api_key" =
              Some (PStr (if startswith (lit "sk-") k then h else k)) /\
            (startswith (lit "sk-") k = true -> h <> k).
Proof.
  intros Hk Hh Hc.
  set (values := if startswith (lit "sk-") k
                 then py_set (py_set kwargs "token" (PStr h)) "api_key" (PStr h)
                 else py_set kwargs "token" (PStr h)).
  assert (Hnd : NoDup (field_names UserAPIKeyAuth.cls)) by solve_nodup.
  assert (Hv : run_validators (m_validators UserAPIKeyAuth.cls) kwargs = Ok values).
  { change (run_validators [UserAPIKeyAuth.check_api_key] kwargs = Ok values).
    rewrite run_validators_single, (check_api_key_str kwargs k h Hk Hh).
    reflexivity. }
  assert (Hcv : conforming UserAPIKeyAuth.cls values = true).
  { unfold values, py_set. destruct (startswith (lit "sk-") k).
    - apply conforming_insert_str; [|reflexivity|exact Hnd].
      apply conforming_insert_str; [exact Hc|reflexivity|exact Hnd].
    - apply conforming_insert_str; [exact Hc|reflexivity|exact Hnd]. }
  destruct (construct_succeeds UserAPIKeyAuth.cls kwargs values Hv Hcv) as [r Hr].
  { intros fd Hin Hd. exfalso. exact (UserAPIKeyAuth_no_required fd Hin Hd). }
  exists r. split; [exact Hr|]. split; [|split].
  - eapply construct_supplied with (v := PStr h);
      [exact Hv | exact Hr | exact Hnd | reflexivity | | reflexivity].
    unfold values, py_set. destruct (startswith (lit "sk-") k).
    + rewrite lookup_insert_ne by discriminate. apply lookup_insert_eq.
    + apply lookup_insert_eq.
  - apply py_get_PStr in Hk.
    unfold values, py_set in *. destruct (startswith (lit "sk-") k).
    + eapply construct_supplied with (v := PStr h);
        [exact Hv | exact Hr | exact Hnd | reflexivity | | reflexivity].
      apply lookup_insert_eq.
    + eapply construct_supplied with (v := PStr k);
        [exact Hv | exact Hr | exact Hnd | reflexivity | | reflexivity].
      rewrite lookup_insert_ne by discriminate. exact Hk.
  - intros Hsk. exact (hash_differs_from_sk_key k h Hsk Hh).
Qed.

Lemma api_key_hashed_into_token_witness :
  field_of (construct UserAPIKeyAuth.cls (kw [("api_key", PStr (lit "sk-1234"))]))
    "token" =
  Some (PStr (lit "88dc28d0f030c55ed4ab77ed8faf098196cb1c05df778539800c9f1243fe6b4b"))
  /\
  field_of (construct UserAPIKeyAuth.cls (kw [("api_key", PStr (lit "sk-1234"))]))
    "api_key" =
  Some (PStr (lit "88dc28d0f030c55ed4ab77ed8faf098196cb1c05df778539800c9f1243fe6b4b")).
Proof.
  destruct (api_key_hashed_into_token
              (kw [("api_key", PStr (lit "sk-1234"))]) (lit "sk-1234")
              (lit "88dc28d0f030c55ed4ab77ed8faf098196cb1c05df778539800c9f1243fe6b4b"))
    as (r & Hr & Ht & Ha & _).
  - reflexivity.
  - vm_compute. reflexivity.
  - vm_compute. reflexivity.
  - split; eapply field_of_ok; eauto.
Defined.

(** C4 as stated fails on a key that does not start with [sk-]: the record
    keeps it in clear in its [api_key] field, next to the digest. *)
Lemma plaintext_api_key_is_kept :
  field_of (construct UserAPIKeyAuth.cls
              (kw [("api_key", PStr (lit "my-secret-key"))])) "token" =
  Some (PStr (lit "1311f8fc80a7ea28d78dd7723f09c44c1754cd35160ca8e7133ae3d7f636a19a"))
  /\
  field_of (construct UserAPIKeyAuth.cls
              (kw [("api_key", PStr (lit "my-secret-key"))])) "api_key" =
  Some (PStr (lit "my-secret-key")).
Proof. split; vm_compute; reflexivity. Qed.

(** ** Fields persisted as JSON text *)

Lemma decode_dict_fields_decoded fs (values values' : gmap string pyval) f s :
  NoDup fs ->
  decode_dict_fields fs values = Ok values' ->
  In f fs -> values !! f = Some (PStr s) ->
  exists v, Json.json_loads s = Some v /\ values' !! f = Some v.
Proof.
  revert values. induction fs as [|f0 fs IH]; intros values Hnd Hd Hin Hf.
  - destruct Hin.
  - apply NoDup_cons in Hnd as [Hnotin Hnd]. simpl in Hd.
    destruct (decide (f = f0)) as [->|Hne].
    + rewrite (proj2 (py_get_PStr values f0 s) Hf) in Hd.
      destruct (Json.json_loads s) as [v|]; [|discriminate].
      exists v. split; [reflexivity|].
      rewrite (decode_dict_fields_frame _ _ _ f0 Hd).
      * apply lookup_insert_eq.
      * left. intros Hin'. apply Hnotin. apply list_elem_of_In. exact Hin'.
    + destruct Hin as [Heq|Hin]; [congruence|].
      destruct (py_get values f0) as [| | | |w| |] eqn:Hf0;
        try (apply (IH values); assumption).
      destruct (Json.json_loads w) as [d|]; [|discriminate].
      apply (IH (py_set values f0 d)); try assumption.
      unfold py_set. rewrite lookup_insert_ne by congruence. exact Hf.
Qed.

Lemma decode_dict_fields_malformed fs (values : gmap string pyval) f s :
  NoDup fs ->
  In f fs -> values !! f = Some (PStr s) -> Json.json_loads s = None ->
  exists f' s',
    In f' fs /\ values !! f' = Some (PStr s') /\ Json.json_loads s' = None /\
    decode_dict_fields fs values =
    Err (ValueError ("Field " +:+ f' +:+ " should be a valid dictionary")).
Proof.
  revert values. induction fs as [|f0 fs IH]; intros values Hnd Hin Hf Hs.
  - destruct Hin.
  - apply NoDup_cons in Hnd as [Hnotin Hnd]. simpl.
    assert (Hnext : forall values1 : gmap string pyval,
               f <> f0 ->
               (forall k, k <> f0 -> values1 !! k = values !! k) ->
               exists f' s',
                 In f' (f0 :: fs) /\ values !! f' = Some (PStr s') /\
                 Json.json_loads s' = None /\
                 decode_dict_fields fs values1 =
                 Err (ValueError ("Field " +:+ f' +:+ " should be a valid dictionary"))).
    { intros values1 Hne Hsame.
      destruct Hin as [Heq|Hin]; [congruence|].
      destruct (IH values1 Hnd Hin) as (f' & s' & Hin' & Hf' & Hs' & Hd').
      - rewrite Hsame by exact Hne. exact Hf.
      - exact Hs.
      - exists f', s'. split; [right; exact Hin'|]. split; [|split; assumption].
        rewrite <- Hsame; [exact Hf'|].
        intros ->. apply Hnotin. apply list_elem_of_In. exact Hin'. }
    destruct (py_get values f0) as [| | | |w| |] eqn:Hf0;
      try (apply Hnext; [intros ->; apply py_get_PStr in Hf; congruence | reflexivity]).
    destruct (Json.json_loads w) as [d|] eqn:Hw.
    + apply Hnext.
      * intros ->. apply py_get_PStr in Hf. congruence.
      * intros k Hk. unfold py_set. apply lookup_insert_ne. congruence.
    + exists f0, w. split; [left; reflexivity|].
      split; [apply py_get_PStr; exact Hf0|]. split; [exact Hw|reflexivity].
Qed.

Lemma decode_dict_fields_total fs (values : gmap string pyval) :
  NoDup fs ->
  (forall f s, In f fs -> values !! f = Some (PStr s) ->
               Json.json_loads s <> None) ->
  exists values', decode_dict_fields fs values = Ok values'.
Proof.
  revert values. induction fs as [|f0 fs IH]; intros values Hnd Hall; simpl.
  - eauto.
  - apply NoDup_cons in Hnd as [Hnotin Hnd].
    assert (Hrest : forall f s, In f fs -> values !! f = Some (PStr s) ->
                                Json.json_loads s <> None).
    { intros f s Hin. apply Hall. right. exact Hin. }
    destruct (py_get values f0) as [| | | |w| |] eqn:Hf0;
      try (apply IH; assumption).
    destruct (Json.json_loads w) as [d|] eqn:Hw.
    + apply IH; [exact Hnd|]. intros f s Hin Hf.
      apply (Hrest f s Hin). rewrite <- Hf. unfold py_set.
      symmetry. apply lookup_insert_ne. intros ->.
      apply Hnotin. apply list_elem_of_In. exact Hin.
    + exfalso. apply (Hall f0 w); [left; reflexivity| |exact Hw].
      apply py_get_PStr. exact Hf0.
Qed.

Lemma text_record_validators rk (kwargs : gmap string pyval) :
  run_validators (m_validators (text_record_model rk)) kwargs =
  match decode_dict_fields (text_fields rk) (decoder_input rk kwargs) with
  | Ok values' => Ok values'
  | Err e => Err (wrap_exception e)
  end.
Proof. destruct rk; exact (run_validators_single _ kwargs). Qed.

Lemma decoder_input_lookup rk (kwargs : gmap string pyval) f :
  In f (text_fields rk) -> decoder_input rk kwargs !! f = kwargs !! f.
Proof.
  destruct rk; [|reflexivity]. intros Hin. unfold decoder_input.
  destruct (negb (is_none (py_get kwargs "token"))); [|reflexivity].
  unfold py_set. apply lookup_insert_ne. intros <-.
  simpl in Hin. intuition discriminate.
Qed.

Lemma text_fields_nodup rk : NoDup (text_fields rk).
Proof. destruct rk; solve_nodup. Qed.




(** ** Route admission *)

Section RoutePermission_facts.
Import RoutePermission.

Example template_placeholder :
  in_group LiteLLMRoutes.openai_routes "/openai/deployments/gpt-4/chat/completions" = true
  /\ in_group LiteLLMRoutes.openai_routes "/openai/deployments/a/b/chat/completions" = false
  /\ in_group LiteLLMRoutes.public_routes "/" = true.
Proof. vm_compute. auto. Qed.

(** A profile built without [team_allowed_routes] allows a team the
    OpenAI and the info routes. *)
Lemma default_team_allow_list (kwargs profile : gmap string pyval) :
  LiteLLM_JWTAuth.init kwargs = Ok profile ->
  kwargs !! "team_allowed_routes" = None ->
  allow_list profile "team_allowed_routes" =
  [lit "openai_routes"; lit "info_routes"].
Proof.
  intros Hinit Hk. unfold LiteLLM_JWTAuth.init in Hinit.
  destruct (bool_decide (dom kwargs ∖ LiteLLM_JWTAuth.allowed_keys = ∅));
    [|discriminate].
  assert (profile !! "team_allowed_routes" =
          Some (PList [PStr (lit "openai_routes"); PStr (lit "info_routes")])) as Hl.
  { eapply (construct_omitted LiteLLM_JWTAuth.cls kwargs kwargs);
      [reflexivity | exact Hinit | solve_nodup | reflexivity | reflexivity | exact Hk]. }
  unfold allow_list. rewrite Hl. reflexivity.
Qed.

(** C2. With the team allow-list left at its default, a caller without
    the admin scope whose token carries a team id is denied
    [/key/generate] (for want of an SSO login if the credential has none,
    else because no allowed group holds the route) and allowed
    [/v1/chat/completions].  [/key/generate] is an SSO-only and a
    management route, and neither an OpenAI nor an info route;
    [/v1/chat/completions] is an OpenAI route. *)
Theorem team_caller_route_admission
  (kwargs profile : gmap string pyval) (default_routes : list pystr)
  (p : principal) (t : pystr) :
  LiteLLM_JWTAuth.init kwargs = Ok profile ->
  kwargs !! "team_allowed_routes" = None ->
  admin_scope p = false ->
  team_id p = Some t ->
  in_group LiteLLMRoutes.sso_only_routes "/key/generate" = true
  /\ in_group LiteLLMRoutes.management_routes "/key/generate" = true
  /\ in_group LiteLLMRoutes.openai_routes "/key/generate" = false
  /\ in_group LiteLLMRoutes.info_routes "/key/generate" = false
  /\ in_group LiteLLMRoutes.openai_routes "/v1/chat/completions" = true
  /\ authorize_route profile default_routes p "/key/generate" =
     Denied (if from_sso p then route_not_permitted else sso_login_required)
  /\ authorize_route profile default_routes p "/v1/chat/completions" = Allowed.
Proof.
  intros Hinit Hk Hadmin Hteam.
  pose proof (default_team_allow_list kwargs profile Hinit Hk) as Hallow.
  repeat (split; [vm_compute; reflexivity|]).
  unfold authorize_route, allowed_groups, resolve_role.
  rewrite Hadmin, Hteam, Hallow.
  split.
  - destruct (from_sso p); vm_compute; reflexivity.
  - vm_compute. reflexivity.
Qed.

Lemma team_caller_route_admission_witness :
  authorize_route
    (record_of (LiteLLM_JWTAuth.init (kw [("team_id_jwt_field", PStr (lit "client_id"))])))
    []
    (Principal false false false (Some (lit "team-1")) None None None)
    "/key/generate" = Denied sso_login_required
  /\
  authorize_route
    (record_of (LiteLLM_JWTAuth.init (kw [("team_id_jwt_field", PStr (lit "client_id"))])))
    []
    (Principal false false false (Some (lit "team-1")) None None None)
    "/v1/chat/completions" = Allowed.
Proof.
  assert (Hok :
    LiteLLM_JWTAuth.init (kw [("team_id_jwt_field", PStr (lit "client_id"))]) =
    Ok (record_of
          (LiteLLM_JWTAuth.init (kw [("team_id_jwt_field", PStr (lit "client_id"))]))))
    by (apply is_ok_record_of; vm_compute; reflexivity).
  destruct (team_caller_route_admission
              (kw [("team_id_jwt_field", PStr (lit "client_id"))]) _ []
              (Principal false false false (Some (lit "team-1")) None None None)
              (lit "team-1") Hok eq_refl eq_refl eq_refl)
    as (_ & _ & _ & _ & _ & Hdeny & Hallow).
  split; [exact Hdeny | exact Hallow].
Defined.

End RoutePermission_facts.

(** ** Rate limits *)

Section RateLimits_facts.
Import RateLimits.

(** C3. Each of the three limits is resolved on its own: the key's value
    if the key sets one, else the user's, else the team's, else none.  With
    no [tpm_limit] on the key (nor on the user) and 1000 on the team the
    result is 1000; once the key sets 500 the result is 500. *)
Theorem limits_resolved_per_field (key user team : scope_limits) :
  rpm (resolve_limits key user team) =
    match rpm_limit key, rpm_limit user with
    | Some v, _ => Some v
    | None, Some v => Some v
    | None, None => rpm_limit team
    end
  /\ tpm (resolve_limits key user team) =
    match tpm_limit key, tpm_limit user with
    | Some v, _ => Some v
    | None, Some v => Some v
    | None, None => tpm_limit team
    end
  /\ max_parallel (resolve_limits key user team) =
    match max_parallel_requests key, max_parallel_requests user with
    | Some v, _ => Some v
    | None, Some v => Some v
    | None, None => max_parallel_requests team
    end
  /\ (tpm_limit key = None -> tpm_limit user = None ->
      tpm_limit team = Some 1000%Z ->
      tpm (resolve_limits key user team) = Some 1000%Z)
  /\ (tpm_limit key = Some 500%Z ->
      tpm (resolve_limits key user team) = Some 500%Z).
Proof.
  unfold resolve_limits. cbn [rpm tpm max_parallel first_set].
  destruct (rpm_limit key), (rpm_limit user), (rpm_limit team),
    (tpm_limit key), (tpm_limit user), (tpm_limit team),
    (max_parallel_requests key), (max_parallel_requests user),
    (max_parallel_requests team);
    repeat split; intros; congruence.
Qed.

(** The scenario on records of the module: a key joined to its team by
    [LiteLLM_VerificationTokenView], and a user without limits. *)
Lemma limits_resolved_per_field_witness :
  tpm (resolve_limits
         (limits_of (record_of (construct LiteLLM_VerificationTokenView.cls
                                  (kw [("team_tpm_limit", PInt 1000)]))))
         (limits_of (record_of (construct LiteLLM_UserTable.cls
                                  (kw [("user_id", PStr (lit "u1")); ("max_budget", PNone);
                                       ("user_email", PNone)]))))
         (team_limits_of_view
            (record_of (construct LiteLLM_VerificationTokenView.cls
                          (kw [("team_tpm_limit", PInt 1000)])))))
  = Some 1000%Z
  /\
  tpm (resolve_limits
         (limits_of (record_of (construct LiteLLM_VerificationTokenView.cls
                                  (kw [("team_tpm_limit", PInt 1000);
                                       ("tpm_limit", PInt 500)]))))
         (limits_of (record_of (construct LiteLLM_UserTable.cls
                                  (kw [("user_id", PStr (lit "u1")); ("max_budget", PNone);
                                       ("user_email", PNone)]))))
         (team_limits_of_view
            (record_of (construct LiteLLM_VerificationTokenView.cls
                          (kw [("team_tpm_limit", PInt 1000);
                               ("tpm_limit", PInt 500)])))))
  = Some 500%Z.
Proof.
  split.
  - apply (proj1 (proj2 (proj2 (proj2 (limits_resolved_per_field _ _ _)))));
      vm_compute; reflexivity.
  - apply (proj2 (proj2 (proj2 (proj2 (limits_resolved_per_field _ _ _)))));
      vm_compute; reflexivity.
Defined.

End RateLimits_facts.

(** ** The JSON round trip *)

Module JsonFacts.

Import Json.
Local Open Scope N_scope.

Lemma ends_value_not_digit c rest :
  ends_value (c :: rest) ->
  is_digit c = false /\ c <> 46 /\ c <> 101 /\ c <> 69 /\ c <> 45 /\ c <> 43.
Proof.
  simpl. intros [-> | [-> | ->]]; repeat split; try reflexivity; discriminate.
Qed.

(** *** Digits *)

Lemma take_digits_app t ds r rest :
  take_digits t = (ds, r) -> ends_value rest ->
  take_digits (t ++ rest) = (ds, r ++ rest).
Proof.
  revert ds r. induction t as [|c t IH]; intros ds r Ht Hrest.
  - simpl in Ht. injection Ht as <- <-. simpl.
    destruct rest as [|c rest]; [reflexivity|].
    simpl. destruct (ends_value_not_digit c rest Hrest) as [-> _]. reflexivity.
  - simpl in *. destruct (is_digit c).
    + destruct (take_digits t) as [ds' r'] eqn:Ht'.
      injection Ht as <- <-. rewrite (IH ds' r' eq_refl Hrest). reflexivity.
    + injection Ht as <- <-. reflexivity.
Qed.

Lemma uint_of_chars u : uint_of_digits (Float64.chars_of_uint u) = u.
Proof. induction u; simpl; congruence. Qed.

Lemma chars_of_uint_digits u : forallb is_digit (Float64.chars_of_uint u) = true.
Proof. induction u; simpl; auto. Qed.

Lemma take_digits_all ds :
  forallb is_digit ds = true -> take_digits ds = (ds, []).
Proof.
  induction ds as [|c ds IH]; simpl; [reflexivity|].
  intros H. apply andb_prop in H as [-> H]. rewrite (IH H). reflexivity.
Qed.

Lemma nat_of_digit_chars (n : N) :
  nat_of_digits (Float64.chars_of_uint (N.to_uint n)) = Z.of_N n.
Proof.
  unfold nat_of_digits. rewrite uint_of_chars, DecimalN.Unsigned.of_to.
  reflexivity.
Qed.

(** A positive number is written without a leading zero. *)
Lemma pos_to_uint_head p :
  exists c ds, Float64.chars_of_uint (Pos.to_uint p) = c :: ds /\
               c <> 48 /\ is_digit c = true.
Proof.
  assert (H : Pos.to_uint p = Decimal.unorm (Pos.to_uint p)).
  { pose proof (DecimalPos.Unsigned.to_of (Pos.to_uint p)) as H.
    rewrite DecimalPos.Unsigned.of_to in H. exact H. }
  pose proof (DecimalPos.Unsigned.to_uint_nonnil p) as Hnn.
  pose proof (DecimalPos.Unsigned.to_uint_nonzero p) as Hnz.
  destruct (Pos.to_uint p) as [|u|u|u|u|u|u|u|u|u|u] eqn:Hu;
    try (eexists; eexists; split; [reflexivity|split; [discriminate|reflexivity]]).
  - congruence.
  - exfalso. rewrite DecimalFacts.unorm_D0 in H.
    destruct (Decimal.nzhead u) eqn:Hn;
      try (rewrite (DecimalFacts.unorm_nzhead u) in H by (rewrite Hn; discriminate);
           exact (DecimalFacts.nzhead_nonzero u u (eq_sym H))).
    apply DecimalFacts.unorm_0 in Hn. rewrite Hn in H. apply Hnz. exact H.
Qed.

(** *** Numbers *)

Lemma match_int_part_app t ip r rest :
  match_int_part t = Some (ip, r) -> ends_value rest ->
  match_int_part (t ++ rest) = Some (ip, r ++ rest).
Proof.
  destruct t as [|c t]; [discriminate|]. simpl. intros H Hrest.
  destruct (c =? 48).
  - injection H as <- <-. reflexivity.
  - destruct (is_digit c); [|discriminate].
    destruct (take_digits t) as [ds r'] eqn:Ht. injection H as <- <-.
    rewrite (take_digits_app t ds r' rest Ht Hrest). reflexivity.
Qed.

Lemma match_frac_app t rest :
  ends_value rest ->
  match_frac (t ++ rest) =
  match match_frac t with
  | Some (f, r) => Some (f, r ++ rest)
  | None => None
  end.
Proof.
  intros Hrest. destruct t as [|c t]; simpl.
  - destruct rest as [|c rest]; [reflexivity|]. simpl.
    destruct (ends_value_not_digit c rest Hrest) as (_ & H46 & _).
    apply N.eqb_neq in H46. rewrite H46. reflexivity.
  - destruct (c =? 46); [|reflexivity].
    destruct (take_digits t) as [ds r] eqn:Ht.
    rewrite (take_digits_app t ds r rest Ht Hrest).
    destruct ds; reflexivity.
Qed.

Lemma match_exp_app t rest :
  ends_value rest ->
  match_exp (t ++ rest) =
  match match_exp t with
  | Some (e, r) => Some (e, r ++ rest)
  | None => None
  end.
Proof.
  intros Hrest.
  assert (Hnone : match_exp rest = None).
  { destruct rest as [|c rest]; [reflexivity|]. simpl.
    destruct (ends_value_not_digit c rest Hrest) as (_ & _ & H101 & H69 & _).
    apply N.eqb_neq in H101, H69. rewrite H101, H69. reflexivity. }
  destruct t as [|c t]; [exact Hnone|]. simpl.
  destruct ((c =? 101) || (c =? 69)); [|reflexivity].
  destruct t as [|c' t]; simpl.
  - destruct rest as [|d rest]; [reflexivity|].
    destruct (ends_value_not_digit d rest Hrest) as (Hd & _ & _ & _ & H45 & H43).
    apply N.eqb_neq in H45, H43. rewrite H45, H43. simpl. rewrite Hd. reflexivity.
  - destruct (c' =? 45).
    + destruct (take_digits t) as [ds r] eqn:Ht.
      rewrite (take_digits_app t ds r rest Ht Hrest). destruct ds; reflexivity.
    + destruct (c' =? 43).
      * destruct (take_digits t) as [ds r] eqn:Ht.
        rewrite (take_digits_app t ds r rest Ht Hrest). destruct ds; reflexivity.
      * destruct (take_digits (c' :: t)) as [ds r] eqn:Ht.
        change (c' :: t ++ rest) with ((c' :: t) ++ rest).
        rewrite (take_digits_app (c' :: t) ds r rest Ht Hrest).
        destruct ds; reflexivity.
Qed.

Lemma number_after_sign_app neg s1 v r rest :
  number_after_sign neg s1 = Some (v, r) -> ends_value rest ->
  number_after_sign neg (s1 ++ rest) = Some (v, r ++ rest).
Proof.
  unfold number_after_sign. intros H1 Hrest.
  destruct (match_int_part s1) as [[ip s2]|] eqn:Hip; [|discriminate].
  rewrite (match_int_part_app s1 ip s2 rest Hip Hrest).
  rewrite (match_frac_app s2 rest Hrest).
  destruct (match_frac s2) as [[f s3]|].
  - rewrite (match_exp_app s3 rest Hrest).
    destruct (match_exp s3) as [[e s4]|]; injection H1 as <- <-; reflexivity.
  - rewrite (match_exp_app s2 rest Hrest).
    destruct (match_exp s2) as [[e s4]|]; injection H1 as <- <-; reflexivity.
Qed.

(** A number is read the same whatever value-ending text follows it. *)
Lemma match_number_app t v r rest :
  match_number t = Some (v, r) -> ends_value rest ->
  match_number (t ++ rest) = Some (v, r ++ rest).
Proof.
  intros H Hrest.
  destruct t as [|c t]; [discriminate|].
  cbn [app]. cbn [match_number] in *.
  destruct (c =? 45).
  - apply number_after_sign_app; assumption.
  - apply (number_after_sign_app false (c :: t)); assumption.
Qed.

Lemma match_number_head t v r :
  match_number t = Some (v, r) ->
  exists c t', t = c :: t' /\ (c = 45 \/ is_digit c = true).
Proof.
  unfold match_number. destruct t as [|c t]; [discriminate|].
  intros H. exists c, t. split; [reflexivity|].
  destruct (c =? 45) eqn:Hc; [left; apply N.eqb_eq; exact Hc|right].
  unfold number_after_sign in H. simpl in H. destruct (c =? 48) eqn:H48.
  - apply N.eqb_eq in H48. subst c. reflexivity.
  - destruct (is_digit c); [reflexivity|discriminate].
Qed.

Lemma number_after_sign_pos p neg :
  number_after_sign neg (Float64.chars_of_uint (Pos.to_uint p)) =
  Some (PInt (if neg then Zneg p else Zpos p), []).
Proof.
  pose proof (nat_of_digit_chars (Npos p)) as Hval.
  pose proof (chars_of_uint_digits (Pos.to_uint p)) as Hdig.
  change (N.to_uint (N.pos p)) with (Pos.to_uint p) in Hval.
  destruct (pos_to_uint_head p) as (c & ds & Hc & H48 & Hd).
  rewrite Hc in *. simpl in Hdig. apply andb_prop in Hdig as [_ Hdig].
  unfold number_after_sign. simpl. apply N.eqb_neq in H48. rewrite H48, Hd.
  rewrite (take_digits_all ds Hdig). simpl. rewrite Hval.
  destruct neg; reflexivity.
Qed.

Lemma match_number_int (z : Z) : match_number (int_repr z) = Some (PInt z, []).
Proof.
  destruct z as [|p|p].
  - reflexivity.
  - unfold int_repr, Float64.digit_chars, match_number.
    change (N.to_uint (Z.to_N (Z.pos p))) with (Pos.to_uint p).
    destruct (pos_to_uint_head p) as (c & ds & Hc & H48 & Hd).
    pose proof (number_after_sign_pos p false) as Hp. rewrite Hc in *.
    assert ((c =? 45) = false) as ->.
    { apply N.eqb_neq. intros ->. discriminate. }
    exact Hp.
  - unfold int_repr, Float64.digit_chars, match_number.
    change (N.to_uint (Z.to_N (Z.pos p))) with (Pos.to_uint p).
    change (45 =? 45) with true. cbv iota. exact (number_after_sign_pos p true).
Qed.

(** *** Strings *)

Lemma base16_digits n :
  exists q1 q2 q3 q4 r0 r1 r2 r3,
    n / 16 = q1 /\ q1 / 16 = q2 /\ q2 / 16 = q3 /\ q3 / 16 = q4 /\
    n mod 16 = r0 /\ q1 mod 16 = r1 /\ q2 mod 16 = r2 /\ q3 mod 16 = r3 /\
    n = 16 * q1 + r0 /\ q1 = 16 * q2 + r1 /\ q2 = 16 * q3 + r2 /\
    q3 = 16 * q4 + r3 /\ r0 < 16 /\ r1 < 16 /\ r2 < 16 /\ r3 < 16.
Proof.
  do 8 eexists. repeat (split; [reflexivity|]).
  repeat split; try apply N.div_mod'; apply N.mod_lt; discriminate.
Qed.

Lemma hex4_sum n :
  n < 65536 ->
  (((n / 4096 mod 16) * 16 + n / 256 mod 16) * 16 + n / 16 mod 16) * 16
  + n mod 16 = n.
Proof.
  intros Hn.
  change 4096 with (16 * (16 * 16)). change 256 with (16 * 16).
  rewrite <- !N.Div0.div_div.
  destruct (base16_digits n)
    as (q1 & q2 & q3 & q4 & r0 & r1 & r2 & r3
        & -> & -> & -> & _ & -> & -> & -> & -> & H).
  lia.
Qed.

(** The two halves of a surrogate pair. *)
Lemma surrogate_split v :
  v < 1048576 ->
  exists a b, v / 1024 mod 1024 = a /\ v mod 1024 = b /\
              a < 1024 /\ b < 1024 /\ a * 1024 + b = v.
Proof.
  intros Hv. exists (v / 1024 mod 1024), (v mod 1024).
  split; [reflexivity|]. split; [reflexivity|].
  assert (v / 1024 < 1024) as Hq.
  { apply N.Div0.div_lt_upper_bound. exact Hv. }
  rewrite (N.mod_small (v / 1024) 1024 Hq).
  split; [exact Hq|]. split; [apply N.mod_lt; discriminate|].
  rewrite N.mul_comm. symmetry. apply N.div_mod'.
Qed.

Lemma hex_value_hex_digit d : d < 16 -> hex_value (hex_digit d) = Some d.
Proof.
  intros Hd.
  assert (d = 0 \/ d = 1 \/ d = 2 \/ d = 3 \/ d = 4 \/ d = 5 \/ d = 6 \/ d = 7 \/
          d = 8 \/ d = 9 \/ d = 10 \/ d = 11 \/ d = 12 \/ d = 13 \/ d = 14 \/ d = 15)
    as H by lia.
  repeat (destruct H as [-> | H]; [reflexivity|]). subst d. reflexivity.
Qed.

Lemma decode_hex4_hex4 n rest :
  n < 65536 -> decode_hex4 (hex4 n ++ rest) = Some (n, rest).
Proof.
  intros Hn. unfold hex4, decode_hex4. cbn [app].
  rewrite !hex_value_hex_digit by (apply N.mod_lt; discriminate).
  rewrite (hex4_sum n Hn). reflexivity.
Qed.

Lemma unescape_u r :
  unescape (117 :: r) =
  match decode_hex4 r with
  | None => None
  | Some (uni, r1) =>
      if (55296 <=? uni) && (uni <=? 56319) then
        match r1 with
        | 92 :: 117 :: r2 =>
            match decode_hex4 r2 with
            | Some (uni2, r3) =>
                if (56320 <=? uni2) && (uni2 <=? 57343)
                then Some (65536 + ((uni - 55296) * 1024 + (uni2 - 56320)), r3)
                else Some (uni, r1)
            | None => if 6 <? N.of_nat (length r1) then None else Some (uni, r1)
            end
        | _ => Some (uni, r1)
        end
      else Some (uni, r1)
  end.
Proof. reflexivity. Qed.

Lemma scanstring_backslash fuel r acc :
  scanstring (S fuel) (92 :: r) acc =
  match unescape r with
  | Some (ch, r') => scanstring fuel r' (ch :: acc)
  | None => None
  end.
Proof. reflexivity. Qed.

(** One step of [scanstring] undoes one step of the encoder. *)
Lemma scanstring_step fuel c tail acc :
  valid_char c = true ->
  scanstring (S fuel) (escape_char c ++ tail) acc = scanstring fuel tail (c :: acc).
Proof.
  intros Hv. unfold valid_char in Hv.
  apply andb_prop in Hv as [Hmax Hsur].
  apply N.ltb_lt in Hmax. apply negb_true_iff in Hsur.
  unfold escape_char.
  destruct (N.eqb_spec c 34) as [->|H34]; [reflexivity|].
  destruct (N.eqb_spec c 92) as [->|H92]; [reflexivity|].
  destruct (N.eqb_spec c 10) as [->|H10]; [reflexivity|].
  destruct (N.eqb_spec c 13) as [->|H13]; [reflexivity|].
  destruct (N.eqb_spec c 9) as [->|H9]; [reflexivity|].
  destruct (N.eqb_spec c 8) as [->|H8]; [reflexivity|].
  destruct (N.eqb_spec c 12) as [->|H12]; [reflexivity|].
  destruct ((32 <=? c) && (c <=? 126)) eqn:Hp.
  - apply andb_prop in Hp as [Hlo _]. apply N.leb_le in Hlo.
    cbn [app scanstring].
    apply N.eqb_neq in H34, H92. rewrite H34, H92.
    assert ((c <? 32) = false) as -> by (apply N.ltb_ge; exact Hlo).
    reflexivity.
  - destruct (N.ltb_spec c 65536) as [Hbmp|Hsup].
    + repeat rewrite <- app_assoc. cbn [app].
      rewrite scanstring_backslash, unescape_u, decode_hex4_hex4 by exact Hbmp.
      assert ((55296 <=? c) && (c <=? 56319) = false) as ->.
      { apply andb_false_iff. apply andb_false_iff in Hsur as [H|H].
        - left. exact H.
        - right. apply N.leb_gt in H. apply N.leb_gt. lia. }
      reflexivity.
    + assert (Hv : c - 65536 < 1048576).
      { clear - Hmax Hsup.
        apply (N.add_lt_mono_r _ _ 65536). rewrite N.sub_add by exact Hsup.
        exact Hmax. }
      destruct (surrogate_split (c - 65536) Hv) as (a & b & -> & -> & Ha & Hb & Hsum).
      assert (Hc : 65536 + (a * 1024 + b) = c).
      { rewrite Hsum. rewrite N.add_comm. apply N.sub_add. exact Hsup. }
      clear Hsum Hv.
      repeat rewrite <- app_assoc. cbn [app].
      rewrite scanstring_backslash, unescape_u, decode_hex4_hex4
        by (clear - Ha; lia).
      assert ((55296 <=? 55296 + a) && (55296 + a <=? 56319) = true) as ->.
      { apply andb_true_intro. split; apply N.leb_le; clear - Ha; lia. }
      cbv iota. rewrite decode_hex4_hex4 by (clear - Hb; lia).
      assert ((56320 <=? 56320 + b) && (56320 + b <=? 57343) = true) as ->.
      { apply andb_true_intro. split; apply N.leb_le; clear - Hb; lia. }
      assert (65536 + ((55296 + a - 55296) * 1024 + (56320 + b - 56320)) = c) as ->.
      { rewrite <- Hc. clear. lia. }
      reflexivity.
Qed.

Lemma escape_char_nonempty c : escape_char c <> [].
Proof.
  unfold escape_char.
  repeat match goal with |- context [if ?b then _ else _] => destruct b end;
    discriminate.
Qed.

Lemma scanstring_escape s : forall fuel acc rest,
  forallb valid_char s = true ->
  (length s < fuel)%nat ->
  scanstring fuel (flat_map escape_char s ++ 34 :: rest) acc =
  Some (rev acc ++ s, rest).
Proof.
  induction s as [|c s IH]; intros fuel acc rest Hs Hf.
  - destruct fuel; [inversion Hf|]. simpl. rewrite app_nil_r. reflexivity.
  - destruct fuel; [inversion Hf|]. simpl in Hs.
    apply andb_prop in Hs as [Hc Hs].
    cbn [flat_map]. rewrite <- app_assoc.
    rewrite (scanstring_step fuel c _ acc Hc).
    rewrite IH by (try exact Hs; simpl in Hf; lia).
    simpl. rewrite <- app_assoc. reflexivity.
Qed.

Lemma flat_map_escape_length s :
  (length s <= length (flat_map escape_char s))%nat.
Proof.
  induction s as [|c s IH]; simpl; [lia|].
  rewrite length_app. pose proof (escape_char_nonempty c).
  destruct (escape_char c); [congruence|]. simpl. lia.
Qed.

(** A string is read back from its JSON text, whatever follows the
    closing quote. *)
Lemma scan_string_encode s rest :
  forallb valid_char s = true ->
  scan_string (flat_map escape_char s ++ 34 :: rest) = Some (s, rest).
Proof.
  intros Hs. unfold scan_string.
  rewrite scanstring_escape; [reflexivity|exact Hs|].
  rewrite length_app. pose proof (flat_map_escape_length s). simpl. lia.
Qed.

(** *** Values *)

Lemma json_value_list l : json_value (PList l) <-> Forall json_value l.
Proof.
  simpl. induction l as [|x l IH]; split; intros H.
  - constructor.
  - exact I.
  - destruct H as [Hx Hl]. constructor; [exact Hx|]. apply IH. exact Hl.
  - inversion H; subst. split; [assumption|]. apply IH. assumption.
Qed.

Lemma json_value_dict d :
  json_value (PDict d) <->
  NoDup (map fst d) /\
  Forall (fun kv => valid_str (fst kv) = true /\ json_value (snd kv)) d.
Proof.
  simpl. split; intros [Hnd H]; (split; [exact Hnd|]).
  - induction d as [|kv d IH]; [constructor|].
    destruct H as [Hkv Hd]. constructor; [exact Hkv|].
    apply IH; [|exact Hd]. simpl in Hnd. apply NoDup_cons in Hnd as [_ Hnd]. exact Hnd.
  - induction d as [|kv d IH]; [exact I|].
    inversion H; subst. split; [assumption|].
    apply IH; [|assumption]. simpl in Hnd. apply NoDup_cons in Hnd as [_ Hnd]. exact Hnd.
Qed.

Lemma weight_list l : weight (PList l) = S (items_weight (map weight l)).
Proof.
  simpl. f_equal. induction l as [|x l IH]; simpl; [reflexivity|].
  rewrite IH. reflexivity.
Qed.

Lemma weight_dict d :
  weight (PDict d) = S (items_weight (map (fun kv => weight (snd kv)) d)).
Proof.
  simpl. f_equal. induction d as [|x d IH]; simpl; [reflexivity|].
  rewrite IH. reflexivity.
Qed.

Lemma skip_ws_head c t : is_ws c = false -> skip_ws (c :: t) = c :: t.
Proof. intros H. simpl. rewrite H. reflexivity. Qed.

Lemma is_digit_range c : is_digit c = true -> 48 <= c <= 57.
Proof.
  unfold is_digit. intros H. apply andb_prop in H as [H1 H2].
  apply N.leb_le in H1, H2. split; assumption.
Qed.

Lemma not_ws_above c : 33 <= c -> is_ws c = false.
Proof.
  intros H. unfold is_ws.
  destruct (N.eqb_spec c 32); [lia|]. destruct (N.eqb_spec c 9); [lia|].
  destruct (N.eqb_spec c 10); [lia|]. destruct (N.eqb_spec c 13); [lia|].
  reflexivity.
Qed.

Lemma number_head_facts c :
  c = 45 \/ is_digit c = true ->
  33 <= c <= 57 /\ c <> 34.
Proof.
  intros [->|H]; [split; [lia|discriminate]|].
  apply is_digit_range in H. lia.
Qed.

(** The text of a value starts with a character that is neither a blank
    nor a closing bracket nor the byte-order mark. *)
Lemma json_dumps_head v :
  json_value v ->
  exists c t, json_dumps v = c :: t /\ 33 <= c <= 123 /\ c <> 93.
Proof.
  destruct v as [|b|z|f|s|l|d]; simpl; intros Hv.
  - exists 110, (lit "ull"). repeat split; try reflexivity; try lia.
  - destruct b; [exists 116, (lit "rue")|exists 102, (lit "alse")];
      repeat split; try reflexivity; lia.
  - destruct (match_number_head _ _ _ (match_number_int z)) as (c & t & Ht & Hc).
    exists c, t. split; [exact Ht|]. apply number_head_facts in Hc. lia.
  - destruct (match_number_head _ _ _ Hv) as (c & t & Ht & Hc).
    exists c, t. split; [exact Ht|]. apply number_head_facts in Hc. lia.
  - eexists; eexists. split; [reflexivity|]. lia.
  - eexists; eexists. split; [reflexivity|]. lia.
  - eexists; eexists. split; [reflexivity|]. lia.
Qed.

Lemma startswith_head p0 p c x :
  p0 <> c -> startswith (p0 :: p) (c :: x) = false.
Proof. intros H. simpl. apply N.eqb_neq in H. rewrite H. reflexivity. Qed.

(** [scan_once] on a non-empty text, one step. *)
Lemma scan_once_S fuel' c r :
  scan_once (S fuel') (c :: r) =
  if c =? 34 then
    match scan_string r with
    | Some (str, r') => Some (PStr str, r')
    | None => None
    end
  else if c =? 123 then
    match skip_ws r with
    | c' :: r' =>
        if c' =? 125 then Some (PDict [], r')
        else if c' =? 34 then object_items fuel' [] r'
        else None
    | [] => None
    end
  else if c =? 91 then
    match skip_ws r with
    | c' :: r' =>
        if c' =? 93 then Some (PList [], r')
        else array_items fuel' [] (c' :: r')
    | [] => None
    end
  else if startswith (lit "null") (c :: r) then Some (PNone, skipn 4 (c :: r))
  else if startswith (lit "true") (c :: r) then Some (PBool true, skipn 4 (c :: r))
  else if startswith (lit "false") (c :: r) then Some (PBool false, skipn 5 (c :: r))
  else
    match match_number (c :: r) with
    | Some x => Some x
    | None =>
        if startswith (lit "NaN") (c :: r) then Some (PFloat nan, skipn 3 (c :: r))
        else if startswith (lit "Infinity") (c :: r)
             then Some (PFloat infinity, skipn 8 (c :: r))
        else if startswith (lit "-Infinity") (c :: r)
             then Some (PFloat neg_infinity, skipn 9 (c :: r))
        else None
    end.
Proof. reflexivity. Qed.

Lemma array_items_S fuel' acc s :
  array_items (S fuel') acc s =
  match scan_once fuel' s with
  | None => None
  | Some (v, r) =>
      match skip_ws r with
      | c :: r' =>
          if c =? 93 then Some (PList (rev (v :: acc)), r')
          else if c =? 44 then array_items fuel' (v :: acc) (skip_ws r')
          else None
      | [] => None
      end
  end.
Proof. reflexivity. Qed.

Lemma object_items_S fuel' acc s :
  object_items (S fuel') acc s =
  match scan_string s with
  | None => None
  | Some (key, r) =>
      match skip_ws r with
      | c :: r1 =>
          if c =? 58 then
            match scan_once fuel' (skip_ws r1) with
            | None => None
            | Some (v, r2) =>
                match skip_ws r2 with
                | c' :: r3 =>
                    if c' =? 125
                    then Some (PDict (dict_of_pairs (rev ((key, v) :: acc))), r3)
                    else if c' =? 44 then
                      match skip_ws r3 with
                      | c'' :: r4 =>
                          if c'' =? 34
                          then object_items fuel' ((key, v) :: acc) r4
                          else None
                      | [] => None
                      end
                    else None
                | [] => None
                end
            end
          else None
      | [] => None
      end
  end.
Proof. reflexivity. Qed.

(** A number is read back whatever value-ending text follows it. *)
Lemma scan_once_number fuel t v rest :
  match_number t = Some (v, []) -> ends_value rest ->
  scan_once (S fuel) (t ++ rest) = Some (v, rest).
Proof.
  intros Ht Hrest.
  pose proof (match_number_app t v [] rest Ht Hrest) as Happ.
  destruct (match_number_head t v [] Ht) as (c & t' & -> & Hc).
  apply number_head_facts in Hc. destruct Hc as [Hc H34].
  cbn [app] in *. rewrite scan_once_S.
  assert ((c =? 34) = false) as -> by (apply N.eqb_neq; exact H34).
  assert ((c =? 123) = false) as -> by (apply N.eqb_neq; lia).
  assert ((c =? 91) = false) as -> by (apply N.eqb_neq; lia).
  change (lit "null") with [110; 117; 108; 108].
  change (lit "true") with [116; 114; 117; 101].
  change (lit "false") with [102; 97; 108; 115; 101].
  rewrite !startswith_head by lia.
  rewrite Happ. reflexivity.
Qed.

(** *** Mappings without repeated keys *)

Lemma pystr_eqb_eq a b : pystr_eqb a b = true <-> a = b.
Proof.
  revert b. induction a as [|x a IH]; intros [|y b]; simpl; split; intros H;
    try reflexivity; try discriminate.
  - apply andb_prop in H as [Hx Ha]. apply N.eqb_eq in Hx. apply IH in Ha.
    congruence.
  - injection H as -> ->. rewrite N.eqb_refl. apply IH. reflexivity.
Qed.

Lemma dict_set_fresh d k v :
  ~ In k (map fst d) -> dict_set d k v = d ++ [(k, v)].
Proof.
  induction d as [|[k' v'] d IH]; simpl; intros H; [reflexivity|].
  destruct (pystr_eqb k' k) eqn:Hk.
  - apply pystr_eqb_eq in Hk. exfalso. apply H. left. exact Hk.
  - rewrite IH; [reflexivity|]. intros Hin. apply H. right. exact Hin.
Qed.

Lemma dict_of_pairs_nodup d : NoDup (map fst d) -> dict_of_pairs d = d.
Proof.
  unfold dict_of_pairs.
  assert (forall acc, NoDup (map fst (acc ++ d)) ->
            fold_left (fun d0 kv => dict_set d0 (fst kv) (snd kv)) d acc = acc ++ d) as H.
  { induction d as [|[k v] d IH]; intros acc Hnd; simpl.
    - rewrite List.app_nil_r. reflexivity.
    - rewrite dict_set_fresh.
      + rewrite IH; rewrite <- List.app_assoc; [reflexivity|exact Hnd].
      + rewrite map_app in Hnd. apply NoDup_app in Hnd as (_ & Hd & _).
        intros Hin. apply (Hd k); [apply list_elem_of_In; exact Hin|].
        simpl. left. }
  intros Hnd. exact (H [] Hnd).
Qed.

(** *** Arrays, objects and the round trip *)

Lemma join_map_single {A} (f : A -> pystr) sep x :
  join sep (map f [x]) = f x.
Proof. reflexivity. Qed.

Lemma join_map_cons {A} (f : A -> pystr) sep x y l :
  join sep (map f (x :: y :: l)) = f x ++ sep ++ join sep (map f (y :: l)).
Proof. reflexivity. Qed.

Lemma join_map_head {A} (f : A -> pystr) sep x l r :
  exists t, join sep (map f (x :: l)) ++ r = f x ++ t.
Proof.
  destruct l as [|y l].
  - rewrite join_map_single. eexists. reflexivity.
  - rewrite join_map_cons, <- List.app_assoc. eexists. reflexivity.
Qed.

Lemma skip_ws_dumps v t :
  json_value v -> skip_ws (json_dumps v ++ t) = json_dumps v ++ t.
Proof.
  intros Hv. destruct (json_dumps_head v Hv) as (c & t' & -> & Hc & _).
  cbn [app]. apply skip_ws_head. apply not_ws_above. lia.
Qed.

Lemma skip_ws_items x l r :
  json_value x ->
  skip_ws (join [44; 32] (map json_dumps (x :: l)) ++ r)
  = join [44; 32] (map json_dumps (x :: l)) ++ r.
Proof.
  intros Hx. destruct (join_map_head json_dumps [44; 32] x l r) as [t ->].
  apply skip_ws_dumps. exact Hx.
Qed.

Lemma array_items_dumps l :
  l <> [] -> Forall reads_back l -> Forall json_value l ->
  forall fuel acc rest,
    (items_weight (map weight l) <= fuel)%nat ->
    array_items fuel acc (join [44; 32] (map json_dumps l) ++ 93 :: rest)
    = Some (PList (rev acc ++ l), rest).
Proof.
  induction l as [|x l IH]; [congruence|].
  intros _ HR Hv fuel acc rest Hfuel.
  inversion HR as [|? ? HRx HRl]; subst. inversion Hv as [|? ? Hvx Hvl]; subst.
  cbn [map items_weight fold_right] in Hfuel.
  fold (items_weight (map weight l)) in Hfuel.
  destruct fuel as [|fuel]; [lia|].
  rewrite array_items_S.
  destruct l as [|y l].
  - rewrite join_map_single.
    rewrite (HRx Hvx fuel (93 :: rest)); [|lia|simpl; auto].
    cbv beta iota. rewrite skip_ws_head by reflexivity.
    change (93 =? 93) with true. cbv beta iota.
    cbn [rev]. reflexivity.
  - rewrite join_map_cons. repeat rewrite <- List.app_assoc.
    rewrite (HRx Hvx fuel); [|lia|simpl; auto].
    cbv beta iota. cbn [app]. rewrite skip_ws_head by reflexivity.
    change (44 =? 93) with false. change (44 =? 44) with true. cbv beta iota.
    change (skip_ws (32 :: ?t)) with (skip_ws t).
    rewrite skip_ws_items by (inversion Hvl; assumption).
    rewrite IH; [|discriminate|assumption|assumption|lia].
    cbn [rev]. rewrite <- List.app_assoc. reflexivity.
Qed.

Lemma member_text_quote kv t :
  member_text kv ++ t
  = 34 :: flat_map escape_char (fst kv)
       ++ 34 :: 58 :: 32 :: json_dumps (snd kv) ++ t.
Proof.
  unfold member_text, encode_str.
  repeat rewrite <- List.app_assoc. reflexivity.
Qed.

Lemma members_quote kv d r :
  exists t, join [44; 32] (map member_text (kv :: d)) ++ r = 34 :: t.
Proof.
  destruct (join_map_head member_text [44; 32] kv d r) as [t ->].
  rewrite member_text_quote. eexists. reflexivity.
Qed.

Lemma object_items_dumps d :
  d <> [] ->
  Forall (fun kv => reads_back (snd kv)) d ->
  Forall (fun kv => valid_str (fst kv) = true /\ json_value (snd kv)) d ->
  forall fuel acc rest t,
    (items_weight (map (fun kv => weight (snd kv)) d) <= fuel)%nat ->
    join [44; 32] (map member_text d) ++ 125 :: rest = 34 :: t ->
    object_items fuel acc t
    = Some (PDict (dict_of_pairs (rev acc ++ d)), rest).
Proof.
  induction d as [|[k v] d IH]; [congruence|].
  intros _ HR Hv fuel acc rest t Hfuel Ht.
  inversion HR as [|? ? HRx HRl]; subst. inversion Hv as [|? ? [Hk Hvx] Hvl]; subst.
  cbn [fst snd] in *.
  cbn [map items_weight fold_right snd] in Hfuel.
  fold (items_weight (map (fun kv => weight (snd kv)) d)) in Hfuel.
  destruct fuel as [|fuel]; [lia|].
  rewrite object_items_S.
  destruct d as [|kv2 d].
  - rewrite join_map_single, member_text_quote in Ht.
    cbn [fst snd] in Ht. injection Ht as <-.
    rewrite (scan_string_encode k _ Hk). cbv beta iota.
    rewrite skip_ws_head by reflexivity.
    change (58 =? 58) with true. cbv beta iota.
    change (skip_ws (32 :: ?t)) with (skip_ws t).
    rewrite skip_ws_dumps by exact Hvx.
    rewrite (HRx Hvx fuel (125 :: rest)); [|lia|simpl; auto].
    cbv beta iota. rewrite skip_ws_head by reflexivity.
    change (125 =? 125) with true. cbv beta iota.
    cbn [rev]. reflexivity.
  - rewrite join_map_cons in Ht. repeat rewrite <- List.app_assoc in Ht.
    rewrite member_text_quote in Ht.
    cbn [fst snd] in Ht. injection Ht as <-.
    rewrite (scan_string_encode k _ Hk). cbv beta iota.
    rewrite skip_ws_head by reflexivity.
    change (58 =? 58) with true. cbv beta iota.
    change (skip_ws (32 :: ?t)) with (skip_ws t).
    rewrite skip_ws_dumps by exact Hvx.
    rewrite (HRx Hvx fuel); [|lia|simpl; auto].
    cbv beta iota. cbn [app]. rewrite skip_ws_head by reflexivity.
    change (44 =? 125) with false. change (44 =? 44) with true. cbv beta iota.
    change (skip_ws (32 :: ?t)) with (skip_ws t).
    destruct (members_quote kv2 d (125 :: rest)) as [t2 Ht2].
    match goal with
    | |- context [skip_ws ?x] =>
        change x with (join [44; 32] (map member_text (kv2 :: d)) ++ 125 :: rest)
    end.
    rewrite Ht2. rewrite skip_ws_head by reflexivity.
    change (34 =? 34) with true. cbv beta iota.
    rewrite (IH ltac:(discriminate) HRl Hvl fuel ((k, v) :: acc) rest t2);
      [|lia|exact Ht2].
    cbn [rev]. rewrite <- List.app_assoc. reflexivity.
Qed.

Lemma json_dumps_dict d :
  json_dumps (PDict d) = 123 :: join [44; 32] (map member_text d) ++ [125].
Proof. reflexivity. Qed.

Lemma json_dumps_list l :
  json_dumps (PList l) = 91 :: join [44; 32] (map json_dumps l) ++ [93].
Proof. reflexivity. Qed.

(** Every JSON value is read back from its own text, whatever follows. *)
Lemma scan_once_dumps v : reads_back v.
Proof.
  induction v as [|b|z|f|s|l IH|d IH] using pyval_ind_nested;
    intros Hv fuel rest Hfuel Hrest.
  - destruct fuel; [simpl in Hfuel; lia|]. reflexivity.
  - destruct fuel; [simpl in Hfuel; lia|]. destruct b; reflexivity.
  - destruct fuel; [simpl in Hfuel; lia|].
    apply scan_once_number; [apply match_number_int|exact Hrest].
  - destruct fuel; [simpl in Hfuel; lia|].
    apply scan_once_number; [exact Hv|exact Hrest].
  - destruct fuel; [simpl in Hfuel; lia|].
    change (json_dumps (PStr s)) with (encode_str s). unfold encode_str.
    repeat rewrite <- List.app_assoc. cbn [app].
    rewrite scan_once_S. change (34 =? 34) with true. cbv beta iota.
    rewrite (scan_string_encode s rest Hv). reflexivity.
  - rewrite weight_list in Hfuel. apply json_value_list in Hv.
    destruct fuel as [|fuel]; [lia|].
    rewrite json_dumps_list. cbn [app]. rewrite <- List.app_assoc. cbn [app].
    rewrite scan_once_S.
    change (91 =? 34) with false. change (91 =? 123) with false.
    change (91 =? 91) with true. cbv beta iota.
    destruct l as [|x l].
    + reflexivity.
    + assert (json_value x) as Hx by (inversion Hv; assumption).
      rewrite (skip_ws_items x l _ Hx).
      pose proof (array_items_dumps (x :: l) ltac:(discriminate) IH Hv
                    fuel [] rest ltac:(lia)) as Harr.
      cbn [rev app] in Harr.
      destruct (join_map_head json_dumps [44; 32] x l (93 :: rest)) as [t Ht].
      destruct (json_dumps_head x Hx) as (c & t' & Hct & _ & Hc).
      rewrite Ht, Hct in *. cbn [app] in *.
      apply N.eqb_neq in Hc. rewrite Hc. exact Harr.
  - rewrite weight_dict in Hfuel. apply json_value_dict in Hv as [Hnd Hv].
    destruct fuel as [|fuel]; [lia|].
    rewrite json_dumps_dict. cbn [app]. rewrite <- List.app_assoc. cbn [app].
    rewrite scan_once_S.
    change (123 =? 34) with false. change (123 =? 123) with true.
    cbv beta iota.
    destruct d as [|kv d].
    + reflexivity.
    + destruct (members_quote kv d (125 :: rest)) as [t Ht].
      rewrite Ht. rewrite skip_ws_head by reflexivity.
      change (34 =? 125) with false. change (34 =? 34) with true.
      cbv beta iota.
      rewrite (object_items_dumps (kv :: d) ltac:(discriminate) IH Hv
                 fuel [] rest t ltac:(lia) Ht).
      cbn [rev app]. rewrite dict_of_pairs_nodup by exact Hnd. reflexivity.
Qed.

(** The fuel [json_loads] starts with is enough: it is the length of the
    text, and every value takes at least one character. *)
Lemma items_weight_join {A} (w : A -> nat) (txt : A -> pystr) l :
  Forall (fun x => (w x <= length (txt x))%nat) l ->
  (items_weight (map w l) <= S (length (join [44; 32]%N (map txt l))))%nat.
Proof.
  induction l as [|x l IH]; intros H; [simpl; lia|].
  inversion H as [|? ? Hx Hl]; subst. specialize (IH Hl).
  destruct l as [|y l].
  - rewrite join_map_single. simpl. lia.
  - rewrite join_map_cons. rewrite !length_app.
    change (items_weight (map w (x :: y :: l)))
      with (S (w x) + items_weight (map w (y :: l)))%nat.
    simpl length at 2. lia.
Qed.

Lemma weight_le_length v :
  json_value v -> (weight v <= length (json_dumps v))%nat.
Proof.
  induction v as [|b|z|f|s|l IH|d IH] using pyval_ind_nested; intros Hv.
  - simpl. lia.
  - destruct b; simpl; lia.
  - destruct (json_dumps_head (PInt z) Hv) as (c & t & -> & _). simpl. lia.
  - destruct (json_dumps_head (PFloat f) Hv) as (c & t & -> & _). simpl. lia.
  - simpl. lia.
  - rewrite weight_list, json_dumps_list. apply json_value_list in Hv.
    cbn [length]. rewrite length_app. cbn [length].
    assert (Forall (fun x => (weight x <= length (json_dumps x))%nat) l) as H.
    { clear - IH Hv. induction l as [|x l IHl]; [constructor|].
      inversion IH; inversion Hv; subst. constructor; auto. }
    pose proof (items_weight_join weight json_dumps l H). lia.
  - rewrite weight_dict, json_dumps_dict. apply json_value_dict in Hv as [_ Hv].
    cbn [length]. rewrite length_app. cbn [length].
    assert (Forall (fun kv => (weight (snd kv) <= length (member_text kv))%nat) d)
      as H.
    { clear - IH Hv. induction d as [|x d IHd]; [constructor|].
      inversion IH as [|? ? Hx ?]; inversion Hv as [|? ? [_ Hvx] ?]; subst.
      constructor; [|auto].
      unfold member_text. rewrite !length_app. specialize (Hx Hvx). lia. }
    pose proof (items_weight_join (fun kv => weight (snd kv)) member_text d H).
    lia.
Qed.

(** [json.loads(json.dumps(v)) == v] for every JSON value. *)
Lemma json_round_trip v : json_value v -> json_loads (json_dumps v) = Some v.
Proof.
  intros Hv. unfold json_loads.
  pose proof (skip_ws_dumps v [] Hv) as Hskip.
  pose proof (scan_once_dumps v Hv (S (length (json_dumps v))) []
                ltac:(pose proof (weight_le_length v Hv); lia) I) as Hscan.
  rewrite List.app_nil_r in Hskip, Hscan.
  destruct (json_dumps_head v Hv) as (c & t & Hct & Hc & _).
  assert (startswith [65279] (json_dumps v) = false) as ->.
  { rewrite Hct. apply startswith_head. lia. }
  rewrite Hskip, Hscan. reflexivity.
Qed.

End JsonFacts.

Lemma validate_plain_dict m :
  validate_ty (TOptional plain_dict) (PDict m) = Some (PDict m).
Proof.
  cbn.
  assert (all_some
            (map (fun kv : pystr * pyval => Some (fst kv, snd kv)) m) = Some m) as ->.
  { induction m as [|[k v] m IH]; simpl; [reflexivity|].
    rewrite IH. reflexivity. }
  reflexivity.
Qed.

Lemma text_field_type rk f fd :
  In f (text_fields rk) ->
  find_field f (m_fields (text_record_model rk)) = Some fd ->
  f_type fd = TOptional plain_dict.
Proof.
  intros Hin Hfd.
  destruct rk; simpl in Hin;
    repeat (destruct Hin as [<-|Hin];
            [vm_compute in Hfd;
             first [discriminate | injection Hfd as <-; reflexivity]|]);
    destruct Hin.
Qed.



(** * Further properties of the module *)

(** ** The shape of a hashed token *)

Lemma be_bytes_range n x b :
  In b (Sha256.be_bytes n x) -> (0 <= b < 256)%Z.
Proof.
  unfold Sha256.be_bytes. rewrite in_map_iff. intros (i & <- & _).
  change 255%Z with (Z.ones 8). rewrite Z.land_ones by lia.
  apply Z.mod_pos_bound. lia.
Qed.

Lemma digest_range msg b : In b (Sha256.digest msg) -> (0 <= b < 256)%Z.
Proof.
  unfold Sha256.digest. rewrite in_flat_map. intros (x & _ & Hb).
  exact (be_bytes_range 4 x b Hb).
Qed.

Lemma digest_length msg : length (Sha256.digest msg) = 32%nat.
Proof.
  unfold Sha256.digest.
  set (p := Sha256.pad msg).
  pose proof (blocks_length (length p / 64) Sha256.H0 p) as Hlen.
  destruct (Sha256.blocks (length p / 64) Sha256.H0 p)
    as [|x0 [|x1 [|x2 [|x3 [|x4 [|x5 [|x6 [|x7 [|x8 l]]]]]]]]];
    try discriminate Hlen.
  reflexivity.
Qed.

Lemma hex_digit_lower d : (d < 16)%N -> is_lower_hex (Json.hex_digit d) = true.
Proof.
  intros Hd. unfold Json.hex_digit, is_lower_hex.
  destruct (N.ltb_spec d 10).
  - apply orb_true_iff. left. apply andb_true_iff.
    split; apply N.leb_le; lia.
  - apply orb_true_iff. right. apply andb_true_iff.
    split; apply N.leb_le; lia.
Qed.

Lemma hex_byte_lower b :
  (0 <= b < 256)%Z -> forallb is_lower_hex (Sha256.hex_byte b) = true.
Proof.
  intros Hb. unfold Sha256.hex_byte. cbn [forallb].
  rewrite !hex_digit_lower; [reflexivity| |].
  - change 15%Z with (Z.ones 4). rewrite Z.land_ones by lia.
    pose proof (Z.mod_pos_bound b (2 ^ 4) ltac:(lia)). lia.
  - rewrite Z.shiftr_div_pow2 by lia. change (2 ^ 4)%Z with 16%Z.
    assert (0 <= b / 16 < 16)%Z
      by (split; [apply Z.div_pos; lia | apply Z.div_lt_upper_bound; lia]).
    lia.
Qed.

Lemma hexdigest_shape msg :
  length (Sha256.hexdigest msg) = 64%nat /\
  forallb is_lower_hex (Sha256.hexdigest msg) = true.
Proof.
  unfold Sha256.hexdigest.
  pose proof (digest_length msg) as Hlen.
  pose proof (digest_range msg) as Hrange.
  induction (Sha256.digest msg) as [|b l IH] in Hlen, Hrange |- *.
  - discriminate Hlen.
  - clear IH.
    assert (forall l : list Z,
              (forall b, In b l -> (0 <= b < 256)%Z) ->
              length (flat_map Sha256.hex_byte l) = (2 * length l)%nat /\
              forallb is_lower_hex (flat_map Sha256.hex_byte l) = true) as H.
    { clear. induction l as [|b l IH]; intros Hr; [split; reflexivity|].
      destruct IH as [IH1 IH2]; [intros; apply Hr; right; assumption|].
      cbn [flat_map]. rewrite length_app, forallb_app, IH1, IH2.
      rewrite hex_byte_lower by (apply Hr; left; reflexivity).
      split; [cbn [length Sha256.hex_byte]; lia|reflexivity]. }
    destruct (H (b :: l) Hrange) as [H1 H2].
    rewrite H1, Hlen. split; [reflexivity|exact H2].
Qed.

(** X1. Whatever the token, the hash [hash_token] returns is a text of
    sixty-four characters, each one of 0-9 and a-f. *)
Theorem hash_token_hex64 (token h : pystr) :
  hash_token token = Ok h ->
  length h = 64%nat /\ forallb is_lower_hex h = true.
Proof.
  unfold hash_token. destruct (encode token) as [bytes|]; [|discriminate].
  intros [= <-]. apply hexdigest_shape.
Qed.

Lemma hash_token_hex64_witness :
  exists h, hash_token (lit "sk-1") = Ok h /\
            length h = 64%nat /\ forallb is_lower_hex h = true.
Proof.
  eexists. split; [vm_compute; reflexivity|].
  apply (hash_token_hex64 (lit "sk-1")). vm_compute. reflexivity.
Defined.

Lemma utf8_char_none c :
  (c < 1114112)%N -> (utf8_char c = None <-> is_surrogate c = true).
Proof.
  intros Hc. unfold utf8_char, is_surrogate.
  destruct (N.ltb_spec c 128); [split; [discriminate|]|].
  { intros Hs. apply andb_prop in Hs as [Hs _]. apply N.leb_le in Hs. lia. }
  destruct (N.ltb_spec c 2048); [split; [discriminate|]|].
  { intros Hs. apply andb_prop in Hs as [Hs _]. apply N.leb_le in Hs. lia. }
  destruct ((55296 <=? c) && (c <=? 57343))%N; [split; reflexivity|].
  destruct (N.ltb_spec c 65536); [split; discriminate|].
  destruct (N.ltb_spec c 1114112); [split; discriminate|lia].
Qed.

Lemma encode_none (s : pystr) :
  Forall (fun c => (c < 1114112)%N) s ->
  (encode s = None <-> existsb is_surrogate s = true).
Proof.
  induction s as [|c s IH]; intros Hs.
  - split; discriminate.
  - apply Forall_cons in Hs as [Hc Hs]. specialize (IH Hs).
    cbn [encode existsb]. pose proof (utf8_char_none c Hc) as Hu.
    destruct (utf8_char c) as [bs|].
    + assert (is_surrogate c = false) as ->.
      { destruct (is_surrogate c); [|reflexivity].
        destruct Hu as [_ Hu]. discriminate (Hu eq_refl). }
      cbn [orb]. rewrite <- IH.
      destruct (encode s); split; congruence.
    + rewrite (proj1 Hu eq_refl). split; reflexivity.
Qed.

(** X2. A token made of code points below 0x110000, as every Python [str]
    is, cannot be hashed exactly when it holds a surrogate code point:
    [hash_token] then raises [UnicodeEncodeError]; otherwise it returns a
    hash. *)
Theorem hash_token_fails_on_surrogates (token : pystr) :
  Forall (fun c => (c < 1114112)%N) token ->
  (hash_token token = Err UnicodeEncodeError <->
   existsb is_surrogate token = true)
  /\
  (existsb is_surrogate token = false -> exists h, hash_token token = Ok h).
Proof.
  intros Hs. pose proof (encode_none token Hs) as He. unfold hash_token.
  destruct (encode token) as [bytes|].
  - split.
    + split; [discriminate|]. intros H. apply He in H. discriminate.
    + eauto.
  - rewrite (proj1 He eq_refl). split; [split; reflexivity|discriminate].
Qed.

Lemma hash_token_fails_on_surrogates_witness :
  hash_token [115; 107; 45; 55357]%N = Err UnicodeEncodeError /\
  exists h, hash_token [115; 107; 45; 233; 128512]%N = Ok h.
Proof.
  split.
  - apply (hash_token_fails_on_surrogates [115; 107; 45; 55357]%N).
    + repeat constructor.
    + reflexivity.
  - apply (hash_token_fails_on_surrogates [115; 107; 45; 233; 128512]%N).
    + repeat constructor.
    + reflexivity.
Defined.

(** ** What [check_api_key] leaves in the record *)

Lemma check_api_key_none (kwargs : gmap string pyval) :
  py_get kwargs "api_key" = PNone ->
  UserAPIKeyAuth.check_api_key kwargs = Ok kwargs.
Proof. intros H. unfold UserAPIKeyAuth.check_api_key. rewrite H. reflexivity. Qed.

Lemma check_api_key_not_str (kwargs : gmap string pyval) :
  is_none (py_get kwargs "api_key") = false ->
  (forall s, py_get kwargs "api_key" <> PStr s) ->
  UserAPIKeyAuth.check_api_key kwargs = Err AttributeError.
Proof.
  intros Hn Hs. unfold UserAPIKeyAuth.check_api_key.
  destruct (py_get kwargs "api_key") as [| | | |s| |];
    try reflexivity; [discriminate|].
  exfalso. exact (Hs s eq_refl).
Qed.

Lemma UserAPIKeyAuth_validated (kwargs values : gmap string pyval) :
  run_validators (m_validators UserAPIKeyAuth.cls) kwargs = Ok values ->
  UserAPIKeyAuth.check_api_key kwargs = Ok values.
Proof.
  intros Hv.
  change (run_validators [UserAPIKeyAuth.check_api_key] kwargs = Ok values) in Hv.
  rewrite run_validators_single in Hv.
  destruct (UserAPIKeyAuth.check_api_key kwargs); [congruence|discriminate].
Qed.

Lemma hexdigest_not_sk bytes :
  startswith (lit "sk-") (Sha256.hexdigest bytes) = false.
Proof.
  destruct (hexdigest_head bytes) as (c & rest & -> & Hc).
  change (lit "sk-") with [115; 107; 45]%N. cbn [startswith].
  apply andb_false_iff. left. apply N.eqb_neq. congruence.
Qed.

(** X3. No [UserAPIKeyAuth] record holds an [api_key] that starts with
    [sk-]: such a key is always replaced by its hash, and a hash never
    starts with [sk-]. *)
Theorem api_key_field_never_starts_with_sk
  (kwargs r : gmap string pyval) (s : pystr) :
  construct UserAPIKeyAuth.cls kwargs = Ok r ->
  r !! "api_key" = Some (PStr s) ->
  startswith (lit "sk-") s = false.
Proof.
  intros Hr Hs.
  destruct (construct_validated _ _ _ Hr) as [values Hv].
  pose proof (UserAPIKeyAuth_validated _ _ Hv) as Hc.
  assert (Hnd : NoDup (field_names UserAPIKeyAuth.cls)) by solve_nodup.
  assert (Hfd : find_field "api_key" (m_fields UserAPIKeyAuth.cls)
                = Some (opt "api_key" TStr)) by reflexivity.
  destruct (py_get kwargs "api_key") as [| | | |k| |] eqn:Hk;
    try (rewrite check_api_key_not_str in Hc;
         [discriminate | rewrite Hk; reflexivity | rewrite Hk; discriminate]).
  - rewrite check_api_key_none in Hc by exact Hk. injection Hc as <-.
    apply find_field_In in Hfd as [Hin _].
    destruct (construct_field _ _ _ _ _ Hv Hr Hnd Hin) as (v & Hfv & Hl).
    cbn [f_name opt] in Hl. rewrite Hs in Hl. injection Hl as <-.
    apply field_value_optional_none in Hfv; [|right; reflexivity].
    rewrite Hk in Hfv. discriminate.
  - destruct (hash_token k) as [h|e] eqn:Hh.
    + rewrite (check_api_key_str kwargs k h Hk Hh) in Hc.
      destruct (startswith (lit "sk-") k) eqn:Hsk.
      * assert (values = py_set (py_set kwargs "token" (PStr h)) "api_key" (PStr h))
          as -> by congruence.
        assert (r !! "api_key" = Some (PStr h)) as Hl.
        { eapply construct_supplied with (v := PStr h);
            [exact Hv | exact Hr | exact Hnd | exact Hfd | | reflexivity].
          unfold py_set. apply lookup_insert_eq. }
        assert (s = h) as -> by congruence.
        unfold hash_token in Hh. destruct (encode k); [|discriminate].
        assert (h = Sha256.hexdigest l) as -> by congruence.
        apply hexdigest_not_sk.
      * assert (values = py_set kwargs "token" (PStr h)) as -> by congruence.
        assert (r !! "api_key" = Some (PStr k)) as Hl.
        { eapply construct_supplied with (v := PStr k);
            [exact Hv | exact Hr | exact Hnd | exact Hfd | | reflexivity].
          unfold py_set. rewrite lookup_insert_ne by discriminate.
          apply py_get_PStr. exact Hk. }
        assert (s = k) as -> by congruence. exact Hsk.
    + unfold UserAPIKeyAuth.check_api_key in Hc. rewrite Hk, Hh in Hc.
      discriminate.
Qed.

Lemma api_key_field_never_starts_with_sk_witness :
  exists h,
    field_of (construct UserAPIKeyAuth.cls
                (kw [("api_key", PStr (lit "sk-1234"))])) "api_key"
    = Some (PStr h) /\
    startswith (lit "sk-") h = false.
Proof.
  assert (Hok :
    construct UserAPIKeyAuth.cls (kw [("api_key", PStr (lit "sk-1234"))]) =
    Ok (record_of
          (construct UserAPIKeyAuth.cls (kw [("api_key", PStr (lit "sk-1234"))]))))
    by (apply is_ok_record_of; vm_compute; reflexivity).
  assert (Hs :
    exists h,
      record_of (construct UserAPIKeyAuth.cls
                   (kw [("api_key", PStr (lit "sk-1234"))])) !! "api_key"
      = Some (PStr h)).
  { eexists. vm_compute. reflexivity. }
  destruct Hs as [h Hs]. exists h. split.
  - eapply field_of_ok; [exact Hok|exact Hs].
  - exact (api_key_field_never_starts_with_sk _ _ h Hok Hs).
Defined.

(** X4. An [api_key] that is neither [None] nor a string makes the
    constructor of [UserAPIKeyAuth] raise [AttributeError]: the error is
    not reported as a [ValidationError]. *)
Theorem api_key_not_a_string_raises (kwargs : gmap string pyval) :
  is_none (py_get kwargs "api_key") = false ->
  (forall s, py_get kwargs "api_key" <> PStr s) ->
  construct UserAPIKeyAuth.cls kwargs = Err (Raised AttributeError).
Proof.
  intros Hn Hs. unfold construct.
  change (m_validators UserAPIKeyAuth.cls) with [UserAPIKeyAuth.check_api_key].
  rewrite run_validators_single, (check_api_key_not_str kwargs Hn Hs).
  reflexivity.
Qed.

Lemma api_key_not_a_string_raises_witness :
  construct UserAPIKeyAuth.cls (kw [("api_key", PInt 1234)])
  = Err (Raised AttributeError).
Proof.
  apply api_key_not_a_string_raises.
  - reflexivity.
  - intros s. vm_compute. discriminate.
Defined.

(** X5. Without an [api_key] (absent or [None]) nothing is hashed: the
    record holds the [token] it was given, and [None] as its [api_key]. *)
Theorem token_kept_without_api_key
  (kwargs r : gmap string pyval) (t : pystr) :
  py_get kwargs "api_key" = PNone ->
  kwargs !! "token" = Some (PStr t) ->
  construct UserAPIKeyAuth.cls kwargs = Ok r ->
  r !! "token" = Some (PStr t) /\ r !! "api_key" = Some PNone.
Proof.
  intros Hk Ht Hr.
  destruct (construct_validated _ _ _ Hr) as [values Hv].
  pose proof (UserAPIKeyAuth_validated _ _ Hv) as Hc.
  rewrite check_api_key_none in Hc by exact Hk. injection Hc as <-.
  assert (Hnd : NoDup (field_names UserAPIKeyAuth.cls)) by solve_nodup.
  split.
  - eapply construct_supplied with (v := PStr t);
      [exact Hv | exact Hr | exact Hnd | reflexivity | exact Ht | reflexivity].
  - assert (Hfd : find_field "api_key" (m_fields UserAPIKeyAuth.cls)
                  = Some (opt "api_key" TStr)) by reflexivity.
    apply find_field_In in Hfd as [Hin _].
    destruct (construct_field _ _ _ _ _ Hv Hr Hnd Hin) as (v & Hfv & Hl).
    cbn [f_name opt] in Hl. rewrite Hl. f_equal.
    apply field_value_optional_none in Hfv; [|right; reflexivity].
    rewrite Hk in Hfv. destruct v; try discriminate. reflexivity.
Qed.

Lemma token_kept_without_api_key_witness :
  field_of (construct UserAPIKeyAuth.cls
              (kw [("token", PStr (lit "88dc28d0f030c55ed4ab77ed8faf098196cb1c05df778539800c9f1243fe6b4b"));
                   ("api_key", PNone)])) "token"
  = Some (PStr (lit "88dc28d0f030c55ed4ab77ed8faf098196cb1c05df778539800c9f1243fe6b4b")).
Proof.
  assert (Hok :
    construct UserAPIKeyAuth.cls
      (kw [("token", PStr (lit "88dc28d0f030c55ed4ab77ed8faf098196cb1c05df778539800c9f1243fe6b4b"));
           ("api_key", PNone)]) =
    Ok (record_of
          (construct UserAPIKeyAuth.cls
             (kw [("token", PStr (lit "88dc28d0f030c55ed4ab77ed8faf098196cb1c05df778539800c9f1243fe6b4b"));
                  ("api_key", PNone)]))))
    by (apply is_ok_record_of; vm_compute; reflexivity).
  eapply field_of_ok; [exact Hok|].
  exact (proj1 (token_kept_without_api_key
                  (kw [("token", PStr (lit "88dc28d0f030c55ed4ab77ed8faf098196cb1c05df778539800c9f1243fe6b4b"));
                       ("api_key", PNone)])
                  _ _ eq_refl eq_refl Hok)).
Defined.

(** ** The prompt-injection settings *)

Section LiteLLMPromptInjectionParams_facts.
Import LiteLLMPromptInjectionParams.

Lemma check_llm_api_params_skipped (values : gmap string pyval) :
  py_get values "llm_api_check" <> PBool true ->
  check_llm_api_params values = Ok values.
Proof.
  intros H. unfold check_llm_api_params.
  destruct (py_get values "llm_api_check") as [|[|]| | | | |];
    try reflexivity.
  exfalso. apply H. reflexivity.
Qed.

Lemma check_llm_api_params_checked (values : gmap string pyval) :
  py_get values "llm_api_check" = PBool true ->
  check_llm_api_params values =
  if missing_or_empty values "llm_api_name" then
    Err (ValueError
      "If llm_api_check is set to True, llm_api_name must be provided")
  else if missing_or_empty values "llm_api_system_prompt" then
    Err (ValueError
      "If llm_api_check is set to True, llm_api_system_prompt must be provided")
  else if missing_or_empty values "llm_api_fail_call_string" then
    Err (ValueError
      "If llm_api_check is set to True, llm_api_fail_call_string must be provided")
  else Ok values.
Proof. intros H. unfold check_llm_api_params. rewrite H. reflexivity. Qed.

Lemma LiteLLMPromptInjectionParams_no_required :
  forall fd, In fd (m_fields cls) -> f_default fd <> None.
Proof.
  intros fd Hin. cbn in Hin.
  repeat (destruct Hin as [<-|Hin]; [discriminate|]). destruct Hin.
Qed.

End LiteLLMPromptInjectionParams_facts.

(** X6. Constructing a [LiteLLMPromptInjectionParams] fails on its own rule
    only when [llm_api_check] is [True], and then with the message of the
    first of [llm_api_name], [llm_api_system_prompt] and
    [llm_api_fail_call_string] that is missing or empty. *)
Theorem llm_api_check_needs_its_parameters (kwargs : gmap string pyval) :
  (construct LiteLLMPromptInjectionParams.cls kwargs =
   rule_error "If llm_api_check is set to True, llm_api_name must be provided"
   <-> py_get kwargs "llm_api_check" = PBool true
       /\ missing_or_empty kwargs "llm_api_name" = true)
  /\
  (construct LiteLLMPromptInjectionParams.cls kwargs =
   rule_error
     "If llm_api_check is set to True, llm_api_system_prompt must be provided"
   <-> py_get kwargs "llm_api_check" = PBool true
       /\ missing_or_empty kwargs "llm_api_name" = false
       /\ missing_or_empty kwargs "llm_api_system_prompt" = true)
  /\
  (construct LiteLLMPromptInjectionParams.cls kwargs =
   rule_error
     "If llm_api_check is set to True, llm_api_fail_call_string must be provided"
   <-> py_get kwargs "llm_api_check" = PBool true
       /\ missing_or_empty kwargs "llm_api_name" = false
       /\ missing_or_empty kwargs "llm_api_system_prompt" = false
       /\ missing_or_empty kwargs "llm_api_fail_call_string" = true)
  /\
  (forall msg,
     construct LiteLLMPromptInjectionParams.cls kwargs = rule_error msg ->
     py_get kwargs "llm_api_check" = PBool true).
Proof.
  unfold rule_error.
  assert (Hrule : forall msg,
    construct LiteLLMPromptInjectionParams.cls kwargs =
    Err (ValidationError (RuleViolated (ValueError msg)))
    <-> LiteLLMPromptInjectionParams.check_llm_api_params kwargs
        = Err (ValueError msg)).
  { intros msg. apply construct_rule_violated. reflexivity. }
  assert (py_get kwargs "llm_api_check" = PBool true \/
          py_get kwargs "llm_api_check" <> PBool true) as [Hc|Hc].
  { destruct (py_get kwargs "llm_api_check") as [|[|]| | | | |];
      first [left; reflexivity | right; discriminate]. }
  - rewrite !Hrule.
    assert (Hall : forall msg,
      construct LiteLLMPromptInjectionParams.cls kwargs =
      Err (ValidationError (RuleViolated (ValueError msg))) ->
      py_get kwargs "llm_api_check" = PBool true) by (intros; exact Hc).
    rewrite (check_llm_api_params_checked kwargs Hc).
    destruct (missing_or_empty kwargs "llm_api_name");
      [|destruct (missing_or_empty kwargs "llm_api_system_prompt");
        [|destruct (missing_or_empty kwargs "llm_api_fail_call_string")]];
      (split; [|split; [|split; [|exact Hall]]]);
      (split; [intros H; try discriminate H; repeat split; auto
              |intros H; try reflexivity;
               repeat match goal with
                      | H : _ /\ _ |- _ => destruct H
                      end; try discriminate]).
  - assert (Hnone : forall msg,
      ~ construct LiteLLMPromptInjectionParams.cls kwargs =
        Err (ValidationError (RuleViolated (ValueError msg)))).
    { intros msg H. apply Hrule in H.
      rewrite (check_llm_api_params_skipped kwargs Hc) in H. discriminate. }
    split; [|split; [|split]];
      try (split; [intros H; exfalso; exact (Hnone _ H)
                  |intros [H _]; exfalso; exact (Hc H)]).
    intros msg H. exfalso. exact (Hnone _ H).
Qed.

Lemma truthy_str_kept (values : gmap string pyval) k :
  missing_or_empty values k = false -> is_Some (values !! k).
Proof.
  unfold missing_or_empty. destruct (values !! k); [eauto|discriminate].
Qed.

(** X7. When [llm_api_check] is not [True], or when it is and the three
    parameters are all present and non-empty, keyword arguments that conform
    to the annotations give a record, and the record holds the three
    parameters as they were given ([None] for one not given). *)
Theorem llm_api_parameters_accepted (kwargs : gmap string pyval) :
  conforming LiteLLMPromptInjectionParams.cls kwargs = true ->
  py_get kwargs "llm_api_check" <> PBool true \/
  (missing_or_empty kwargs "llm_api_name" = false /\
   missing_or_empty kwargs "llm_api_system_prompt" = false /\
   missing_or_empty kwargs "llm_api_fail_call_string" = false) ->
  exists r,
    construct LiteLLMPromptInjectionParams.cls kwargs = Ok r /\
    forall k,
      In k ["llm_api_name"; "llm_api_system_prompt"; "llm_api_fail_call_string"] ->
      r !! k = Some (py_get kwargs k).
Proof.
  intros Hc Hcase.
  assert (Hv : run_validators (m_validators LiteLLMPromptInjectionParams.cls)
                 kwargs = Ok kwargs).
  { change (run_validators [LiteLLMPromptInjectionParams.check_llm_api_params]
              kwargs = Ok kwargs).
    rewrite run_validators_single.
    assert (py_get kwargs "llm_api_check" = PBool true \/
            py_get kwargs "llm_api_check" <> PBool true) as [Ht|Hf].
    { destruct (py_get kwargs "llm_api_check") as [|[|]| | | | |];
        first [left; reflexivity | right; discriminate]. }
    - destruct Hcase as [Hcase|(H1 & H2 & H3)]; [contradiction|].
      rewrite (check_llm_api_params_checked kwargs Ht), H1, H2, H3.
      reflexivity.
    - rewrite (check_llm_api_params_skipped kwargs Hf). reflexivity. }
  destruct (construct_succeeds _ kwargs kwargs Hv Hc) as [r Hr].
  { intros fd Hin Hd. exfalso.
    exact (LiteLLMPromptInjectionParams_no_required fd Hin Hd). }
  exists r. split; [exact Hr|].
  assert (Hnd : NoDup (field_names LiteLLMPromptInjectionParams.cls))
    by solve_nodup.
  assert (Hfield : forall k,
    In (opt k TStr) (m_fields LiteLLMPromptInjectionParams.cls) ->
    r !! k = Some (py_get kwargs k)).
  { intros k Hin.
    destruct (construct_field _ _ _ _ _ Hv Hr Hnd Hin) as (v & Hfv & Hl).
    cbn [f_name opt] in Hl. rewrite Hl. f_equal.
    unfold field_value, py_get in *. cbn [f_name f_type f_default opt] in Hfv.
    destruct (kwargs !! k) as [w|]; cbn.
    - destruct w; cbn in Hfv; congruence.
    - congruence. }
  intros k Hin. apply Hfield. cbn in Hin. cbn.
  destruct Hin as [<-|[<-|[<-|[]]]]; auto 10.
Qed.

Lemma llm_api_parameters_accepted_witness :
  exists r,
    construct LiteLLMPromptInjectionParams.cls
      (kw [("llm_api_check", PBool true);
           ("llm_api_name", PStr (lit "gpt-3.5-turbo"));
           ("llm_api_system_prompt", PStr (lit "Detect prompt injection"));
           ("llm_api_fail_call_string", PStr (lit "UNSAFE"))]) = Ok r /\
    r !! "llm_api_name" = Some (PStr (lit "gpt-3.5-turbo")).
Proof.
  destruct (llm_api_parameters_accepted
              (kw [("llm_api_check", PBool true);
                   ("llm_api_name", PStr (lit "gpt-3.5-turbo"));
                   ("llm_api_system_prompt", PStr (lit "Detect prompt injection"));
                   ("llm_api_fail_call_string", PStr (lit "UNSAFE"))]))
    as (r & Hr & Hk).
  - vm_compute. reflexivity.
  - right. repeat split; vm_compute; reflexivity.
  - exists r. split; [exact Hr|]. apply (Hk "llm_api_name"). left. reflexivity.
Defined.

(** ** [ModelInfo] *)

Lemma fill_missing_lookup_eq (values : gmap string pyval) k d :
  fill_missing values k d !! k =
  if is_none (py_get values k) then Some d else values !! k.
Proof.
  unfold fill_missing. destruct (is_none (py_get values k)); [|reflexivity].
  unfold py_set. apply lookup_insert_eq.
Qed.

Lemma fill_missing_lookup_ne (values : gmap string pyval) k d k' :
  k <> k' -> fill_missing values k d !! k' = values !! k'.
Proof.
  intros Hne. unfold fill_missing.
  destruct (is_none (py_get values k)); [|reflexivity].
  unfold py_set. apply lookup_insert_ne. exact Hne.
Qed.

Lemma fill_missing_is_Some (values : gmap string pyval) k d k' :
  is_Some (values !! k') -> is_Some (fill_missing values k d !! k').
Proof.
  intros Hs. unfold fill_missing.
  destruct (is_none (py_get values k)); [|exact Hs].
  unfold py_set. destruct (decide (k = k')) as [->|Hne].
  - rewrite lookup_insert_eq. eauto.
  - rewrite lookup_insert_ne by exact Hne. exact Hs.
Qed.

Lemma fill_missing_present (values : gmap string pyval) k d :
  is_Some (fill_missing values k d !! k).
Proof.
  rewrite fill_missing_lookup_eq. unfold py_get.
  destruct (values !! k) as [v|]; cbn; eauto.
  destruct (is_none v); eauto.
Qed.

Lemma conforming_fill_missing m (values : gmap string pyval) k d :
  conforming m values = true ->
  (forall fd, In fd (m_fields m) -> f_name fd = k ->
              validate_ty (f_type fd) d <> None) ->
  conforming m (fill_missing values k d) = true.
Proof.
  intros Hc Hd. unfold fill_missing.
  destruct (is_none (py_get values k)); [|exact Hc].
  apply conforming_insert; assumption.
Qed.

(** What the validator leaves under each key. *)
Lemma ModelInfo_set_model_info_lookup fresh_id (kwargs values : gmap string pyval) k :
  ModelInfo.set_model_info fresh_id kwargs = Ok values ->
  values !! k =
  if bool_decide (k = "id") then
    if is_none (py_get kwargs k) then Some (PStr fresh_id) else kwargs !! k
  else if bool_decide (In k ["mode"; "input_cost_per_token";
                             "output_cost_per_token"; "max_tokens";
                             "base_model"]) then
    if is_none (py_get kwargs k) then Some PNone else kwargs !! k
  else kwargs !! k.
Proof.
  unfold ModelInfo.set_model_info. intros Hv.
  assert (values =
    fill_missing (fill_missing (fill_missing (fill_missing (fill_missing
      (fill_missing kwargs "id" (PStr fresh_id)) "mode" PNone)
      "input_cost_per_token" PNone) "output_cost_per_token" PNone)
      "max_tokens" PNone) "base_model" PNone) as -> by congruence.
  clear Hv.
  assert (Hget : forall (v : gmap string pyval) a d b,
             a <> b -> py_get (fill_missing v a d) b = py_get v b).
  { intros v a d b Hab. unfold py_get.
    rewrite fill_missing_lookup_ne by exact Hab. reflexivity. }
  destruct (decide (k = "base_model")) as [->|H1].
  { rewrite fill_missing_lookup_eq, !Hget by discriminate.
    rewrite !fill_missing_lookup_ne by discriminate. reflexivity. }
  rewrite fill_missing_lookup_ne by congruence.
  destruct (decide (k = "max_tokens")) as [->|H2].
  { rewrite fill_missing_lookup_eq, !Hget by discriminate.
    rewrite !fill_missing_lookup_ne by discriminate. reflexivity. }
  rewrite fill_missing_lookup_ne by congruence.
  destruct (decide (k = "output_cost_per_token")) as [->|H3].
  { rewrite fill_missing_lookup_eq, !Hget by discriminate.
    rewrite !fill_missing_lookup_ne by discriminate. reflexivity. }
  rewrite fill_missing_lookup_ne by congruence.
  destruct (decide (k = "input_cost_per_token")) as [->|H4].
  { rewrite fill_missing_lookup_eq, !Hget by discriminate.
    rewrite !fill_missing_lookup_ne by discriminate. reflexivity. }
  rewrite fill_missing_lookup_ne by congruence.
  destruct (decide (k = "mode")) as [->|H5].
  { rewrite fill_missing_lookup_eq, !Hget by discriminate.
    rewrite !fill_missing_lookup_ne by discriminate. reflexivity. }
  rewrite fill_missing_lookup_ne by congruence.
  destruct (decide (k = "id")) as [->|H6].
  { rewrite fill_missing_lookup_eq. reflexivity. }
  rewrite fill_missing_lookup_ne by congruence.
  rewrite bool_decide_eq_false_2 by exact H6.
  rewrite bool_decide_eq_false_2; [reflexivity|].
  cbn. intuition congruence.
Qed.

Lemma ModelInfo_validated fresh_id (kwargs values : gmap string pyval) :
  run_validators (m_validators (ModelInfo.cls fresh_id)) kwargs = Ok values ->
  ModelInfo.set_model_info fresh_id kwargs = Ok values.
Proof.
  intros Hv.
  change (run_validators [ModelInfo.set_model_info fresh_id] kwargs = Ok values)
    in Hv.
  rewrite run_validators_single in Hv.
  destruct (ModelInfo.set_model_info fresh_id kwargs); [congruence|discriminate].
Qed.

Lemma ModelInfo_field_types fd :
  In fd ModelInfo.fields -> exists t, f_type fd = TOptional t.
Proof.
  intros Hin. cbn in Hin.
  repeat (destruct Hin as [<-|Hin]; [eexists; reflexivity|]). destruct Hin.
Qed.

(** X8. In a [ModelInfo] the declared defaults 0.0, 0.0 and 2048 are never
    used: a record built without [input_cost_per_token],
    [output_cost_per_token] or [max_tokens] (or with [None] for it) holds
    [None] there, as it does for [mode] and [base_model]; an [id] that is
    not given is the generated one, and an [id] given as a string is
    kept. *)
Theorem model_info_missing_fields_are_none
  (fresh_id : pystr) (kwargs r : gmap string pyval) :
  construct (ModelInfo.cls fresh_id) kwargs = Ok r ->
  (forall k,
     In k ["mode"; "input_cost_per_token"; "output_cost_per_token";
           "max_tokens"; "base_model"] ->
     py_get kwargs k = PNone -> r !! k = Some PNone)
  /\
  (py_get kwargs "id" = PNone -> r !! "id" = Some (PStr fresh_id))
  /\
  (forall s, kwargs !! "id" = Some (PStr s) -> r !! "id" = Some (PStr s)).
Proof.
  intros Hr.
  destruct (construct_validated _ _ _ Hr) as [values Hv].
  pose proof (ModelInfo_validated _ _ _ Hv) as Hs.
  assert (Hnd : NoDup (field_names (ModelInfo.cls fresh_id))) by solve_nodup.
  split; [|split].
  - intros k Hin Hk.
    assert (Hl : values !! k = Some PNone).
    { rewrite (ModelInfo_set_model_info_lookup _ _ _ k Hs), Hk.
      cbn in Hin.
      destruct Hin as [<-|[<-|[<-|[<-|[<-|[]]]]]]; reflexivity. }
    assert (exists fd, find_field k (m_fields (ModelInfo.cls fresh_id)) = Some fd)
      as [fd Hfd].
    { cbn in Hin.
      destruct Hin as [<-|[<-|[<-|[<-|[<-|[]]]]]]; eexists; reflexivity. }
    eapply construct_supplied with (v := PNone);
      [exact Hv | exact Hr | exact Hnd | exact Hfd | exact Hl |].
    apply find_field_In in Hfd as [Hfd _].
    destruct (ModelInfo_field_types fd Hfd) as [t ->]. reflexivity.
  - intros Hk.
    eapply construct_supplied with (v := PStr fresh_id);
      [exact Hv | exact Hr | exact Hnd | reflexivity | | reflexivity].
    rewrite (ModelInfo_set_model_info_lookup _ _ _ "id" Hs), Hk. reflexivity.
  - intros s Hk.
    eapply construct_supplied with (v := PStr s);
      [exact Hv | exact Hr | exact Hnd | reflexivity | | reflexivity].
    rewrite (ModelInfo_set_model_info_lookup _ _ _ "id" Hs).
    unfold py_get. rewrite Hk. reflexivity.
Qed.

Lemma model_info_missing_fields_are_none_witness :
  field_of (construct (ModelInfo.cls (lit "0a1b2c3d-0000-4000-8000-000000000000"))
              (kw [("mode", PStr (lit "chat"))])) "max_tokens"
  = Some PNone
  /\
  field_of (construct (ModelInfo.cls (lit "0a1b2c3d-0000-4000-8000-000000000000"))
              (kw [("mode", PStr (lit "chat"))])) "id"
  = Some (PStr (lit "0a1b2c3d-0000-4000-8000-000000000000")).
Proof.
  assert (Hok :
    construct (ModelInfo.cls (lit "0a1b2c3d-0000-4000-8000-000000000000"))
      (kw [("mode", PStr (lit "chat"))]) =
    Ok (record_of
          (construct (ModelInfo.cls (lit "0a1b2c3d-0000-4000-8000-000000000000"))
             (kw [("mode", PStr (lit "chat"))]))))
    by (apply is_ok_record_of; vm_compute; reflexivity).
  destruct (model_info_missing_fields_are_none _ _ _ Hok) as (Hnone & Hid & _).
  split; eapply field_of_ok; try exact Hok.
  - apply Hnone; [cbn; auto 10|reflexivity].
  - apply Hid. reflexivity.
Defined.

(** X9. A [ModelInfo] can always be built: whatever conforming keyword
    arguments it is given, also none at all, the constructor returns a
    record, although [id], [mode] and [base_model] are declared without
    a default; and the record keeps every keyword that is not a declared
    field. *)
Theorem model_info_always_constructs
  (fresh_id : pystr) (kwargs : gmap string pyval) :
  conforming (ModelInfo.cls fresh_id) kwargs = true ->
  exists r,
    construct (ModelInfo.cls fresh_id) kwargs = Ok r /\
    forall k v, is_field (ModelInfo.cls fresh_id) k = false ->
                kwargs !! k = Some v -> r !! k = Some v.
Proof.
  intros Hc.
  set (values :=
    fill_missing (fill_missing (fill_missing (fill_missing (fill_missing
      (fill_missing kwargs "id" (PStr fresh_id)) "mode" PNone)
      "input_cost_per_token" PNone) "output_cost_per_token" PNone)
      "max_tokens" PNone) "base_model" PNone).
  assert (Hs : ModelInfo.set_model_info fresh_id kwargs = Ok values)
    by reflexivity.
  assert (Hv : run_validators (m_validators (ModelInfo.cls fresh_id)) kwargs
               = Ok values).
  { change (run_validators [ModelInfo.set_model_info fresh_id] kwargs = Ok values).
    rewrite run_validators_single, Hs. reflexivity. }
  assert (Hnd : NoDup (field_names (ModelInfo.cls fresh_id))) by solve_nodup.
  assert (Hcv : conforming (ModelInfo.cls fresh_id) values = true).
  { assert (Hopt : forall d, d = PNone \/ d = PStr fresh_id ->
              forall k fd, In fd (m_fields (ModelInfo.cls fresh_id)) ->
                f_name fd = k -> k = "id" \/ d = PNone ->
                validate_ty (f_type fd) d <> None).
    { intros d Hd k fd Hin Hname Hk. cbn in Hin.
      destruct Hd as [-> | ->].
      - destruct (ModelInfo_field_types fd Hin) as [t ->]. discriminate.
      - destruct Hk as [->|Hk]; [|discriminate].
        repeat (destruct Hin as [<-|Hin];
                [first [discriminate Hname | discriminate]|]).
        destruct Hin. }
    unfold values.
    repeat (apply conforming_fill_missing;
            [|intros fd Hin Hname;
              apply (Hopt PNone (or_introl eq_refl) _ fd Hin Hname);
              right; reflexivity]).
    apply conforming_fill_missing; [exact Hc|].
    intros fd Hin Hname.
    apply (Hopt (PStr fresh_id) (or_intror eq_refl) _ fd Hin Hname).
    left. reflexivity. }
  destruct (construct_succeeds _ kwargs values Hv Hcv) as [r Hr].
  { intros fd Hin Hd. cbn in Hin.
    destruct Hin as [<-|[<-|[<-|[<-|[<-|[<-|[]]]]]]]; try discriminate Hd;
      cbn [f_name req]; unfold values;
      repeat first [apply fill_missing_present | apply fill_missing_is_Some]. }
  exists r. split; [exact Hr|].
  intros k v Hk Hl.
  assert (Hvk : values !! k = Some v).
  { rewrite (ModelInfo_set_model_info_lookup _ _ _ k Hs).
    apply is_field_false in Hk. cbn in Hk.
    rewrite bool_decide_eq_false_2 by (intros ->; apply Hk; auto 10).
    rewrite bool_decide_eq_false_2; [exact Hl|].
    cbn. intros Hin. apply Hk. intuition. }
  unfold construct in Hr. rewrite Hv in Hr. cbn [bind] in Hr.
  destruct (collect_fields values (m_fields (ModelInfo.cls fresh_id)))
    as [fs|e] eqn:Hfs; [|discriminate].
  cbn [bind m_extra ModelInfo.cls] in Hr.
  assert (r = list_to_map fs ∪ extras (ModelInfo.cls fresh_id) values)
    as -> by congruence.
  apply lookup_union_Some_raw. right. split.
  - apply not_elem_of_list_to_map.
    change (k ∉ map fst fs). rewrite (collect_fields_names _ _ _ Hfs).
    intros Hin. apply list_elem_of_In in Hin.
    exact (is_field_false _ _ Hk Hin).
  - unfold extras. apply map_lookup_filter_Some. split; [exact Hvk|exact Hk].
Qed.

Lemma model_info_always_constructs_witness :
  exists r,
    construct (ModelInfo.cls (lit "0a1b2c3d-0000-4000-8000-000000000000"))
      (kw [("custom_llm_provider", PStr (lit "azure"))]) = Ok r /\
    r !! "custom_llm_provider" = Some (PStr (lit "azure")).
Proof.
  destruct (model_info_always_constructs
              (lit "0a1b2c3d-0000-4000-8000-000000000000")
              (kw [("custom_llm_provider", PStr (lit "azure"))]))
    as (r & Hr & Hk).
  - vm_compute. reflexivity.
  - exists r. split; [exact Hr|]. apply Hk; reflexivity.
Defined.

(** ** More on the records decoded from stored text *)

(** With [extra] left at its default, a record holds nothing under a name
    that is not a declared field. *)
Lemma construct_undeclared_ignored m (kwargs r : gmap string pyval) k :
  m_extra m = ExtraIgnore ->
  construct m kwargs = Ok r ->
  ~ In k (field_names m) ->
  r !! k = None.
Proof.
  intros He Hr Hk. unfold construct in Hr.
  destruct (run_validators (m_validators m) kwargs) as [values|e];
    [|discriminate].
  cbn [bind] in Hr.
  destruct (collect_fields values (m_fields m)) as [fs|e] eqn:Hfs;
    [|discriminate].
  cbn [bind] in Hr. rewrite He in Hr.
  assert (r = list_to_map fs) as -> by congruence.
  apply not_elem_of_list_to_map.
  change (k ∉ map fst fs). rewrite (collect_fields_names _ _ _ Hfs).
  intros Hin. apply list_elem_of_In in Hin. exact (Hk Hin).
Qed.

Lemma key_response_validated m (kwargs values : gmap string pyval) :
  In m key_response_models ->
  run_validators (m_validators m) kwargs = Ok values ->
  GenerateKeyResponse.set_model_info kwargs = Ok values.
Proof.
  intros Hm Hv.
  assert (m_validators m = [GenerateKeyResponse.set_model_info]) as Hvs.
  { cbn in Hm. destruct Hm as [<-|[<-|[]]]; reflexivity. }
  rewrite Hvs, run_validators_single in Hv.
  destruct (GenerateKeyResponse.set_model_info kwargs);
    [congruence|discriminate].
Qed.

(** X10. A [GenerateKeyResponse] or [NewUserResponse] built from keyword
    arguments whose [token] is a string takes that string as its [key],
    whether or not a [key] was given, and holds no [token]. *)
Theorem token_becomes_key
  (m : model) (kwargs r : gmap string pyval) (t : pystr) :
  In m key_response_models ->
  py_get kwargs "token" = PStr t ->
  construct m kwargs = Ok r ->
  r !! "key" = Some (PStr t) /\ r !! "token" = None.
Proof.
  intros Hm Ht Hr.
  destruct (construct_validated _ _ _ Hr) as [values Hv].
  pose proof (key_response_validated m _ _ Hm Hv) as Hs.
  unfold GenerateKeyResponse.set_model_info in Hs. rewrite Ht in Hs.
  cbn [is_none negb] in Hs.
  assert (Hkey : values !! "key" = Some (PStr t)).
  { rewrite (decode_dict_fields_frame _ _ _ "key" Hs).
    - unfold py_set. apply lookup_insert_eq.
    - left. cbn. intuition discriminate. }
  assert (Hnd : NoDup (field_names m)).
  { cbn in Hm. destruct Hm as [<-|[<-|[]]]; solve_nodup. }
  split.
  - eapply construct_supplied with (v := PStr t) (fd := req "key" TStr);
      [exact Hv | exact Hr | exact Hnd | | exact Hkey | reflexivity].
    cbn in Hm. destruct Hm as [<-|[<-|[]]]; reflexivity.
  - apply (construct_undeclared_ignored m kwargs); [|exact Hr|].
    + cbn in Hm. destruct Hm as [<-|[<-|[]]]; reflexivity.
    + cbn in Hm. destruct Hm as [<-|[<-|[]]]; cbn; intuition discriminate.
Qed.

Lemma token_becomes_key_witness :
  field_of (construct NewUserResponse.cls
              (kw [("token", PStr (lit "sk-fresh")); ("key", PStr (lit "old"));
                   ("expires", PNone)])) "key"
  = Some (PStr (lit "sk-fresh")).
Proof.
  assert (Hok :
    construct NewUserResponse.cls
      (kw [("token", PStr (lit "sk-fresh")); ("key", PStr (lit "old"));
           ("expires", PNone)]) =
    Ok (record_of
          (construct NewUserResponse.cls
             (kw [("token", PStr (lit "sk-fresh")); ("key", PStr (lit "old"));
                  ("expires", PNone)]))))
    by (apply is_ok_record_of; vm_compute; reflexivity).
  eapply field_of_ok; [exact Hok|].
  refine (proj1 (token_becomes_key NewUserResponse.cls
                   (kw [("token", PStr (lit "sk-fresh"));
                        ("key", PStr (lit "old")); ("expires", PNone)])
                   _ (lit "sk-fresh") _ eq_refl Hok)).
  right. left. reflexivity.
Defined.

(** X11. The validators of the key and team records touch nothing else: a
    key other than [key] that is not one of the listed text fields, or
    whose value is not a string, comes out of the validator as it went in;
    so a declared text field given as a mapping is the record's mapping. *)
Theorem text_validator_leaves_the_rest
  (rk : text_record) (kwargs values : gmap string pyval) (k : string) :
  run_validators (m_validators (text_record_model rk)) kwargs = Ok values ->
  k <> "key" ->
  ~ In k (text_fields rk) \/ (forall s, kwargs !! k <> Some (PStr s)) ->
  values !! k = kwargs !! k
  /\
  (forall d fd r,
     kwargs !! k = Some (PDict d) ->
     find_field k (m_fields (text_record_model rk)) = Some fd ->
     In k (text_fields rk) ->
     construct (text_record_model rk) kwargs = Ok r ->
     r !! k = Some (PDict d)).
Proof.
  intros Hv Hkey Hk.
  assert (Hin_eq : decoder_input rk kwargs !! k = kwargs !! k).
  { destruct rk; [|reflexivity]. unfold decoder_input.
    destruct (negb (is_none (py_get kwargs "token"))); [|reflexivity].
    unfold py_set. apply lookup_insert_ne. congruence. }
  assert (Hl : values !! k = kwargs !! k).
  { rewrite text_record_validators in Hv.
    destruct (decode_dict_fields (text_fields rk) (decoder_input rk kwargs))
      as [values'|e] eqn:Hd; [|discriminate].
    assert (values' = values) as -> by congruence.
    rewrite (decode_dict_fields_frame _ _ _ k Hd), Hin_eq; [reflexivity|].
    destruct Hk as [Hk|Hk]; [left; exact Hk|right].
    intros s. rewrite Hin_eq. apply Hk. }
  split; [exact Hl|].
  intros d fd r Hd Hfd Hin Hr.
  eapply construct_supplied with (v := PDict d);
    [exact Hv | exact Hr | destruct rk; solve_nodup | exact Hfd | | ].
  - rewrite Hl. exact Hd.
  - rewrite (text_field_type rk k fd Hin Hfd). apply validate_plain_dict.
Qed.

Lemma text_validator_leaves_the_rest_witness :
  field_of (construct LiteLLM_TeamTable.cls
              (kw [("team_id", PStr (lit "t1"));
                   ("metadata", PDict [(lit "tier", PInt 2)])])) "metadata"
  = Some (PDict [(lit "tier", PInt 2)]).
Proof.
  assert (Hok :
    construct (text_record_model TeamRecord)
      (kw [("team_id", PStr (lit "t1"));
           ("metadata", PDict [(lit "tier", PInt 2)])]) =
    Ok (record_of
          (construct (text_record_model TeamRecord)
             (kw [("team_id", PStr (lit "t1"));
                  ("metadata", PDict [(lit "tier", PInt 2)])]))))
    by (apply is_ok_record_of; vm_compute; reflexivity).
  destruct (construct_validated _ _ _ Hok) as [values Hv].
  eapply field_of_ok; [exact Hok|].
  refine (proj2 (text_validator_leaves_the_rest TeamRecord
                   (kw [("team_id", PStr (lit "t1"));
                        ("metadata", PDict [(lit "tier", PInt 2)])])
                   values "metadata" Hv _ _)
            [(lit "tier", PInt 2)] _ _ eq_refl eq_refl _ Hok).
  - discriminate.
  - right. intros s. vm_compute. discriminate.
  - left. reflexivity.
Defined.

(** *** Which field the error names *)

Lemma string_append_length (a b : string) :
  String.length (a +:+ b) = (String.length a + String.length b)%nat.
Proof. induction a as [|c a IH]; simpl; [reflexivity|]. rewrite IH. reflexivity. Qed.

Lemma string_append_inv_tail (x y s : string) :
  x +:+ s = y +:+ s -> x = y.
Proof.
  revert y. induction x as [|a x IH]; intros [|b y] H.
  - reflexivity.
  - apply (f_equal String.length) in H.
    rewrite !string_append_length in H. simpl in H. lia.
  - apply (f_equal String.length) in H.
    rewrite !string_append_length in H. simpl in H. lia.
  - simpl in H. injection H as -> H. f_equal. apply IH. exact H.
Qed.

Lemma malformed_message_inj (f f' : string) :
  "Field " +:+ f +:+ " should be a valid dictionary" =
  "Field " +:+ f' +:+ " should be a valid dictionary" -> f = f'.
Proof.
  intros H. simpl in H. injection H as H.
  change (f +:+ " should be a valid dictionary" =
          f' +:+ " should be a valid dictionary") in H.
  exact (string_append_inv_tail _ _ _ H).
Qed.

Lemma decode_dict_fields_lookup_later fs (values values' : gmap string pyval) k :
  decode_dict_fields fs values = Ok values' ->
  ~ In k fs -> values' !! k = values !! k.
Proof.
  intros Hd Hk. apply (decode_dict_fields_frame _ _ _ k Hd). left. exact Hk.
Qed.

(** The loop fails on [f] exactly when [f] is the first listed field that
    holds a string [json.loads] refuses. *)
Lemma decode_dict_fields_first_failure fs (values : gmap string pyval) f :
  NoDup fs ->
  decode_dict_fields fs values =
  Err (ValueError ("Field " +:+ f +:+ " should be a valid dictionary"))
  <->
  exists pre post,
    fs = pre ++ f :: post /\ undecodable values f /\
    forall f', In f' pre -> ~ undecodable values f'.
Proof.
  revert values. induction fs as [|f0 fs IH]; intros values Hnd.
  - split; [discriminate|]. intros (pre & post & H & _).
    destruct pre; discriminate.
  - apply NoDup_cons in Hnd as [Hnotin Hnd].
    assert (Hnotin' : ~ In f0 fs)
      by (intros H; apply Hnotin; apply list_elem_of_In; exact H).
    assert (Hstep : forall values1 : gmap string pyval,
      (forall k, k <> f0 -> values1 !! k = values !! k) ->
      ~ undecodable values f0 ->
      (decode_dict_fields fs values1 =
       Err (ValueError ("Field " +:+ f +:+ " should be a valid dictionary"))
       <->
       exists pre post,
         f0 :: fs = pre ++ f :: post /\ undecodable values f /\
         forall f', In f' pre -> ~ undecodable values f')).
    { intros values1 Hsame Hf0. rewrite (IH values1 Hnd). split.
      - intros (pre & post & -> & (s & Hs & Hl) & Hpre).
        assert (f <> f0) as Hne.
        { intros ->. apply Hnotin'. apply in_or_app. right. left. reflexivity. }
        exists (f0 :: pre), post. split; [reflexivity|]. split.
        + exists s. rewrite <- Hsame by exact Hne. split; assumption.
        + intros f' [<-|Hin]; [exact Hf0|].
          intros (s' & Hs' & Hl'). apply (Hpre f' Hin). exists s'.
          rewrite Hsame; [split; assumption|].
          intros ->. apply Hnotin'. apply in_or_app. left. exact Hin.
      - intros (pre & post & Heq & (s & Hs & Hl) & Hpre).
        destruct pre as [|p pre]; cbn [app] in Heq.
        + exfalso. apply Hf0. injection Heq as <- _. exists s. split; assumption.
        + injection Heq as <- ->.
          assert (f <> f0) as Hne.
          { intros ->. apply Hnotin'. apply in_or_app. right. left. reflexivity. }
          exists pre, post. split; [reflexivity|]. split.
          * exists s. rewrite Hsame by exact Hne. split; assumption.
          * intros f' Hin (s' & Hs' & Hl'). apply (Hpre f'); [right; exact Hin|].
            exists s'. rewrite <- Hsame; [split; assumption|].
            intros ->. apply Hnotin'. apply in_or_app. left. exact Hin. }
    cbn [decode_dict_fields].
    destruct (py_get values f0) as [| | | |w| |] eqn:Hf0;
      try (apply Hstep; [reflexivity|];
           intros (s & Hs & _); apply py_get_PStr in Hs; congruence).
    destruct (Json.json_loads w) as [d|] eqn:Hw.
    + apply Hstep.
      * intros k Hk. unfold py_set. apply lookup_insert_ne. congruence.
      * intros (s & Hs & Hl). apply py_get_PStr in Hs.
        assert (s = w) as -> by congruence. congruence.
    + split.
      * intros H. assert (f0 = f) as ->.
        { apply malformed_message_inj. congruence. }
        exists [], fs. split; [reflexivity|]. split.
        -- exists w. split; [apply py_get_PStr; exact Hf0|exact Hw].
        -- intros f' [].
      * intros (pre & post & Heq & (s & Hs & Hl) & Hpre).
        destruct pre as [|p pre]; cbn [app] in Heq.
        -- injection Heq as <- _. reflexivity.
        -- exfalso. injection Heq as <- _. apply (Hpre f0); [left; reflexivity|].
           exists w. split; [apply py_get_PStr; exact Hf0|exact Hw].
Qed.

(** X12. Construction of a key or team record fails with "Field f should
    be a valid dictionary" exactly when [f] is the first of the listed
    fields, in the order of the list, that holds a string [json.loads]
    refuses. *)
Theorem first_undecodable_field_is_named
  (rk : text_record) (kwargs : gmap string pyval) (f : string) :
  construct (text_record_model rk) kwargs = Err (malformed_field f)
  <->
  exists pre post,
    text_fields rk = pre ++ f :: post /\ undecodable kwargs f /\
    forall f', In f' pre -> ~ undecodable kwargs f'.
Proof.
  assert (Hundec : forall k, In k (text_fields rk) ->
            (undecodable (decoder_input rk kwargs) k <-> undecodable kwargs k)).
  { intros k Hin. unfold undecodable.
    rewrite (decoder_input_lookup rk kwargs k Hin). reflexivity. }
  assert (Hc : construct (text_record_model rk) kwargs = Err (malformed_field f)
               <-> decode_dict_fields (text_fields rk) (decoder_input rk kwargs)
                   = Err (ValueError
                            ("Field " +:+ f +:+ " should be a valid dictionary"))).
  { unfold construct. rewrite text_record_validators.
    destruct (decode_dict_fields (text_fields rk) (decoder_input rk kwargs))
      as [values|e] eqn:Hd; cbn [bind].
    - split; [|discriminate].
      destruct (collect_fields values (m_fields (text_record_model rk)))
        as [fs|e] eqn:Hfs; cbn [bind].
      + destruct (m_extra (text_record_model rk)); discriminate.
      + intros H. exfalso. unfold malformed_field in H.
        injection H as ->. exact (collect_fields_no_rule _ _ _ Hfs).
    - unfold malformed_field. split.
      + destruct e; cbn [wrap_exception]; intros H; try discriminate.
        injection H as ->. reflexivity.
      + intros H. injection H as ->. reflexivity. }
  rewrite Hc, (decode_dict_fields_first_failure _ _ f (text_fields_nodup rk)).
  split; intros (pre & post & Heq & Hf & Hpre); exists pre, post;
    (split; [exact Heq|]); split.
  - apply Hundec; [|exact Hf]. rewrite Heq. apply in_or_app. right. left.
    reflexivity.
  - intros f' Hin H. apply (Hpre f' Hin). apply Hundec; [|exact H].
    rewrite Heq. apply in_or_app. left. exact Hin.
  - apply Hundec; [|exact Hf]. rewrite Heq. apply in_or_app. right. left.
    reflexivity.
  - intros f' Hin H. apply (Hpre f' Hin). apply Hundec; [|exact H].
    rewrite Heq. apply in_or_app. left. exact Hin.
Qed.

(** ** Defaults that survive in the update requests *)

Lemma update_request_validated u (kwargs values : gmap string pyval) :
  run_validators (m_validators (update_model u)) kwargs = Ok values ->
  values = kwargs.
Proof.
  destruct u; intros Hv.
  - change (@Ok construct_error _ kwargs = Ok values) in Hv. congruence.
  - change (run_validators [user_id_or_email] kwargs = Ok values) in Hv.
    rewrite run_validators_single in Hv. unfold user_id_or_email in Hv.
    destruct (is_none (py_get kwargs "user_id")
              && is_none (py_get kwargs "user_email"));
      [discriminate|congruence].
Qed.

(** X13. An update request fills in more than [None]: built without them,
    an [UpdateKeyRequest] holds empty lists for [models] and
    [allowed_cache_controls] and empty mappings for [aliases], [config],
    [permissions] and [model_max_budget], an [UpdateUserRequest] holds the
    two empty lists; every other field that is left out is [None]. *)
Theorem update_request_omitted_fields
  (u : update_request) (kwargs r : gmap string pyval) (f : string) (d : pyval) :
  construct (update_model u) kwargs = Ok r ->
  In (f, d) (update_when_omitted u) ->
  kwargs !! f = None ->
  r !! f = Some d.
Proof.
  intros Hr Hin Hf.
  destruct (construct_validated _ _ _ Hr) as [values Hv].
  pose proof (update_request_validated u _ _ Hv) as ->.
  destruct u; cbn [update_when_omitted] in Hin;
    repeat (destruct Hin as [[= <- <-] | Hin];
            [eapply construct_omitted;
             [exact Hv | exact Hr | solve_nodup | reflexivity | reflexivity
             | exact Hf]|]);
    destruct Hin.
Qed.

Lemma update_request_omitted_fields_witness :
  field_of (construct UpdateKeyRequest.cls
              (kw [("key", PStr (lit "sk-1")); ("max_budget", PFloat 5)]))
    "model_max_budget"
  = Some (PDict [])
  /\
  field_of (construct UpdateKeyRequest.cls
              (kw [("key", PStr (lit "sk-1")); ("max_budget", PFloat 5)]))
    "metadata"
  = Some PNone.
Proof.
  assert (Hok :
    construct (update_model UpdateKey)
      (kw [("key", PStr (lit "sk-1")); ("max_budget", PFloat 5)]) =
    Ok (record_of
          (construct (update_model UpdateKey)
             (kw [("key", PStr (lit "sk-1")); ("max_budget", PFloat 5)]))))
    by (apply is_ok_record_of; vm_compute; reflexivity).
  split; eapply field_of_ok; try exact Hok.
  - apply (update_request_omitted_fields UpdateKey _ _ _ _ Hok);
      [cbn; auto 20|reflexivity].
  - apply (update_request_omitted_fields UpdateKey _ _ _ _ Hok);
      [cbn; auto 20|reflexivity].
Defined.

(** ** A [spend] given as [None] *)

Lemma collect_fields_all_ok values fds fs :
  collect_fields values fds = Ok fs ->
  forall fd, In fd fds -> exists v, field_value values fd = Ok v.
Proof.
  revert fs. induction fds as [|fd0 fds IH]; intros fs Hc fd Hin.
  - destruct Hin.
  - cbn [collect_fields] in Hc.
    destruct (field_value values fd0) as [v0|e] eqn:Hv0; [|discriminate].
    cbn [bind] in Hc.
    destruct (collect_fields values fds) as [rest|e] eqn:Hrest; [|discriminate].
    destruct Hin as [<-|Hin]; [eauto|]. exact (IH rest eq_refl fd Hin).
Qed.

Lemma collect_fields_invalid values fds e :
  (forall fd, In fd fds -> f_default fd <> None) ->
  collect_fields values fds = Err e ->
  exists f, e = ValidationError (InvalidField f).
Proof.
  induction fds as [|fd fds IH]; intros Hd Hc; [discriminate|].
  cbn [collect_fields] in Hc. unfold field_value in Hc.
  destruct (values !! f_name fd) as [v|].
  - destruct (validate_ty (f_type fd) v); cbn [bind] in Hc.
    + destruct (collect_fields values fds) as [rest|e'] eqn:Hrest;
        [discriminate|].
      cbn [bind] in Hc. assert (e' = e) as -> by congruence.
      apply IH; [|reflexivity]. intros fd' Hin. apply Hd. right. exact Hin.
    + exists (f_name fd). congruence.
  - destruct (f_default fd) eqn:Hdef.
    + cbn [bind] in Hc.
      destruct (collect_fields values fds) as [rest|e'] eqn:Hrest;
        [discriminate|].
      cbn [bind] in Hc. assert (e' = e) as -> by congruence.
      apply IH; [|reflexivity]. intros fd' Hin. apply Hd. right. exact Hin.
    + exfalso. apply (Hd fd); [left; reflexivity|exact Hdef].
Qed.

(** X14. A [spend] passed as [None] is not treated alike by the four
    records: a user and an end-user record turn it into 0.0, a team record
    keeps [None], and a key record cannot be built from it: construction
    fails with a [ValidationError] for a field that does not pass its
    annotation. *)
Theorem spend_given_as_none (i : identity_record) (kwargs : gmap string pyval) :
  kwargs !! "spend" = Some PNone ->
  match i with
  | User | EndUser =>
      forall r, construct (record_model i) kwargs = Ok r ->
                r !! "spend" = Some (PFloat 0)
  | Team =>
      forall r, construct (record_model i) kwargs = Ok r ->
                r !! "spend" = Some PNone
  | Key =>
      exists f, construct (record_model i) kwargs =
                Err (ValidationError (InvalidField f))
  end.
Proof.
  intros Hs.
  assert (Hget : py_get kwargs "spend" = PNone)
    by (unfold py_get; rewrite Hs; reflexivity).
  destruct i.
  - (* key *)
    unfold construct. cbn [record_model m_validators LiteLLM_VerificationToken.cls
                           run_validators bind].
    destruct (collect_fields kwargs (m_fields LiteLLM_VerificationToken.cls))
      as [fs|e] eqn:Hfs.
    + exfalso.
      destruct (collect_fields_all_ok _ _ _ Hfs (dflt "spend" TFloat (PFloat 0)))
        as [v Hv]; [cbn; auto 10|].
      unfold field_value in Hv. cbn [f_name f_type dflt] in Hv.
      rewrite Hs in Hv. discriminate.
    + cbn [bind].
      assert (Hdef : forall fd, In fd (m_fields LiteLLM_VerificationToken.cls) ->
                                f_default fd <> None).
      { intros fd Hin.
        assert (forallb (fun fd => match f_default fd with
                                   | Some _ => true
                                   | None => false
                                   end)
                  (m_fields LiteLLM_VerificationToken.cls) = true) as H
          by (vm_compute; reflexivity).
        rewrite forallb_forall in H. specialize (H fd Hin).
        destruct (f_default fd); [discriminate|discriminate H]. }
      destruct (collect_fields_invalid _ _ _ Hdef Hfs) as [f ->]. eauto.
  - (* user *)
    intros r Hr. destruct (construct_validated _ _ _ Hr) as [values Hv].
    eapply construct_supplied with (v := PFloat 0);
      [exact Hv | exact Hr | solve_nodup | reflexivity | | reflexivity].
    change (run_validators [LiteLLM_UserTable.set_model_info] kwargs = Ok values)
      in Hv.
    rewrite run_validators_single in Hv.
    unfold LiteLLM_UserTable.set_model_info in Hv. rewrite Hget in Hv.
    cbn [is_none] in Hv.
    destruct (is_none (py_get (py_set kwargs "spend" (PFloat 0)) "models")).
    + assert (values = py_set (py_set kwargs "spend" (PFloat 0)) "models" (PList []))
        as -> by congruence.
      unfold py_set. rewrite lookup_insert_ne by discriminate.
      apply lookup_insert_eq.
    + assert (values = py_set kwargs "spend" (PFloat 0)) as -> by congruence.
      unfold py_set. apply lookup_insert_eq.
  - (* end user *)
    intros r Hr. destruct (construct_validated _ _ _ Hr) as [values Hv].
    eapply construct_supplied with (v := PFloat 0);
      [exact Hv | exact Hr | solve_nodup | reflexivity | | reflexivity].
    change (run_validators [LiteLLM_EndUserTable.set_model_info] kwargs = Ok values)
      in Hv.
    rewrite run_validators_single in Hv.
    unfold LiteLLM_EndUserTable.set_model_info in Hv. rewrite Hget in Hv.
    cbn [is_none] in Hv.
    assert (values = py_set kwargs "spend" (PFloat 0)) as -> by congruence.
    unfold py_set. apply lookup_insert_eq.
  - (* team *)
    intros r Hr. destruct (construct_validated _ _ _ Hr) as [values Hv].
    eapply construct_supplied with (v := PNone);
      [exact Hv | exact Hr | solve_nodup | reflexivity | | reflexivity].
    change (run_validators (m_validators (text_record_model TeamRecord)) kwargs
            = Ok values) in Hv.
    rewrite text_record_validators in Hv.
    destruct (decode_dict_fields (text_fields TeamRecord)
                (decoder_input TeamRecord kwargs)) as [values'|e] eqn:Hd;
      [|discriminate].
    assert (values' = values) as -> by congruence.
    rewrite (decode_dict_fields_frame _ _ _ "spend" Hd); [exact Hs|].
    left. cbn. intuition discriminate.
Qed.

Lemma spend_given_as_none_witness :
  field_of (construct LiteLLM_UserTable.cls
              (kw [("user_id", PStr (lit "u1")); ("max_budget", PNone);
                   ("user_email", PNone); ("spend", PNone)])) "spend"
  = Some (PFloat 0)
  /\
  exists f,
    construct LiteLLM_VerificationToken.cls (kw [("spend", PNone)])
    = Err (ValidationError (InvalidField f)).
Proof.
  split.
  - assert (Hok :
      construct (record_model User)
        (kw [("user_id", PStr (lit "u1")); ("max_budget", PNone);
             ("user_email", PNone); ("spend", PNone)]) =
      Ok (record_of
            (construct (record_model User)
               (kw [("user_id", PStr (lit "u1")); ("max_budget", PNone);
                    ("user_email", PNone); ("spend", PNone)]))))
      by (apply is_ok_record_of; vm_compute; reflexivity).
    eapply field_of_ok; [exact Hok|].
    exact (spend_given_as_none User
             (kw [("user_id", PStr (lit "u1")); ("max_budget", PNone);
                  ("user_email", PNone); ("spend", PNone)]) eq_refl _ Hok).
  - exact (spend_given_as_none Key (kw [("spend", PNone)]) eq_refl).
Defined.

Lemma validate_float_is_float v v' :
  validate_ty TFloat v = Some v' -> exists x, v' = PFloat x.
Proof.
  destruct v as [| |z|x| | |]; intros H; try discriminate H.
  - change ((if PrimFloat.is_infinity (float_of_Z z)
             then None else Some (PFloat (float_of_Z z))) = Some v') in H.
    destruct (PrimFloat.is_infinity (float_of_Z z)); [discriminate H|].
    exists (float_of_Z z). congruence.
  - exists x. change (Some (PFloat x) = Some v') in H. congruence.
Qed.



(** ** The JWT-auth profile *)

Lemma LiteLLM_JWTAuth_init_ok (kwargs r : gmap string pyval) :
  LiteLLM_JWTAuth.init kwargs = Ok r ->
  construct LiteLLM_JWTAuth.cls kwargs = Ok r.
Proof.
  unfold LiteLLM_JWTAuth.init.
  destruct (bool_decide (dom kwargs ∖ LiteLLM_JWTAuth.allowed_keys = ∅));
    [auto|discriminate].
Qed.

Lemma all_some_map_literal choices l l' :
  all_some (map (validate_ty (TLiteral choices)) l) = Some l' ->
  l' = l /\
  Forall (fun v => exists n, In n choices /\ v = PStr (lit n)) l.
Proof.
  revert l'. induction l as [|v l IH]; intros l' H;
    cbn [map all_some validate_ty] in H.
  - split; [congruence|constructor].
  - destruct v as [| | | |s| |]; try discriminate.
    destruct (existsb (fun c => pystr_eqb (lit c) s) choices) eqn:Hex;
      [|discriminate].
    change (option_map (cons (PStr s))
              (all_some (map (validate_ty (TLiteral choices)) l)) = Some l') in H.
    destruct (all_some (map (validate_ty (TLiteral choices)) l)) as [rest|] eqn:Hrest;
      [|discriminate].
    destruct (IH rest eq_refl) as [-> Hall].
    cbn in H. split; [congruence|]. constructor; [|exact Hall].
    apply existsb_exists in Hex as (n & Hin & Heq).
    apply JsonFacts.pystr_eqb_eq in Heq. exists n. split; [exact Hin|congruence].
Qed.

(** X15. A JWT-auth profile only ever holds, in [admin_allowed_routes] and
    in [team_allowed_routes], names its annotation lists (five for admins,
    three for teams), kept in the order given; and each of these names is
    a member of [LiteLLMRoutes] with at least one route. *)
Theorem jwt_allow_lists_hold_route_groups
  (kwargs r : gmap string pyval) (field : string) (choices : list string)
  (l : list pyval) :
  LiteLLM_JWTAuth.init kwargs = Ok r ->
  In (field, choices) jwt_route_choices ->
  kwargs !! field = Some (PList l) ->
  r !! field = Some (PList l) /\
  Forall (fun v => exists n, In n choices /\ v = PStr (lit n) /\
                             LiteLLMRoutes.by_name (lit n) <> []) l.
Proof.
  intros Hinit Hin Hl. apply LiteLLM_JWTAuth_init_ok in Hinit.
  assert (Hv : run_validators (m_validators LiteLLM_JWTAuth.cls) kwargs = Ok kwargs)
    by reflexivity.
  assert (Hnd : NoDup (field_names LiteLLM_JWTAuth.cls)) by solve_nodup.
  assert (Hgroups : forall n, In n choices -> LiteLLMRoutes.by_name (lit n) <> []).
  { intros n Hn. cbn in Hin.
    destruct Hin as [[= <- <-]|[[= <- <-]|[]]]; cbn in Hn;
      repeat (destruct Hn as [<-|Hn]; [vm_compute; discriminate|]);
      destruct Hn. }
  assert (exists fd, find_field field (m_fields LiteLLM_JWTAuth.cls) = Some fd /\
                     f_type fd = TList (TLiteral choices)) as (fd & Hfd & Hty).
  { cbn in Hin. destruct Hin as [[= <- <-]|[[= <- <-]|[]]];
      eexists; (split; [reflexivity|reflexivity]). }
  apply find_field_In in Hfd as [Hfd Hname].
  destruct (construct_field _ _ _ _ _ Hv Hinit Hnd Hfd) as (v & Hfv & Hr).
  rewrite Hname in Hr. unfold field_value in Hfv. rewrite Hname, Hl, Hty in Hfv.
  change (match option_map PList
                  (all_some (map (validate_ty (TLiteral choices)) l)) with
          | Some v' => Ok v'
          | None => Err (ValidationError (InvalidField field))
          end = Ok v) in Hfv.
  destruct (all_some (map (validate_ty (TLiteral choices)) l)) as [l'|] eqn:Hall;
    [|cbn in Hfv; discriminate Hfv].
  destruct (all_some_map_literal _ _ _ Hall) as [-> Hnames].
  cbn [option_map] in Hfv. split; [congruence|].
  eapply Forall_impl; [exact Hnames|].
  intros w (n & Hn & ->). exists n. auto.
Qed.

Lemma jwt_allow_lists_hold_route_groups_witness :
  field_of (LiteLLM_JWTAuth.init
              (kw [("team_allowed_routes",
                    PList [PStr (lit "management_routes");
                           PStr (lit "openai_routes")])]))
    "team_allowed_routes"
  = Some (PList [PStr (lit "management_routes"); PStr (lit "openai_routes")]).
Proof.
  assert (Hok :
    LiteLLM_JWTAuth.init
      (kw [("team_allowed_routes",
            PList [PStr (lit "management_routes"); PStr (lit "openai_routes")])]) =
    Ok (record_of
          (LiteLLM_JWTAuth.init
             (kw [("team_allowed_routes",
                   PList [PStr (lit "management_routes");
                          PStr (lit "openai_routes")])]))))
    by (apply is_ok_record_of; vm_compute; reflexivity).
  eapply field_of_ok; [exact Hok|].
  refine (proj1 (jwt_allow_lists_hold_route_groups
                   (kw [("team_allowed_routes",
                         PList [PStr (lit "management_routes");
                                PStr (lit "openai_routes")])])
                   _ "team_allowed_routes" _ _ Hok _ eq_refl)).
  right. left. reflexivity.
Defined.

(** X16. A JWT-auth profile built without a field holds the declared
    default: the scope [litellm_proxy_admin], the four admin groups
    (management, spend tracking, global spend tracking, info), the two team
    groups (openai, info), no upsert, a key lifetime of 600 kept as the
    integer it is written as, and [None] for every JWT field name. *)
Theorem jwt_profile_defaults
  (kwargs r : gmap string pyval) (f : string) (d : pyval) :
  LiteLLM_JWTAuth.init kwargs = Ok r ->
  In (f, d) jwt_when_omitted ->
  kwargs !! f = None ->
  r !! f = Some d.
Proof.
  intros Hinit Hin Hf. apply LiteLLM_JWTAuth_init_ok in Hinit.
  assert (Hv : run_validators (m_validators LiteLLM_JWTAuth.cls) kwargs = Ok kwargs)
    by reflexivity.
  cbn [jwt_when_omitted] in Hin.
  repeat (destruct Hin as [[= <- <-] | Hin];
          [eapply construct_omitted;
           [exact Hv | exact Hinit | solve_nodup | reflexivity | reflexivity
           | exact Hf]|]).
  destruct Hin.
Qed.

Lemma jwt_profile_defaults_witness :
  field_of (LiteLLM_JWTAuth.init (kw [("team_id_jwt_field", PStr (lit "client_id"))]))
    "admin_allowed_routes"
  = Some (PList [PStr (lit "management_routes"); PStr (lit "spend_tracking_routes");
                 PStr (lit "global_spend_tracking_routes"); PStr (lit "info_routes")]).
Proof.
  assert (Hok :
    LiteLLM_JWTAuth.init (kw [("team_id_jwt_field", PStr (lit "client_id"))]) =
    Ok (record_of
          (LiteLLM_JWTAuth.init
             (kw [("team_id_jwt_field", PStr (lit "client_id"))]))))
    by (apply is_ok_record_of; vm_compute; reflexivity).
  eapply field_of_ok; [exact Hok|].
  apply (jwt_profile_defaults _ _ _ _ Hok); [|reflexivity].
  cbn. auto.
Defined.

(** ** What every [Member] satisfies *)

(** X17. Every [Member] record has the role [admin] or [user], and a
    [user_id] or a [user_email] that is not [None]. *)
Theorem member_record_invariant (kwargs r : gmap string pyval) :
  construct Member.cls kwargs = Ok r ->
  (r !! "role" = Some (PStr (lit "admin")) \/
   r !! "role" = Some (PStr (lit "user")))
  /\
  ~ (r !! "user_id" = Some PNone /\ r !! "user_email" = Some PNone).
Proof.
  intros Hr.
  destruct (construct_validated _ _ _ Hr) as [values Hv].
  assert (Hnd : NoDup (field_names Member.cls)) by solve_nodup.
  assert (Hrule : user_id_or_email kwargs = Ok values).
  { change (run_validators [user_id_or_email] kwargs = Ok values) in Hv.
    rewrite run_validators_single in Hv.
    destruct (user_id_or_email kwargs); [congruence|discriminate]. }
  unfold user_id_or_email in Hrule.
  destruct (is_none (py_get kwargs "user_id")
            && is_none (py_get kwargs "user_email")) eqn:Hboth;
    [discriminate|].
  assert (values = kwargs) as -> by congruence.
  split.
  - destruct (construct_field _ _ _ _ (req "role" (TLiteral ["admin"; "user"]))
                Hv Hr Hnd) as (v & Hfv & Hl); [cbn; auto|].
    cbn [f_name req] in Hl. rewrite Hl.
    unfold field_value in Hfv. cbn [f_name f_type f_default req] in Hfv.
    destruct (kwargs !! "role") as [w|]; [|discriminate].
    destruct w as [| | | |s| |]; try discriminate.
    cbn [validate_ty existsb] in Hfv.
    destruct (pystr_eqb (lit "admin") s) eqn:Ha.
    + apply JsonFacts.pystr_eqb_eq in Ha. left. cbn in Hfv. congruence.
    + destruct (pystr_eqb (lit "user") s) eqn:Hu; [|discriminate].
      apply JsonFacts.pystr_eqb_eq in Hu. right. cbn in Hfv. congruence.
  - intros [Hid Hmail].
    destruct (construct_field _ _ _ _ (opt "user_id" TStr) Hv Hr Hnd)
      as (v1 & Hfv1 & Hl1); [cbn; auto|].
    destruct (construct_field _ _ _ _ (opt "user_email" TStr) Hv Hr Hnd)
      as (v2 & Hfv2 & Hl2); [cbn; auto|].
    cbn [f_name opt] in Hl1, Hl2.
    assert (v1 = PNone) as -> by congruence.
    assert (v2 = PNone) as -> by congruence.
    apply field_value_optional_none in Hfv1; [|right; reflexivity].
    apply field_value_optional_none in Hfv2; [|right; reflexivity].
    cbn [is_none] in Hfv1, Hfv2. rewrite <- Hfv1, <- Hfv2 in Hboth.
    discriminate.
Qed.

Lemma member_record_invariant_witness :
  field_of (construct Member.cls
              (kw [("role", PStr (lit "user")); ("user_id", PStr (lit "u1"))]))
    "role"
  = Some (PStr (lit "admin")) \/
  field_of (construct Member.cls
              (kw [("role", PStr (lit "user")); ("user_id", PStr (lit "u1"))]))
    "role"
  = Some (PStr (lit "user")).
Proof.
  assert (Hok :
    construct Member.cls
      (kw [("role", PStr (lit "user")); ("user_id", PStr (lit "u1"))]) =
    Ok (record_of
          (construct Member.cls
             (kw [("role", PStr (lit "user")); ("user_id", PStr (lit "u1"))]))))
    by (apply is_ok_record_of; vm_compute; reflexivity).
  destruct (proj1 (member_record_invariant _ _ Hok)) as [H|H];
    [left|right]; eapply field_of_ok; eauto.
Defined.

(** ** Building a record again from its own fields *)

Lemma all_some_map_fixpoint {A} (f : A -> option A) l l' :
  (forall x y, In x l -> f x = Some y -> f y = Some y) ->
  all_some (map f l) = Some l' ->
  all_some (map f l') = Some l'.
Proof.
  revert l'. induction l as [|x l IH]; intros l' Hf H; cbn [map all_some] in H.
  - assert (l' = []) as -> by congruence. reflexivity.
  - destruct (f x) as [y|] eqn:Hx; [|discriminate].
    destruct (all_some (map f l)) as [rest|] eqn:Hrest; [|discriminate].
    cbn [option_map] in H. assert (l' = y :: rest) as -> by congruence.
    cbn [map all_some]. rewrite (Hf x y (or_introl eq_refl) Hx).
    rewrite (IH rest); [reflexivity| |reflexivity].
    intros x' y' Hin. apply Hf. right. exact Hin.
Qed.

(** A value that passed an annotation passes it again, unchanged. *)
Lemma validate_ty_fixpoint t v v' :
  validate_ty t v = Some v' -> validate_ty t v' = Some v'.
Proof.
  revert v v'.
  induction t as [| | | | | | n |choices|elt IH|key IHk val IHv|t IH];
    intros v v' H.
  - cbn in H. assert (v' = v) as -> by congruence. reflexivity.
  - destruct v; try discriminate H. cbn in H.
    assert (v' = PStr s) as -> by congruence. reflexivity.
  - destruct v; try discriminate H. cbn in H.
    assert (v' = PInt z) as -> by congruence. reflexivity.
  - destruct (validate_float_is_float _ _ H) as [x ->]. reflexivity.
  - destruct v; try discriminate H. cbn in H.
    assert (v' = PBool b) as -> by congruence. reflexivity.
  - discriminate H.
  - discriminate H.
  - destruct v as [| | | |s| |]; try discriminate H.
    cbn [validate_ty] in H |- *.
    destruct (existsb (fun c => pystr_eqb (lit c) s) choices) eqn:Hex;
      [|discriminate H].
    assert (v' = PStr s) as -> by congruence. rewrite Hex. reflexivity.
  - destruct v as [| | | | |l|]; try discriminate H.
    change (option_map PList (all_some (map (validate_ty elt) l)) = Some v') in H.
    destruct (all_some (map (validate_ty elt) l)) as [l'|] eqn:Hl;
      [|discriminate H].
    cbn [option_map] in H. assert (v' = PList l') as -> by congruence.
    change (option_map PList (all_some (map (validate_ty elt) l')) = Some (PList l')).
    rewrite (all_some_map_fixpoint _ l l'); [reflexivity| |exact Hl].
    intros x y _. apply IH.
  - destruct v as [| | | | | |d]; try discriminate H.
    set (g := fun kv : pystr * pyval =>
                match validate_ty key (PStr (fst kv)),
                      validate_ty val (snd kv) with
                | Some (PStr k'), Some w => Some (k', w)
                | _, _ => None
                end).
    change (option_map PDict (all_some (map g d)) = Some v') in H.
    destruct (all_some (map g d)) as [d'|] eqn:Hd; [|discriminate H].
    cbn [option_map] in H. assert (v' = PDict d') as -> by congruence.
    change (option_map PDict (all_some (map g d')) = Some (PDict d')).
    rewrite (all_some_map_fixpoint g d d'); [reflexivity| |exact Hd].
    intros [k w] [k' w'] _. unfold g. cbn [fst snd].
    destruct (validate_ty key (PStr k)) as [[| | | |k1| |]|] eqn:Hk;
      try discriminate.
    destruct (validate_ty val w) as [w1|] eqn:Hw; [|discriminate].
    intros Heq. assert (k1 = k') as -> by congruence.
    assert (w1 = w') as -> by congruence.
    rewrite (IHk _ _ Hk), (IHv _ _ Hw). reflexivity.
  - destruct v; cbn [validate_ty] in H;
      try (assert (v' = PNone) as -> by congruence; reflexivity);
      (destruct v'; [reflexivity|..]; cbn [validate_ty]; eapply IH; exact H).
Qed.

Lemma collect_fields_ext (values1 values2 : gmap string pyval) fds :
  (forall fd, In fd fds -> field_value values2 fd = field_value values1 fd) ->
  collect_fields values2 fds = collect_fields values1 fds.
Proof.
  induction fds as [|fd fds IH]; intros H; [reflexivity|].
  cbn [collect_fields]. rewrite (H fd (or_introl eq_refl)), IH; [reflexivity|].
  intros fd' Hin. apply H. right. exact Hin.
Qed.

(** The fields collected from a record that was collected from [values]
    are the record's own, when the declared defaults pass their
    annotations unchanged. *)
Lemma collect_fields_again (values : gmap string pyval) fds fs :
  NoDup (map f_name fds) ->
  (forall fd d, In fd fds -> f_default fd = Some d ->
                validate_ty (f_type fd) d = Some d) ->
  collect_fields values fds = Ok fs ->
  collect_fields (list_to_map fs) fds = Ok fs.
Proof.
  intros Hnd Hdef Hc. rewrite <- Hc. apply collect_fields_ext.
  intros fd Hin.
  destruct (collect_fields_lookup _ _ _ Hc Hnd fd Hin) as (v & Hfv & Hl).
  rewrite Hfv. unfold field_value in *. rewrite Hl.
  destruct (values !! f_name fd) as [w|].
  - destruct (validate_ty (f_type fd) w) as [w'|] eqn:Hw; [|discriminate].
    assert (w' = v) as -> by congruence.
    rewrite (validate_ty_fixpoint _ _ _ Hw). reflexivity.
  - destruct (f_default fd) as [d|] eqn:Hd; [|discriminate].
    assert (d = v) as -> by congruence.
    rewrite (Hdef fd v Hin Hd). reflexivity.
Qed.

Lemma decode_dict_fields_noop fs (values : gmap string pyval) :
  (forall f s, In f fs -> values !! f <> Some (PStr s)) ->
  decode_dict_fields fs values = Ok values.
Proof.
  induction fs as [|f fs IH]; intros H; [reflexivity|].
  cbn [decode_dict_fields].
  destruct (py_get values f) as [| | | |w| |] eqn:Hf;
    try (apply IH; intros f' s Hin; apply H; right; exact Hin).
  exfalso. apply (H f w); [left; reflexivity|]. apply py_get_PStr. exact Hf.
Qed.

Lemma construct_shape m (kwargs r : gmap string pyval) :
  m_extra m = ExtraIgnore ->
  construct m kwargs = Ok r ->
  exists values fs,
    run_validators (m_validators m) kwargs = Ok values /\
    collect_fields values (m_fields m) = Ok fs /\
    r = list_to_map fs.
Proof.
  intros He Hr. unfold construct in Hr.
  destruct (run_validators (m_validators m) kwargs) as [values|e] eqn:Hv;
    [|discriminate].
  cbn [bind] in Hr.
  destruct (collect_fields values (m_fields m)) as [fs|e] eqn:Hfs;
    [|discriminate].
  cbn [bind] in Hr. rewrite He in Hr.
  exists values, fs. split; [reflexivity|]. split; [exact Hfs|congruence].
Qed.

Lemma construct_from_shape m (r : gmap string pyval) fs :
  m_extra m = ExtraIgnore ->
  run_validators (m_validators m) r = Ok r ->
  collect_fields r (m_fields m) = Ok fs ->
  r = list_to_map fs ->
  construct m r = Ok r.
Proof.
  intros He Hv Hc Hr. unfold construct. rewrite Hv. cbn [bind].
  rewrite Hc. cbn [bind]. rewrite He. congruence.
Qed.

Lemma optional_dict_not_str values n v (s : pystr) :
  field_value values (opt n plain_dict) = Ok v -> v <> PStr s.
Proof.
  unfold field_value. cbn [f_name f_type f_default opt].
  destruct (values !! n) as [w|].
  - destruct w as [| | | | | |d]; cbn [validate_ty plain_dict];
      try discriminate; try congruence.
    destruct (all_some _) as [d'|]; cbn [option_map]; [congruence|discriminate].
  - congruence.
Qed.

Lemma plain_list_is_list values n d v :
  field_value values (dflt n plain_list (PList d)) = Ok v ->
  exists l, v = PList l.
Proof.
  unfold field_value. cbn [f_name f_type f_default dflt].
  destruct (values !! n) as [w|].
  - destruct w as [| | | | |l|]; cbn [validate_ty plain_list];
      try discriminate.
    destruct (all_some _) as [l'|]; cbn [option_map]; [|discriminate].
    intros H. exists l'. congruence.
  - intros H. exists d. congruence.
Qed.

Lemma spend_field_float values v :
  field_value values (dflt "spend" TFloat (PFloat 0)) = Ok v ->
  exists x, v = PFloat x.
Proof.
  unfold field_value. cbn [f_name f_type f_default dflt].
  destruct (values !! "spend") as [w|].
  - destruct (validate_ty TFloat w) as [w'|] eqn:Hw; [|discriminate].
    destruct (validate_float_is_float _ _ Hw) as [x ->].
    intros H. exists x. congruence.
  - intros H. exists 0%float. congruence.
Qed.

Lemma identity_record_defaults_conform i fd d :
  In fd (m_fields (record_model i)) -> f_default fd = Some d ->
  validate_ty (f_type fd) d = Some d.
Proof.
  intros Hin Hd.
  destruct i; cbn in Hin;
    repeat (destruct Hin as [<-|Hin];
            [cbn in Hd; first [discriminate Hd
                              | injection Hd as <-; reflexivity]|]);
    destruct Hin.
Qed.

(** X19. Normalising one of the four identity records twice changes
    nothing: a key, user, end-user or team record built again from the
    fields of a record is that same record. *)
Theorem identity_record_built_again
  (i : identity_record) (kwargs r : gmap string pyval) :
  construct (record_model i) kwargs = Ok r ->
  construct (record_model i) r = Ok r.
Proof.
  intros Hr.
  assert (He : m_extra (record_model i) = ExtraIgnore) by (destruct i; reflexivity).
  destruct (construct_shape _ _ _ He Hr) as (values & fs & Hv & Hc & Heq).
  assert (Hnd : NoDup (map f_name (m_fields (record_model i))))
    by (destruct i; solve_nodup).
  assert (Hfield : forall fd, In fd (m_fields (record_model i)) ->
            exists v, field_value values fd = Ok v /\ r !! f_name fd = Some v).
  { intros fd Hin. rewrite Heq. exact (collect_fields_lookup _ _ _ Hc Hnd fd Hin). }
  assert (Habsent : forall k, ~ In k (map f_name (m_fields (record_model i))) ->
            r !! k = None).
  { intros k Hk. rewrite Heq. apply not_elem_of_list_to_map.
    change (k ∉ map fst fs). rewrite (collect_fields_names _ _ _ Hc).
    intros Hin. apply list_elem_of_In in Hin. exact (Hk Hin). }
  apply (construct_from_shape _ _ fs He); [| |exact Heq].
  - destruct i.
    + reflexivity.
    + destruct (Hfield (dflt "spend" TFloat (PFloat 0))) as (v & Hfv & Hl);
        [cbn; auto 10|].
      destruct (spend_field_float _ _ Hfv) as [x ->].
      destruct (Hfield (dflt "models" plain_list (PList []))) as (w & Hfw & Hlw);
        [cbn; auto 10|].
      destruct (plain_list_is_list _ _ _ _ Hfw) as [l ->].
      cbn [f_name dflt] in Hl, Hlw.
      change (run_validators [LiteLLM_UserTable.set_model_info] r = Ok r).
      rewrite run_validators_single. unfold LiteLLM_UserTable.set_model_info.
      unfold py_get. rewrite Hl. cbn [default from_option id is_none].
      rewrite Hlw. reflexivity.
    + destruct (Hfield (dflt "spend" TFloat (PFloat 0))) as (v & Hfv & Hl);
        [cbn; auto 10|].
      destruct (spend_field_float _ _ Hfv) as [x ->].
      cbn [f_name dflt] in Hl.
      change (run_validators [LiteLLM_EndUserTable.set_model_info] r = Ok r).
      rewrite run_validators_single. unfold LiteLLM_EndUserTable.set_model_info.
      unfold py_get. rewrite Hl. reflexivity.
    + change (run_validators [decode_dict_fields LiteLLM_TeamTable.dict_fields] r
              = Ok r).
      rewrite run_validators_single.
      rewrite decode_dict_fields_noop; [reflexivity|].
      intros f s Hin Hs.
      destruct (Hfield (opt "metadata" plain_dict)) as (v & Hfv & Hl);
        [cbn; auto 10|].
      cbn [f_name opt] in Hl.
      cbn in Hin.
      destruct Hin as [<-|Hin].
      { rewrite Hl in Hs. apply (optional_dict_not_str _ _ _ s Hfv). congruence. }
      repeat (destruct Hin as [<-|Hin];
              [rewrite Habsent in Hs; [discriminate|cbn; intuition discriminate]|]).
      destruct Hin.
  - rewrite Heq. apply (collect_fields_again values); [exact Hnd| |exact Hc].
    intros fd d. apply identity_record_defaults_conform.
Qed.

Lemma identity_record_built_again_witness :
  construct LiteLLM_UserTable.cls
    (record_of (construct LiteLLM_UserTable.cls
                  (kw [("user_id", PStr (lit "u1")); ("max_budget", PInt 10);
                       ("user_email", PNone); ("spend", PNone)])))
  = Ok (record_of (construct LiteLLM_UserTable.cls
                     (kw [("user_id", PStr (lit "u1")); ("max_budget", PInt 10);
                          ("user_email", PNone); ("spend", PNone)]))).
Proof.
  apply (identity_record_built_again User
           (kw [("user_id", PStr (lit "u1")); ("max_budget", PInt 10);
                ("user_email", PNone); ("spend", PNone)])).
  apply is_ok_record_of. vm_compute. reflexivity.
Defined.

(** ** Stored text and the value it stands for *)

Lemma decode_dict_fields_decoded_input fs (values : gmap string pyval) f s v :
  NoDup fs -> In f fs ->
  values !! f = Some (PStr s) -> Json.json_loads s = Some v ->
  (forall s', v <> PStr s') ->
  decode_dict_fields fs (<[f := v]> values) = decode_dict_fields fs values.
Proof.
  revert values. induction fs as [|f0 fs IH]; intros values Hnd Hin Hf Hs Hv.
  - destruct Hin.
  - apply NoDup_cons in Hnd as [Hnotin Hnd]. cbn [decode_dict_fields].
    destruct (decide (f0 = f)) as [->|Hne].
    + unfold py_get at 1. rewrite lookup_insert_eq. cbn [default from_option id].
      rewrite (proj2 (py_get_PStr values f s) Hf), Hs. unfold py_set.
      destruct v; try reflexivity. exfalso. exact (Hv s0 eq_refl).
    + destruct Hin as [Heq|Hin]; [congruence|].
      assert (py_get (<[f := v]> values) f0 = py_get values f0) as ->.
      { unfold py_get. rewrite lookup_insert_ne by congruence. reflexivity. }
      destruct (py_get values f0) as [| | | |w| |];
        try (apply IH; assumption).
      destruct (Json.json_loads w) as [d|]; [|reflexivity].
      unfold py_set. rewrite insert_insert_ne by congruence.
      apply IH; try assumption.
      rewrite lookup_insert_ne by congruence. exact Hf.
Qed.

Lemma decoder_input_insert rk (kwargs : gmap string pyval) f v :
  In f (text_fields rk) ->
  decoder_input rk (<[f := v]> kwargs) = <[f := v]> (decoder_input rk kwargs).
Proof.
  intros Hin. destruct rk; [|reflexivity].
  unfold decoder_input.
  assert (f <> "token" /\ f <> "key") as [Ht Hk].
  { cbn in Hin. split; intros ->; intuition discriminate. }
  assert (py_get (<[f := v]> kwargs) "token" = py_get kwargs "token") as ->.
  { unfold py_get. rewrite lookup_insert_ne by exact Ht. reflexivity. }
  destruct (negb (is_none (py_get kwargs "token"))); [|reflexivity].
  unfold py_set. apply insert_insert_ne. congruence.
Qed.

(** X20. A text field of a key or team record may be given as stored text
    or as the value the text decodes to, with the same result: when the
    text of a listed field decodes to a value that is not itself a string,
    putting that value in place of the text gives the same record, or the
    same failure. *)
Theorem stored_text_or_decoded_value
  (rk : text_record) (kwargs : gmap string pyval) (f : string)
  (s : pystr) (v : pyval) :
  In f (text_fields rk) ->
  kwargs !! f = Some (PStr s) ->
  Json.json_loads s = Some v ->
  (forall s', v <> PStr s') ->
  construct (text_record_model rk) (<[f := v]> kwargs)
  = construct (text_record_model rk) kwargs.
Proof.
  intros Hin Hf Hs Hv. unfold construct.
  rewrite !text_record_validators, (decoder_input_insert rk kwargs f v Hin).
  rewrite (decode_dict_fields_decoded_input _ _ f s v (text_fields_nodup rk) Hin);
    [reflexivity| |exact Hs|exact Hv].
  rewrite decoder_input_lookup by exact Hin. exact Hf.
Qed.

Lemma stored_text_or_decoded_value_witness :
  construct LiteLLM_TeamTable.cls
    (<["metadata" := PDict [(lit "tier", PInt 2)]]>
       (kw [("team_id", PStr (lit "t1"));
            ("metadata", PStr (json_text "{'tier': 2}"))]))
  = construct LiteLLM_TeamTable.cls
      (kw [("team_id", PStr (lit "t1"));
           ("metadata", PStr (json_text "{'tier': 2}"))]).
Proof.
  apply (stored_text_or_decoded_value TeamRecord _ "metadata"
           (json_text "{'tier': 2}")).
  - left. reflexivity.
  - reflexivity.
  - vm_compute. reflexivity.
  - discriminate.
Defined.
